(** * Vault membership and delivery coordinator: the five relay variants

    The repository holds five overlapping versions of one WebSocket relay.
    Each one is embedded below in a module of its own:

    - [FileRelay]    : src/server.js            (JSON file storage)
    - [SqlRelay]     : src/unnamed/part_000     (better-sqlite3, synchronous)
    - [AsyncSqlRelay]: src/unnamed/part_001, first program (sqlite3, promises)
    - [MemRelay]     : src/unnamed/part_001, second program (in-memory maps)
    - [ExpressRelay] : src/unnamed/part_002     (express + db.json)

    A handler is a function from the server state to a new state, the list
    of frames it wrote to sockets, and a completion flag (returned / threw).
    Everything the handlers cannot decide themselves is an input: the clock
    ([Date.now()]), freshly generated message ids, and the behaviour of the
    sockets ([readyState], and whether [send] returns or throws). *)

From stdpp Require Import base option list gmap strings sorting.
From Stdlib Require Import ZArith.

(** ** Sockets and handler effects *)

(** A [ws] object is known by a number. *)
Definition conn := nat.

(** What the [ws] library decides: whether [readyState === WebSocket.OPEN],
    and whether a given [send] returns normally ([true]) or throws. *)
Record transport (P : Type) := Transport {
  readyOpen : conn → bool;
  sendOk : conn → P → bool
}.
Arguments Transport {P} _ _.
Arguments readyOpen {P} _ _.
Arguments sendOk {P} _ _ _.

(** Result of running a piece of handler code: the state reached, the frames
    put on the wire (oldest first) and the value returned; [val = None]
    means an exception is propagating. *)
Record result (S P A : Type) := Result {
  st : S;
  out : list (conn * P);
  val : option A
}.
Arguments Result {S P A} _ _ _.
Arguments st {S P A} _.
Arguments out {S P A} _.
Arguments val {S P A} _.

Definition act (S P A : Type) : Type := S → result S P A.

Definition ret {S P A} (a : A) : act S P A := λ s, Result s [] (Some a).

Definition bind {S P A B} (k : A → act S P B) (m : act S P A) : act S P B :=
  λ s, let r := m s in
       match val r with
       | Some a => let r' := k a (st r) in Result (st r') (out r ++ out r') (val r')
       | None => Result (st r) (out r) None
       end.

(** Sequencing is written [x ← m; k] and [m;; k]. *)
#[global] Instance act_ret {S P} : MRet (act S P) := @ret S P.
#[global] Instance act_bind {S P} : MBind (act S P) := @bind S P.

Definition gets {S P A} (f : S → A) : act S P A := λ s, Result s [] (Some (f s)).
Definition modify {S P} (f : S → S) : act S P unit := λ s, Result (f s) [] (Some tt).
Definition throw {S P A} : act S P A := λ s, Result s [] None.

(** [sock.send(JSON.stringify(p))] *)
Definition ws_send {S P} (tx : transport P) (c : conn) (p : P) : act S P unit :=
  λ s, if sendOk tx c p then Result s [(c, p)] (Some tt) else Result s [] None.

(** [try { body } catch (e) { handler }] *)
Definition try_catch {S P A} (body handler : act S P A) : act S P A :=
  λ s, let r := body s in
       match val r with
       | Some _ => r
       | None => let r' := handler (st r) in Result (st r') (out r ++ out r') (val r')
       end.

(** [for (const x of l) body(x)] and [l.forEach(body)]: an exception leaves
    the loop at once. *)
Fixpoint forEach {S P A} (l : list A) (body : A → act S P unit) : act S P unit :=
  match l with
  | [] => ret tt
  | x :: l' => body x ;; forEach l' body
  end.

(** The frames a socket takes from a list of writes before the first one
    that throws. *)
Fixpoint accepted {P} (tx : transport P) (ws : conn) (l : list P) : list P :=
  match l with
  | [] => []
  | p :: l' => if sendOk tx ws p then p :: accepted tx ws l' else []
  end.

(** JavaScript truthiness of a string ([!user] is its negation). *)
Definition truthy (s : string) : bool := negb (String.eqb s EmptyString).

(** [!x] for a variable that holds [null] or a string. *)
Definition falsy (o : option string) : bool :=
  match o with
  | None => true
  | Some s => negb (truthy s)
  end.

(** ** Identifiers as property names *)

(** server.js and part_002 keep their tables in plain JavaScript objects
    ([db.users], [DB.queues], ...) and index them with the identifiers the
    clients send. A plain object also answers for the property names it
    inherits from [Object.prototype]: under such a name a handler finds a
    built-in function, or the prototype itself, where it expects an entry
    of the table. *)
Definition inherited_names : list string :=
  [ "constructor"; "__proto__"; "hasOwnProperty"; "isPrototypeOf";
    "propertyIsEnumerable"; "toLocaleString"; "toString"; "valueOf";
    "__defineGetter__"; "__defineSetter__"; "__lookupGetter__"; "__lookupSetter__" ].

(** An identifier under which a plain object holds what was stored in it
    and nothing else. *)
Definition own_name (k : string) : bool := bool_decide (k ∉ inherited_names).

(** ********************************************************************* *)
(** ** src/server.js: relay with JSON file storage                        *)
(** ********************************************************************* *)
Module FileRelay.

Inductive vault_type := private | public.

#[global] Instance vault_type_eq_dec : EqDecision vault_type.
Proof. solve_decision. Defined.

(** [db.vaults[vaultId] = { members: [userId, ...], type }] *)
Record vault := Vault { members : list string; type : vault_type }.

(** [db.users[userId] = { identityKey, signedPreKey }] *)
Record user_keys := UserKeys {
  identityKey : option string;
  signedPreKey : option string
}.

(** The [msg.type] values the dispatcher knows; anything else falls through
    the [switch]. *)
Inductive msg_kind :=
  | identify | publish_keys | fetch_keys | join_vault
  | send_message | send_file_chunk | leave_vault | nuke | ping | unknown.

#[global] Instance msg_kind_eq_dec : EqDecision msg_kind.
Proof. solve_decision. Defined.

(** A parsed inbound message, with the fields the handlers read. [body]
    stands for the encrypted payload and every field the server copies
    without looking at it. *)
Record msg := Msg {
  mtype : msg_kind;
  userHash : string;
  vaultId : string;
  isPrivate : bool;
  targetUser : string;
  pubIdentityKey : option string;
  pubSignedPreKey : option string;
  reqId : string;
  body : string
}.

(** [{ ...msg, from: sender, ts: timestamp }] *)
Record packet := Packet { p_msg : msg; from : string; ts : Z }.

(** Frames the server writes. *)
Inductive frame :=
  | Pong
  | Identified (u : string)
  | KeysFound (user : string) (ik spk : option string) (req : string)
  | KeysMissing (user : string) (req : string)
  | ErrorFrame (message : string)
  | VaultJoined (v : string) (others : list string) (isPriv : bool)
  | MemberJoined (v : string) (newUser : string)
  | Relayed (p : packet)
  | Nuked.

(** [db]. Its three members are JavaScript objects used as maps, and they
    are embedded as finite maps. That is what they are as long as no
    identifier is one of the [inherited_names]: the embedding follows the
    code on the states that [plain] describes below, and what is stated
    about a lookup under a name the client chooses is stated for these
    states and for an [own_name]. [saveDB] writes [db] to disk and leaves
    it as it is, so it has no counterpart here. *)
Record database := Database {
  users : gmap string user_keys;
  messages : gmap string (list packet);
  vaults : gmap string vault
}.

(** Process state: [db], the [connections] map, and for every connection
    the [authenticatedUser] variable of its closure (no entry: [null]). *)
Record server := Server {
  db : database;
  connections : gmap string conn;
  authenticatedUser : gmap conn string
}.

Definition init : server :=
  Server (Database ∅ ∅ ∅) ∅ ∅.

Definition set_users (f : gmap string user_keys → gmap string user_keys) (s : server) : server :=
  Server (Database (f (users (db s))) (messages (db s)) (vaults (db s)))
         (connections s) (authenticatedUser s).
Definition set_messages (f : gmap string (list packet) → gmap string (list packet)) (s : server) : server :=
  Server (Database (users (db s)) (f (messages (db s))) (vaults (db s)))
         (connections s) (authenticatedUser s).
Definition set_vaults (f : gmap string vault → gmap string vault) (s : server) : server :=
  Server (Database (users (db s)) (messages (db s)) (f (vaults (db s))))
         (connections s) (authenticatedUser s).
Definition set_connections (f : gmap string conn → gmap string conn) (s : server) : server :=
  Server (db s) (f (connections s)) (authenticatedUser s).
Definition set_authenticatedUser (f : gmap conn string → gmap conn string) (s : server) : server :=
  Server (db s) (connections s) (f (authenticatedUser s)).

Abbreviation M := (act server frame).

Section Handlers.
Variable tx : transport frame.

(** [m => m !== user] *)
Definition other_than (user : string) (l : list string) : list string :=
  filter (λ m, m ≠ user) l.

(** [members.includes(user)] *)
Definition includes (user : string) (l : list string) : bool :=
  bool_decide (user ∈ l).

Definition handleIdentify (ws : conn) (m : msg) : M unit :=
  let u := userHash m in
  modify (set_authenticatedUser <[ws := u]>) ;;
  modify (set_connections <[u := ws]>) ;;
  modify (set_users (λ us, match us !! u with
                           | Some _ => us
                           | None => <[u := UserKeys None None]> us
                           end)) ;;
  queue ← gets (λ s, default [] (messages (db s) !! u));
  (if bool_decide (0 < length queue) then
     forEach queue (λ p, ws_send tx ws (Relayed p)) ;;
     modify (set_messages <[u := []]>)
   else ret tt) ;;
  ws_send tx ws (Identified u).

(** [db.users[user].identityKey = ...] throws a TypeError when the entry is
    gone (it is deleted by nuke). *)
Definition handlePublishKeys (ws : conn) (m : msg) (user : option string) : M unit :=
  match user with
  | Some u =>
    if truthy u then
      us ← gets (λ s, users (db s));
      match us !! u with
      | Some _ =>
        modify (set_users <[u := UserKeys (pubIdentityKey m) (pubSignedPreKey m)]>)
      | None => throw
      end
    else ret tt
  | None => ret tt
  end.

Definition handleFetchKeys (ws : conn) (m : msg) : M unit :=
  let target := targetUser m in
  us ← gets (λ s, users (db s));
  match us !! target with
  | Some k => ws_send tx ws (KeysFound target (identityKey k) (signedPreKey k) (reqId m))
  | None => ws_send tx ws (KeysMissing target (reqId m))
  end.

Definition handleJoinVault (ws : conn) (m : msg) (user : option string) : M unit :=
  match user with
  | Some u =>
    if truthy u then
      let vId := vaultId m in
      modify (set_vaults (λ vs, match vs !! vId with
                                | Some _ => vs
                                | None => <[vId := Vault [] (if isPrivate m then private else public)]> vs
                                end)) ;;
      v ← gets (λ s, default (Vault [] public) (vaults (db s) !! vId));
      if negb (includes u (members v))
           && bool_decide (type v = private) && bool_decide (2 ≤ length (members v))
      then ws_send tx ws (ErrorFrame "Private vault full")
      else
        (if negb (includes u (members v))
         then modify (set_vaults <[vId := Vault (members v ++ [u]) (type v)]>)
         else ret tt) ;;
        v' ← gets (λ s, default (Vault [] public) (vaults (db s) !! vId));
        let others := other_than u (members v') in
        ws_send tx ws (VaultJoined vId others (bool_decide (type v' = private))) ;;
        forEach others (λ o,
          cs ← gets connections;
          match cs !! o with
          | Some sock =>
            if readyOpen tx sock then ws_send tx sock (MemberJoined vId u) else ret tt
          | None => ret tt
          end)
    else ret tt
  | None => ret tt
  end.

Definition handleRelay (ws : conn) (m : msg) (sender : option string) (now : Z) : M unit :=
  match sender with
  | Some u =>
    if truthy u then
      vs ← gets (λ s, vaults (db s));
      match vs !! vaultId m with
      | None => ret tt
      | Some v =>
        let pkt := Packet m u now in
        forEach (members v) (λ r,
          if bool_decide (r = u) then ret tt
          else
            cs ← gets connections;
            match cs !! r with
            | Some socket =>
              if readyOpen tx socket then ws_send tx socket (Relayed pkt)
              else if bool_decide (mtype m = send_message)
                   then modify (set_messages (λ q, <[r := default [] (q !! r) ++ [pkt]]> q))
                   else ret tt
            | None =>
              if bool_decide (mtype m = send_message)
              then modify (set_messages (λ q, <[r := default [] (q !! r) ++ [pkt]]> q))
              else ret tt
            end)
      end
    else ret tt
  | None => ret tt
  end.

Definition handleLeaveVault (ws : conn) (m : msg) (user : option string) : M unit :=
  match user with
  | Some u =>
    if truthy u then
      vs ← gets (λ s, vaults (db s));
      match vs !! vaultId m with
      | None => ret tt
      | Some v =>
        let rest := other_than u (members v) in
        if bool_decide (length rest = 0)
        then modify (set_vaults (delete (vaultId m)))
        else modify (set_vaults <[vaultId m := Vault rest (type v)]>)
      end
    else ret tt
  | None => ret tt
  end.

Definition handleNuke (ws : conn) (m : msg) (user : option string) : M unit :=
  match user with
  | Some u =>
    if truthy u then
      modify (set_vaults (fmap (λ v, Vault (other_than u (members v)) (type v)))) ;;
      modify (set_messages (delete u)) ;;
      modify (set_users (delete u)) ;;
      ws_send tx ws Nuked ;;
      modify (set_connections (delete u))
    else ret tt
  | None => ret tt
  end.

(** The [switch (msg.type)] of the message listener. *)
Definition dispatch (ws : conn) (m : msg) (now : Z) : M unit :=
  user ← gets (λ s, authenticatedUser s !! ws);
  match mtype m with
  | identify => handleIdentify ws m
  | publish_keys => handlePublishKeys ws m user
  | fetch_keys => handleFetchKeys ws m
  | join_vault => handleJoinVault ws m user
  | send_message | send_file_chunk => handleRelay ws m user now
  | leave_vault => handleLeaveVault ws m user
  | nuke => handleNuke ws m user
  | ping => ws_send tx ws Pong
  | unknown => ret tt
  end.

(** [ws.on('message', ...)]: the switch runs inside [try { } catch (err)],
    which only logs. *)
Definition on_message (ws : conn) (m : msg) (now : Z) : M unit :=
  try_catch (dispatch ws m now) (ret tt).

(** [ws.on('close', ...)] *)
Definition on_close (ws : conn) : M unit :=
  user ← gets (λ s, authenticatedUser s !! ws);
  if falsy user then ret tt
  else modify (set_connections (delete (default EmptyString user))).

(** [pruneOldMessages], run hourly. *)
Definition ONE_WEEK : Z := 7 * 24 * 60 * 60 * 1000.

Definition pruneOldMessages (now : Z) : M unit :=
  modify (set_messages (fmap (filter (λ p, (now - ts p < ONE_WEEK)%Z)))).

End Handlers.

(** What can happen to the process. Every event brings the socket behaviour
    that holds while it is handled. *)
Inductive event :=
  | Message (tx : transport frame) (ws : conn) (m : msg) (now : Z)
  | Close (ws : conn)
  | Prune (now : Z).

Definition step (e : event) : M unit :=
  match e with
  | Message tx ws m now => on_message tx ws m now
  | Close ws => on_close ws
  | Prune now => pruneOldMessages now
  end.

Definition run (evs : list event) (s : server) : server :=
  foldl (λ s e, st (step e s)) s evs.

(** The identifiers of a message that the handlers use as property names
    of [db.users], [db.messages] and [db.vaults]. *)
Definition own_names (m : msg) : bool :=
  own_name (userHash m) && own_name (vaultId m) && own_name (targetUser m).

Definition plain_event (e : event) : bool :=
  match e with
  | Message _ _ m _ => own_names m
  | Close _ | Prune _ => true
  end.

(** The states of a process that started on an empty [db] and has handled
    messages with own names only. On the way no inherited name was looked
    up in [db] and nothing was written to [Object.prototype] or to a
    built-in function, so the three objects hold the entries of the maps
    and answer for nothing else. Every name such a state holds is an own
    name ([names_own] below). *)
Definition plain (s : server) : Prop :=
  ∃ evs, forallb plain_event evs = true ∧ s = run evs init.

(** Every name a state holds is an own name: the keys of the three
    objects, the members of the vaults, and the users the connections are
    identified as. *)
Definition names_own (s : server) : Prop :=
  (∀ u, is_Some (users (db s) !! u) → own_name u = true) ∧
  (∀ u, is_Some (messages (db s) !! u) → own_name u = true) ∧
  (∀ vId v, vaults (db s) !! vId = Some v →
     own_name vId = true ∧ Forall (λ x, own_name x = true) (members v)) ∧
  (∀ ws u, authenticatedUser s !! ws = Some u → own_name u = true).

(** No private vault lists more than two members. *)
Definition cap_ok (s : server) : Prop :=
  map_Forall (λ _ v, type v = private → length (members v) ≤ 2) (vaults (db s)).

(** Every queued packet was made from a send-message. *)
Definition text_only (s : server) : Prop :=
  map_Forall (λ _ q, Forall (λ p, mtype (p_msg p) = send_message) q) (messages (db s)).

(** No vault lists a user twice. *)
Definition members_nodup (s : server) : Prop :=
  map_Forall (λ _ v, NoDup (members v)) (vaults (db s)).

(** Whether [handleRelay] finds a registered socket for [r] whose
    [readyState] is [OPEN]. *)
Definition live (tx : transport frame) (s : server) (r : string) : bool :=
  match connections s !! r with
  | Some socket => readyOpen tx socket
  | None => false
  end.

End FileRelay.

(** ********************************************************************* *)
(** ** src/unnamed/part_000: relay on better-sqlite3                      *)
(** ********************************************************************* *)
Module SqlRelay.

Inductive vault_type := private | public.

#[global] Instance vault_type_eq_dec : EqDecision vault_type.
Proof. solve_decision. Defined.

(** Table [vaults], primary key [id]. *)
Record vault_row := VaultRow { v_type : vault_type; created_at : Z }.

(** Table [vault_members], primary key [(vault_id, user_id)]. *)
Record member_row := MemberRow { vault_id : string; user_id : string; joined_at : Z }.

(** Table [messages], primary key [id]; one [delivered] column per row. *)
Record message_row := MessageRow {
  id : string;
  m_vault_id : string;
  sender_id : string;
  ts : Z;
  json : string;
  delivered : bool
}.

Inductive msg_kind :=
  | identify | join_vault | leave_vault | send | nuke | ping | unknown.

Record msg := Msg {
  mtype : msg_kind;
  userHash : string;
  vaultId : string;
  isPrivate : bool;
  blob : string;
  from : string;
  msg_ts : Z
}.

Inductive frame :=
  | Connected
  | MessageFrame (v : string) (blob : string) (from : string) (id : string) (ts : Z)
  | IdentifyAck (u : string)
  | ErrorFrame (message : string)
  | JoinAck (v : string)
  | LeaveAck (v : string)
  | SendAck
  | Nuked
  | Pong (ts : Z).

Record server := Server {
  vaults : gmap string vault_row;
  vault_members : list member_row;
  messages : list message_row;
  users : gmap string Z;
  connections : gmap string conn;
  currentUserId : gmap conn string
}.

Definition init : server := Server ∅ [] [] ∅ ∅ ∅.

Definition set_vaults (f : gmap string vault_row → gmap string vault_row) (s : server) : server :=
  Server (f (vaults s)) (vault_members s) (messages s) (users s) (connections s) (currentUserId s).
Definition set_vault_members (f : list member_row → list member_row) (s : server) : server :=
  Server (vaults s) (f (vault_members s)) (messages s) (users s) (connections s) (currentUserId s).
Definition set_messages (f : list message_row → list message_row) (s : server) : server :=
  Server (vaults s) (vault_members s) (f (messages s)) (users s) (connections s) (currentUserId s).
Definition set_users (f : gmap string Z → gmap string Z) (s : server) : server :=
  Server (vaults s) (vault_members s) (messages s) (f (users s)) (connections s) (currentUserId s).
Definition set_connections (f : gmap string conn → gmap string conn) (s : server) : server :=
  Server (vaults s) (vault_members s) (messages s) (users s) (f (connections s)) (currentUserId s).
Definition set_currentUserId (f : gmap conn string → gmap conn string) (s : server) : server :=
  Server (vaults s) (vault_members s) (messages s) (users s) (connections s) (f (currentUserId s)).

Abbreviation M := (act server frame).

(** [ORDER BY m.ts ASC] *)
Definition ts_le (a b : message_row) : Prop := (ts a ≤ ts b)%Z.

#[global] Instance ts_le_dec a b : Decision (ts_le a b).
Proof. unfold ts_le. apply _. Defined.

#[global] Instance ts_le_total : Total ts_le.
Proof. intros a b. unfold ts_le. lia. Defined.

#[global] Instance ts_le_trans : Transitive ts_le.
Proof. intros a b c. unfold ts_le. lia. Defined.

Definition order_by_ts (rows : list message_row) : list message_row :=
  merge_sort ts_le rows.

(** The row count of [vault_members WHERE vault_id = ?]. *)
Definition getVaultMemberCount (vId : string) (s : server) : nat :=
  length (filter (λ r, vault_id r = vId) (vault_members s)).

(** [SELECT user_id FROM vault_members WHERE vault_id = ?] *)
Definition getVaultMembers (vId : string) (s : server) : list string :=
  user_id <$> filter (λ r, vault_id r = vId) (vault_members s).

(** The rows of [messages m JOIN vault_members v ON m.vault_id = v.vault_id
    WHERE v.user_id = ? AND m.delivered = 0], then [ORDER BY m.ts ASC]. *)
Definition join_rows (u : string) (s : server) : list message_row :=
  m ← messages s;
  v ← vault_members s;
  if bool_decide (m_vault_id m = vault_id v)
     && bool_decide (user_id v = u) && negb (delivered m)
  then [m] else [].

Definition getUndeliveredMessagesForUser (u : string) (s : server) : list message_row :=
  order_by_ts (join_rows u s).

(** [UPDATE messages SET delivered = 1 WHERE id = ?] *)
Definition mark (mid : string) (rows : list message_row) : list message_row :=
  (λ r, if bool_decide (id r = mid)
        then MessageRow (id r) (m_vault_id r) (sender_id r) (ts r) (json r) true
        else r) <$> rows.

Definition markMessageDelivered (mid : string) : M unit :=
  modify (set_messages (mark mid)).

(** [INSERT OR IGNORE INTO vault_members ...] *)
Definition addMemberToVault (vId u : string) (now : Z) : M unit :=
  modify (set_vault_members (λ rows,
    if bool_decide (Exists (λ r, vault_id r = vId ∧ user_id r = u) rows)
    then rows else rows ++ [MemberRow vId u now])).

Definition removeMemberFromVault (vId u : string) : M unit :=
  modify (set_vault_members (filter (λ r, ¬ (vault_id r = vId ∧ user_id r = u)))).

Definition addVaultIfNotExists (vId : string) (t : vault_type) (now : Z) : M unit :=
  modify (set_vaults (λ vs, match vs !! vId with
                            | Some _ => vs
                            | None => <[vId := VaultRow t now]> vs
                            end)).

Definition addUserIfNotExists (u : string) (now : Z) : M unit :=
  modify (set_users (λ us, match us !! u with
                           | Some _ => us
                           | None => <[u := now]> us
                           end)).

(** [UPDATE users SET last_seen = ? WHERE user_id = ?] *)
Definition updateUserLastSeen (u : string) (now : Z) : M unit :=
  modify (set_users (λ us, match us !! u with
                           | Some _ => <[u := now]> us
                           | None => us
                           end)).

(** [queueMessage]: the plain [INSERT] fails on a primary-key clash, and
    better-sqlite3 then throws. [uuid] is the value [uuidv4()] returned. *)
Definition queueMessage (uuid vId senderId blob : string) (t : Z) : M string :=
  rows ← gets messages;
  if bool_decide (Exists (λ r, id r = uuid) rows) then throw
  else modify (set_messages (λ rows, rows ++ [MessageRow uuid vId senderId t blob false]));;
       ret uuid.

(** The frame [identify] builds from a stored row. *)
Definition message_frame (r : message_row) : frame :=
  MessageFrame (m_vault_id r) (json r) (sender_id r) (id r) (ts r).

Section Handlers.
Variable tx : transport frame.

(** One round of the loop in [deliverMessageToVaultMembers]. *)
Definition deliver_to (msgId senderId vId blob : string) (t : Z) (m : string) : M unit :=
  if bool_decide (m = senderId) then ret tt
  else
    cs ← gets connections;
    match cs !! m with
    | Some ws =>
      if readyOpen tx ws then
        ws_send tx ws (MessageFrame vId blob senderId msgId t);;
        markMessageDelivered msgId
      else ret tt
    | None => ret tt
    end.

Definition deliverMessageToVaultMembers (uuid senderId vId blob : string) (t : Z) : M unit :=
  members ← gets (getVaultMembers vId);
  msgId ← queueMessage uuid vId senderId blob t;
  forEach members (deliver_to msgId senderId vId blob t).

Definition on_identify (ws : conn) (m : msg) (now : Z) : M unit :=
  let u := userHash m in
  modify (set_currentUserId <[ws := u]>);;
  addUserIfNotExists u now;;
  updateUserLastSeen u now;;
  modify (set_connections <[u := ws]>);;
  undelivered ← gets (getUndeliveredMessagesForUser u);
  forEach undelivered (λ r,
    ws_send tx ws (message_frame r);;
    markMessageDelivered (id r));;
  ws_send tx ws (IdentifyAck u).

(** [type] is what the message declares; the stored type of the vault is
    not read. [full] says whether the handler returns from inside the
    [if (type === "private")] block. *)
Definition on_join_vault (ws : conn) (m : msg) (now : Z) : M unit :=
  let t := if isPrivate m then private else public in
  addVaultIfNotExists (vaultId m) t now;;
  full ← (if bool_decide (t = private)
          then count ← gets (getVaultMemberCount (vaultId m));
               ret (bool_decide (2 ≤ count))
          else ret false);
  if full : bool
  then ws_send tx ws (ErrorFrame "Private vault already has 2 members.")
  else addMemberToVault (vaultId m) (userHash m) now;;
       ws_send tx ws (JoinAck (vaultId m)).

Definition on_leave_vault (ws : conn) (m : msg) : M unit :=
  removeMemberFromVault (vaultId m) (userHash m);;
  ws_send tx ws (LeaveAck (vaultId m)).

Definition on_send (ws : conn) (m : msg) (uuid : string) : M unit :=
  deliverMessageToVaultMembers uuid (from m) (vaultId m) (blob m) (msg_ts m);;
  ws_send tx ws SendAck.

(** The [DELETE] runs. The second statement is written
    [UPDATE messages m SET ...], and SQLite takes a table alias in an
    [UPDATE] only after [AS]: [db.prepare] throws on it, so no row of
    [messages] is changed and the [nuked] frame is never written. *)
Definition on_nuke (ws : conn) (m : msg) : M unit :=
  let u := userHash m in
  modify (set_vault_members (filter (λ r, user_id r ≠ u)));;
  throw.

Definition on_message (ws : conn) (m : msg) (now : Z) (uuid : string) : M unit :=
  match mtype m with
  | identify => on_identify ws m now
  | join_vault => on_join_vault ws m now
  | leave_vault => on_leave_vault ws m
  | send => on_send ws m uuid
  | nuke => on_nuke ws m
  | ping => ws_send tx ws (Pong now)
  | unknown => ret tt
  end.

Definition on_close (ws : conn) (now : Z) : M unit :=
  user ← gets (λ s, currentUserId s !! ws);
  if falsy user then ret tt
  else modify (set_connections (delete (default EmptyString user)));;
       updateUserLastSeen (default EmptyString user) now.

End Handlers.

(** [now] is what [Date.now()] returns during the event, [uuid] what
    [uuidv4()] returns if the handler asks for it. *)
Inductive event :=
  | Open (tx : transport frame) (ws : conn)
  | Message (tx : transport frame) (ws : conn) (m : msg) (now : Z) (uuid : string)
  | Close (ws : conn) (now : Z).

Definition step (e : event) : M unit :=
  match e with
  | Open tx ws => ws_send tx ws Connected
  | Message tx ws m now uuid => on_message tx ws m now uuid
  | Close ws now => on_close ws now
  end.

Definition run (evs : list event) (s : server) : server :=
  foldl (λ s e, st (step e s)) s evs.

(** [vaultExists] and [getVaultType] look up the [vaults] table. *)
Definition vaultExists (vId : string) (s : server) : bool :=
  bool_decide (is_Some (vaults s !! vId)).

Definition getVaultType (vId : string) (s : server) : option vault_type :=
  v_type <$> vaults s !! vId.

(** The primary key of [vault_members]: no two rows with the same vault and
    user. *)
Definition members_key (s : server) : Prop :=
  NoDup ((λ r, (vault_id r, user_id r)) <$> vault_members s).

(** [r'] is the message row [r], with its [delivered] column set if it was
    set in [r]. *)
Definition same_message (r r' : message_row) : Prop :=
  id r' = id r ∧ m_vault_id r' = m_vault_id r ∧ sender_id r' = sender_id r ∧
  ts r' = ts r ∧ json r' = json r ∧ (delivered r = true → delivered r' = true).

(** Every message row of [s] is still a row of [s']. *)
Definition keeps_messages (s s' : server) : Prop :=
  ∀ r, r ∈ messages s → ∃ r', r' ∈ messages s' ∧ same_message r r'.

End SqlRelay.

(** JavaScript [Set]: insertion-ordered, no duplicates. *)
Definition set_add (x : string) (l : list string) : list string :=
  if bool_decide (x ∈ l) then l else l ++ [x].

Definition set_delete (x : string) (l : list string) : list string :=
  filter (λ y, y ≠ x) l.

(** ********************************************************************* *)
(** ** src/unnamed/part_001, first program: relay on sqlite3              *)
(** ********************************************************************* *)
(** The handlers of this program are [async]; every handler is taken here
    as one uninterrupted step, which is one of the schedules the program
    has. *)
Module AsyncSqlRelay.

(** Table [messages], primary key [id]. *)
Record message_row := MessageRow {
  id : string;
  r_vaultId : string;
  fromUser : string;
  messageBlob : string;
  timestamp : Z
}.

(** Table [vaultMembers]: two text columns, no key and no constraint. *)
Record member_row := MemberRow { mr_vaultId : string; mr_userId : string }.

Inductive msg_kind := identify | join_vault | send | nuke | ping | unknown.

Record msg := Msg {
  mtype : msg_kind;
  userHash : string;
  msg_vaults : list string;
  vaultId : string;
  from : string;
  blob : string;
  msg_ts : Z;
  msg_id : string
}.

Inductive frame :=
  | MessageFrame (v : string) (from : string) (blob : string) (ts : Z)
  | IdentifyAck
  | JoinAck (v : string)
  | SendAck (id : string)
  | Pong.

Record server := Server {
  messages : list message_row;
  vaultMembers : list member_row;
  clients : gmap string conn;
  liveVaultMap : gmap string (list string);
  userId : gmap conn string
}.

Definition init : server := Server [] [] ∅ ∅ ∅.

Definition set_messages (f : list message_row → list message_row) (s : server) : server :=
  Server (f (messages s)) (vaultMembers s) (clients s) (liveVaultMap s) (userId s).
Definition set_vaultMembers (f : list member_row → list member_row) (s : server) : server :=
  Server (messages s) (f (vaultMembers s)) (clients s) (liveVaultMap s) (userId s).
Definition set_clients (f : gmap string conn → gmap string conn) (s : server) : server :=
  Server (messages s) (vaultMembers s) (f (clients s)) (liveVaultMap s) (userId s).
Definition set_liveVaultMap (f : gmap string (list string) → gmap string (list string)) (s : server) : server :=
  Server (messages s) (vaultMembers s) (clients s) (f (liveVaultMap s)) (userId s).
Definition set_userId (f : gmap conn string → gmap conn string) (s : server) : server :=
  Server (messages s) (vaultMembers s) (clients s) (liveVaultMap s) (f (userId s)).

Abbreviation M := (act server frame).

(** [ORDER BY timestamp ASC] *)
Definition timestamp_le (a b : message_row) : Prop := (timestamp a ≤ timestamp b)%Z.

#[global] Instance timestamp_le_dec a b : Decision (timestamp_le a b).
Proof. unfold timestamp_le. apply _. Defined.

#[global] Instance timestamp_le_total : Total timestamp_le.
Proof. intros a b. unfold timestamp_le. lia. Defined.

#[global] Instance timestamp_le_trans : Transitive timestamp_le.
Proof. intros a b c. unfold timestamp_le. lia. Defined.

Definition addToLiveVault (vId u : string) : M unit :=
  modify (set_liveVaultMap (λ lv, <[vId := set_add u (default [] (lv !! vId))]> lv)).

Definition removeFromLiveVault (u : string) : M unit :=
  modify (set_liveVaultMap (fmap (set_delete u))).

(** [INSERT INTO vaultMembers (vaultId, userId) VALUES (?, ?)]: nothing can
    reject the row, so the [.catch] after it never runs. *)
Definition insertVaultMember (vId u : string) : M unit :=
  modify (set_vaultMembers (λ rows, rows ++ [MemberRow vId u])).

(** [storeMessage]; a clash on the primary key rejects the promise. *)
Definition storeMessage (uuid vId fromU blob : string) (now : Z) : M unit :=
  rows ← gets messages;
  if bool_decide (Exists (λ r, id r = uuid) rows) then throw
  else modify (set_messages (λ rows, rows ++ [MessageRow uuid vId fromU blob now])).

(** The rows of [messages WHERE vaultId IN (...) ORDER BY timestamp ASC]. *)
Definition stored_for (userVaults : list string) (s : server) : list message_row :=
  merge_sort timestamp_le (filter (λ r, r_vaultId r ∈ userVaults) (messages s)).

(** The payload [deliverOfflineMessages] builds from a row. *)
Definition row_frame (row : message_row) : frame :=
  MessageFrame (r_vaultId row) (fromUser row) (messageBlob row) (timestamp row).

Section Handlers.
Variable tx : transport frame.

(** [sendToUser]: the result says whether the frame was written. *)
Definition sendToUser (u : option string) (p : frame) : M bool :=
  cs ← gets clients;
  match u ≫= (cs !!.) with
  | Some sock => if readyOpen tx sock then ws_send tx sock p;; ret true else ret false
  | None => ret false
  end.

Definition broadcastToVault (vId : string) (p : frame) (exceptUser : string) : M unit :=
  lv ← gets liveVaultMap;
  match lv !! vId with
  | None => ret tt
  | Some members =>
    forEach members (λ uid,
      if bool_decide (uid = exceptUser) then ret tt
      else sendToUser (Some uid) p;; ret tt)
  end.

Definition deliverOfflineMessages (u : string) (userVaults : list string) : M unit :=
  rows ← gets (stored_for userVaults);
  forEach rows (λ row, sendToUser (Some u) (row_frame row);; ret tt).

Definition on_identify (ws : conn) (m : msg) : M unit :=
  let u := userHash m in
  modify (set_userId <[ws := u]>);;
  modify (set_clients <[u := ws]>);;
  forEach (msg_vaults m) (λ v, addToLiveVault v u;; insertVaultMember v u);;
  deliverOfflineMessages u (msg_vaults m);;
  sendToUser (Some u) IdentifyAck;; ret tt.

Definition on_join_vault (ws : conn) (m : msg) (user : option string) : M unit :=
  if falsy user then ret tt
  else
    let u := default EmptyString user in
    addToLiveVault (vaultId m) u;;
    insertVaultMember (vaultId m) u;;
    sendToUser (Some u) (JoinAck (vaultId m));; ret tt.

Definition on_send (ws : conn) (m : msg) (user : option string) (now : Z) (uuid : string) : M unit :=
  if falsy user then ret tt
  else
    let packet := MessageFrame (vaultId m) (from m) (blob m) (msg_ts m) in
    storeMessage uuid (vaultId m) (from m) (blob m) now;;
    broadcastToVault (vaultId m) packet (from m);;
    sendToUser (Some (from m)) (SendAck (msg_id m));; ret tt.

(** [DELETE FROM messages WHERE fromUser = ?] *)
Definition on_nuke (ws : conn) (m : msg) (user : option string) : M unit :=
  if falsy user then ret tt
  else modify (set_messages (filter (λ r, fromUser r ≠ default EmptyString user))).

Definition on_message (ws : conn) (m : msg) (now : Z) (uuid : string) : M unit :=
  user ← gets (λ s, userId s !! ws);
  match mtype m with
  | identify => on_identify ws m
  | join_vault => on_join_vault ws m user
  | send => on_send ws m user now uuid
  | nuke => on_nuke ws m user
  | ping => sendToUser user Pong;; ret tt
  | unknown => ret tt
  end.

Definition on_close (ws : conn) : M unit :=
  user ← gets (λ s, userId s !! ws);
  if falsy user then ret tt
  else modify (set_clients (delete (default EmptyString user)));;
       removeFromLiveVault (default EmptyString user).

End Handlers.

Inductive event :=
  | Message (tx : transport frame) (ws : conn) (m : msg) (now : Z) (uuid : string)
  | Close (ws : conn).

Definition step (e : event) : M unit :=
  match e with
  | Message tx ws m now uuid => on_message tx ws m now uuid
  | Close ws => on_close ws
  end.

Definition run (evs : list event) (s : server) : server :=
  foldl (λ s e, st (step e s)) s evs.

End AsyncSqlRelay.

(** ********************************************************************* *)
(** ** src/unnamed/part_001, second program: in-memory relay              *)
(** ********************************************************************* *)
Module MemRelay.

Inductive msg_kind :=
  | identify | join_vault | send | nuke | leave_vault | ping | unknown.

(** [msg_vaults = None]: [msg.vaults] is not an array. [from] and [msg_ts]
    are [None] when the field is absent. [isPrivate] is what a client may
    put in a join-vault message; no handler of this program reads it. *)
Record msg := Msg {
  mtype : msg_kind;
  userHash : string;
  msg_vaults : option (list string);
  vaultId : string;
  isPrivate : bool;
  blob : string;
  from : option string;
  msg_ts : option Z
}.

(** [{vaultId, blob, from, id, ts}] *)
Record messageData := MessageData {
  q_vaultId : string;
  q_blob : string;
  q_from : string;
  q_id : string;
  q_ts : Z
}.

Inductive frame :=
  | Connected
  | MessageFrame (d : messageData)
  | IdentifyAck (u : string)
  | JoinAck (v : string)
  | SendAck (id : string) (delivered : bool)
  | Nuked
  | LeaveAck (v : string)
  | Pong (ts : Z).

(** The closure of one connection: [currentUserId] and [userVaults]. *)
Record session := Session { currentUserId : option string; userVaults : list string }.

Record server := Server {
  messageQueue : gmap string (list messageData);
  connections : gmap string conn;
  vaultMembers : gmap string (list string);
  sessions : gmap conn session
}.

Definition init : server := Server ∅ ∅ ∅ ∅.

Definition set_messageQueue (f : gmap string (list messageData) → gmap string (list messageData)) (s : server) : server :=
  Server (f (messageQueue s)) (connections s) (vaultMembers s) (sessions s).
Definition set_connections (f : gmap string conn → gmap string conn) (s : server) : server :=
  Server (messageQueue s) (f (connections s)) (vaultMembers s) (sessions s).
Definition set_vaultMembers (f : gmap string (list string) → gmap string (list string)) (s : server) : server :=
  Server (messageQueue s) (connections s) (f (vaultMembers s)) (sessions s).
Definition set_sessions (f : gmap conn session → gmap conn session) (s : server) : server :=
  Server (messageQueue s) (connections s) (vaultMembers s) (f (sessions s)).

Definition session_of (ws : conn) (s : server) : session :=
  default (Session None []) (sessions s !! ws).

Abbreviation M := (act server frame).

Definition MESSAGE_RETENTION : Z := 7 * 24 * 60 * 60 * 1000.

Definition addToQueue (u : string) (d : messageData) : M unit :=
  modify (set_messageQueue (λ q, <[u := default [] (q !! u) ++ [d]]> q)).

Definition getAndClearQueue (u : string) : M (list messageData) :=
  msgs ← gets (λ s, default [] (messageQueue s !! u));
  modify (set_messageQueue (delete u));;
  ret msgs.

Definition addVaultMember (vId u : string) : M unit :=
  modify (set_vaultMembers (λ vm, <[vId := set_add u (default [] (vm !! vId))]> vm)).

Definition removeVaultMember (vId u : string) : M unit :=
  modify (set_vaultMembers (λ vm,
    match vm !! vId with
    | None => vm
    | Some ms =>
      let ms' := set_delete u ms in
      if bool_decide (length ms' = 0) then delete vId vm else <[vId := ms']> vm
    end)).

Definition getVaultMembers (vId : string) (s : server) : list string :=
  default [] (vaultMembers s !! vId).

(** [x || y] on a string that may be absent. *)
Definition or_else (x : option string) (y : string) : string :=
  match x with
  | Some s => if truthy s then s else y
  | None => y
  end.

(** [msg.ts || Date.now()] *)
Definition ts_or_now (x : option Z) (now : Z) : Z :=
  match x with
  | Some t => if bool_decide (t = 0%Z) then now else t
  | None => now
  end.

Section Handlers.
Variable tx : transport frame.

Definition on_identify (ws : conn) (m : msg) : M unit :=
  let u := userHash m in
  modify (set_sessions (λ ss, <[ws := Session (Some u) (userVaults (default (Session None []) (ss !! ws)))]> ss));;
  modify (set_connections <[u := ws]>);;
  match msg_vaults m with
  | Some vs =>
    forEach vs (λ vId,
      modify (set_sessions (λ ss,
        <[ws := Session (Some u) (set_add vId (userVaults (default (Session None []) (ss !! ws))))]> ss));;
      addVaultMember vId u)
  | None => ret tt
  end;;
  queued ← getAndClearQueue u;
  forEach queued (λ qMsg, ws_send tx ws (MessageFrame qMsg));;
  ws_send tx ws (IdentifyAck u).

Definition on_join_vault (ws : conn) (m : msg) : M unit :=
  ses ← gets (session_of ws);
  if falsy (currentUserId ses) then ret tt
  else
    let u := default EmptyString (currentUserId ses) in
    modify (set_sessions <[ws := Session (currentUserId ses) (set_add (vaultId m) (userVaults ses))]>);;
    addVaultMember (vaultId m) u;;
    ws_send tx ws (JoinAck (vaultId m)).

(** [msgId] is the value [generateMessageId()] returned. The [delivered]
    flag of the loop is threaded through a fold. *)
Fixpoint relay (me : string) (d : messageData) (members : list string) (delivered : bool) : M bool :=
  match members with
  | [] => ret delivered
  | memberId :: rest =>
    if bool_decide (memberId = me) then relay me d rest delivered
    else
      cs ← gets connections;
      match cs !! memberId with
      | Some memberWs =>
        if readyOpen tx memberWs
        then ws_send tx memberWs (MessageFrame d);; relay me d rest true
        else addToQueue memberId d;; relay me d rest delivered
      | None => addToQueue memberId d;; relay me d rest delivered
      end
  end.

Definition on_send (ws : conn) (m : msg) (now : Z) (msgId : string) : M unit :=
  ses ← gets (session_of ws);
  if falsy (currentUserId ses) then ret tt
  else
    let me := default EmptyString (currentUserId ses) in
    let d := MessageData (vaultId m) (blob m) (or_else (from m) me) msgId (ts_or_now (msg_ts m) now) in
    members ← gets (getVaultMembers (vaultId m));
    delivered ← relay me d members false;
    ws_send tx ws (SendAck msgId delivered).

Definition on_nuke (ws : conn) (m : msg) : M unit :=
  ses ← gets (session_of ws);
  if falsy (currentUserId ses) then ret tt
  else
    let u := default EmptyString (currentUserId ses) in
    modify (set_messageQueue (delete u));;
    forEach (userVaults ses) (λ vId, removeVaultMember vId u);;
    modify (set_connections (delete u));;
    ws_send tx ws Nuked;;
    modify (set_sessions <[ws := Session None []]>).

Definition on_leave_vault (ws : conn) (m : msg) : M unit :=
  ses ← gets (session_of ws);
  if falsy (currentUserId ses) then ret tt
  else
    let u := default EmptyString (currentUserId ses) in
    modify (set_sessions <[ws := Session (currentUserId ses) (set_delete (vaultId m) (userVaults ses))]>);;
    removeVaultMember (vaultId m) u;;
    ws_send tx ws (LeaveAck (vaultId m)).

Definition on_message (ws : conn) (m : msg) (now : Z) (msgId : string) : M unit :=
  match mtype m with
  | identify => on_identify ws m
  | join_vault => on_join_vault ws m
  | send => on_send ws m now msgId
  | nuke => on_nuke ws m
  | leave_vault => on_leave_vault ws m
  | ping => ws_send tx ws (Pong now)
  | unknown => ret tt
  end.

Definition on_close (ws : conn) : M unit :=
  ses ← gets (session_of ws);
  if falsy (currentUserId ses) then ret tt
  else modify (set_connections (delete (default EmptyString (currentUserId ses)))).

(** The hourly sweep: a queue that becomes empty is dropped. *)
Definition sweep (now : Z) : M unit :=
  modify (set_messageQueue (λ q,
    filter (λ kv, kv.2 ≠ []) ((filter (λ d, (now - q_ts d < MESSAGE_RETENTION)%Z)) <$> q))).

End Handlers.

Inductive event :=
  | Open (tx : transport frame) (ws : conn)
  | Message (tx : transport frame) (ws : conn) (m : msg) (now : Z) (msgId : string)
  | Close (ws : conn)
  | Sweep (now : Z).

Definition step (e : event) : M unit :=
  match e with
  | Open tx ws => ws_send tx ws Connected
  | Message tx ws m now msgId => on_message tx ws m now msgId
  | Close ws => on_close ws
  | Sweep now => sweep now
  end.

Definition run (evs : list event) (s : server) : server :=
  foldl (λ s e, st (step e s)) s evs.

(** The live forwards of one send: for every member other than the sending
    user whose registered socket is open, the socket and the frame. *)
Definition live_forwards (tx : transport frame) (s : server) (me : string)
    (d : messageData) (members : list string) : list (conn * frame) :=
  omap (λ memberId,
    if bool_decide (memberId = me) then None
    else match connections s !! memberId with
         | Some memberWs =>
           if readyOpen tx memberWs then Some (memberWs, MessageFrame d) else None
         | None => None
         end) members.

(** No stored queue is empty, and no stored member set is empty or lists a
    user twice. *)
Definition tidy (s : server) : Prop :=
  map_Forall (λ _ q, q ≠ []) (messageQueue s) ∧
  map_Forall (λ _ l, l ≠ [] ∧ NoDup l) (vaultMembers s).

End MemRelay.

(** ********************************************************************* *)
(** ** src/unnamed/part_002: express relay persisting to db.json          *)
(** ********************************************************************* *)
(** The HTTP prekey endpoints touch [DB.users] and [DB.prekeys] only; they
    are embedded in [PrekeyRegistry] further down. Here [DB.users] is kept
    for the [lastSeen] writes of identify. *)
Module ExpressRelay.

Inductive msg_kind :=
  | identify | join_vault | leave_vault | send
  | x3dh_init | x3dh_response | file_chunk | file_complete
  | nuke | ping | unknown.

(** String fields are [None] when absent from the JSON. *)
Record msg := Msg {
  mtype : msg_kind;
  userId : option string;
  msg_vaults : option (list string);
  vaultId : option string;
  from : option string;
  to : option string;
  blob : string;
  msg_ts : option Z
}.

(** What is written to a socket or kept in a queue: the message itself, and
    for a vault send [Object.assign({}, msg, { target: member })]. *)
Record envelope := Envelope { e_msg : msg; target : option string }.

Inductive frame :=
  | Connected (ts : Z)
  | Forward (e : envelope)
  | IdentifyAck (u : string)
  | VaultJoinRequest (v : string) (u : string) (ts : Z)
  | JoinAck (v : string)
  | LeaveAck (v : string)
  | SendAckOk (delivered : bool)
  | SendAckUnknownVault
  | Nuked
  | Pong (ts : Z).

(** [DB.vaults[vaultId] = { creator, members: Set, createdAt }] *)
Record vault := Vault { creator : string; members : list string; createdAt : Z }.

(** [DB.users], [DB.vaults] and [DB.queues] are plain objects, embedded as
    finite maps. As in the file relay this is what they are as long as no
    identifier is one of the [inherited_names]; what is stated about a
    lookup under a name the client chooses is stated for the states that
    [plain] describes below and for an [own_name]. *)
Record server := Server {
  users : gmap string Z;
  vaults : gmap string vault;
  queues : gmap string (list envelope);
  connections : gmap string conn;
  session : gmap conn string
}.

Definition init : server := Server ∅ ∅ ∅ ∅ ∅.

Definition set_users (f : gmap string Z → gmap string Z) (s : server) : server :=
  Server (f (users s)) (vaults s) (queues s) (connections s) (session s).
Definition set_vaults (f : gmap string vault → gmap string vault) (s : server) : server :=
  Server (users s) (f (vaults s)) (queues s) (connections s) (session s).
Definition set_queues (f : gmap string (list envelope) → gmap string (list envelope)) (s : server) : server :=
  Server (users s) (vaults s) (f (queues s)) (connections s) (session s).
Definition set_connections (f : gmap string conn → gmap string conn) (s : server) : server :=
  Server (users s) (vaults s) (queues s) (f (connections s)) (session s).
Definition set_session (f : gmap conn string → gmap conn string) (s : server) : server :=
  Server (users s) (vaults s) (queues s) (connections s) (f (session s)).

Abbreviation M := (act server frame).

Definition messagesRetentionMs : Z := 7 * 24 * 60 * 60 * 1000.

Definition queueMessage (u : string) (e : envelope) : M unit :=
  modify (set_queues (λ q, <[u := default [] (q !! u) ++ [e]]> q)).

(** [DB.vaults[vId] = DB.vaults[vId] || {...}; DB.vaults[vId].members.add(u)] *)
Definition ensure_and_add (vId u : string) (now : Z) : M unit :=
  modify (set_vaults (λ vs,
    let v := default (Vault u [] now) (vs !! vId) in
    <[vId := Vault (creator v) (set_add u (members v)) (createdAt v)]> vs)).

Section Handlers.
Variable tx : transport frame.

Definition deliverQueued (u : string) : M unit :=
  cs ← gets connections;
  match cs !! u with
  | None => ret tt
  | Some ws =>
    list ← gets (λ s, default [] (queues s !! u));
    forEach list (λ m, try_catch (ws_send tx ws (Forward m)) (ret tt));;
    modify (set_queues <[u := []]>)
  end.

Definition on_identify (ws : conn) (m : msg) (now : Z) : M unit :=
  match userId m with
  | Some u =>
    if truthy u then
      modify (set_session <[ws := u]>);;
      modify (set_connections <[u := ws]>);;
      modify (set_users <[u := now]>);;
      match msg_vaults m with
      | Some vs => forEach vs (λ vId, ensure_and_add vId u now)
      | None => ret tt
      end;;
      deliverQueued u;;
      ws_send tx ws (IdentifyAck u)
    else ret tt
  | None => ret tt
  end.

Definition on_join_vault (ws : conn) (m : msg) (now : Z) : M unit :=
  match vaultId m, userId m with
  | Some vId, Some u =>
    if truthy vId && truthy u then
      ensure_and_add vId u now;;
      v ← gets (λ s, default (Vault u [] now) (vaults s !! vId));
      cs ← gets connections;
      (if truthy (creator v) then
         match cs !! creator v with
         | Some sock => ws_send tx sock (VaultJoinRequest vId u now)
         | None => ret tt
         end
       else ret tt);;
      ws_send tx ws (JoinAck vId)
    else ret tt
  | _, _ => ret tt
  end.

Definition on_leave_vault (ws : conn) (m : msg) : M unit :=
  match vaultId m, userId m with
  | Some vId, Some u =>
    if truthy vId && truthy u then
      modify (set_vaults (λ vs,
        match vs !! vId with
        | Some v => <[vId := Vault (creator v) (set_delete u (members v)) (createdAt v)]> vs
        | None => vs
        end));;
      ws_send tx ws (LeaveAck vId)
    else ret tt
  | _, _ => ret tt
  end.

(** The loop of [case 'send'], with its [delivered] flag. *)
Fixpoint fan_out (m : msg) (sender : string) (members : list string) (delivered : bool) : M bool :=
  match members with
  | [] => ret delivered
  | member :: rest =>
    if bool_decide (member = sender) then fan_out m sender rest delivered
    else
      let e := Envelope m (Some member) in
      cs ← gets connections;
      match cs !! member with
      | Some sock =>
        delivered' ← try_catch (ws_send tx sock (Forward e);; ret true)
                               (queueMessage member e;; ret delivered);
        fan_out m sender rest delivered'
      | None => queueMessage member e;; fan_out m sender rest delivered
      end
  end.

Definition on_send (ws : conn) (m : msg) : M unit :=
  match vaultId m, from m with
  | Some vId, Some f =>
    if truthy vId && truthy f then
      vs ← gets vaults;
      match vs !! vId with
      | None => ws_send tx ws SendAckUnknownVault
      | Some v =>
        delivered ← fan_out m f (members v) false;
        ws_send tx ws (SendAckOk delivered)
      end
    else ret tt
  | _, _ => ret tt
  end.

(** x3dh-init, x3dh-response, file-chunk and file-complete. *)
Definition on_direct (ws : conn) (m : msg) : M unit :=
  match to m with
  | Some t =>
    if truthy t then
      cs ← gets connections;
      match cs !! t with
      | Some sock => ws_send tx sock (Forward (Envelope m None))
      | None => queueMessage t (Envelope m None)
      end
    else ret tt
  | None => ret tt
  end.

Definition on_nuke (ws : conn) (m : msg) : M unit :=
  match userId m with
  | Some u =>
    if truthy u then
      modify (set_queues (delete u));;
      modify (set_vaults (fmap (λ v, Vault (creator v) (set_delete u (members v)) (createdAt v))));;
      ws_send tx ws Nuked
    else ret tt
  | None => ret tt
  end.

Definition on_message (ws : conn) (m : msg) (now : Z) : M unit :=
  match mtype m with
  | identify => on_identify ws m now
  | join_vault => on_join_vault ws m now
  | leave_vault => on_leave_vault ws m
  | send => on_send ws m
  | x3dh_init | x3dh_response | file_chunk | file_complete => on_direct ws m
  | nuke => on_nuke ws m
  | ping => ws_send tx ws (Pong now)
  | unknown => ret tt
  end.

Definition on_close (ws : conn) : M unit :=
  user ← gets (λ s, session s !! ws);
  if falsy user then ret tt
  else modify (set_connections (delete (default EmptyString user))).

(** The hourly sweep; an envelope without a timestamp is kept. *)
Definition kept (now : Z) (e : envelope) : bool :=
  match msg_ts (e_msg e) with
  | Some t => bool_decide (t = 0%Z) || bool_decide (now - t < messagesRetentionMs)%Z
  | None => true
  end.

Definition sweep (now : Z) : M unit :=
  modify (set_queues (fmap (filter (λ e, kept now e = true)))).

End Handlers.

Inductive event :=
  | Open (tx : transport frame) (ws : conn) (now : Z)
  | Message (tx : transport frame) (ws : conn) (m : msg) (now : Z)
  | Close (ws : conn)
  | Sweep (now : Z).

Definition step (e : event) : M unit :=
  match e with
  | Open tx ws now => ws_send tx ws (Connected now)
  | Message tx ws m now => on_message tx ws m now
  | Close ws => on_close ws
  | Sweep now => sweep now
  end.

Definition run (evs : list event) (s : server) : server :=
  foldl (λ s e, st (step e s)) s evs.

(** The identifiers of a message that the handlers use as property names
    of [DB.users], [DB.vaults] and [DB.queues]; [from] is only compared
    with the member names. *)
Definition own_names (m : msg) : bool :=
  from_option own_name true (userId m)
  && forallb own_name (default [] (msg_vaults m))
  && from_option own_name true (vaultId m)
  && from_option own_name true (to m).

Definition plain_event (e : event) : bool :=
  match e with
  | Message _ _ m _ => own_names m
  | Open _ _ _ | Close _ | Sweep _ => true
  end.

(** The states of a relay that started on an empty [DB] and has handled
    messages with own names only (the HTTP endpoints, which share
    [DB.users], are no event of the relay). Every name such a state holds
    is an own name ([names_own] below). *)
Definition plain (s : server) : Prop :=
  ∃ evs, forallb plain_event evs = true ∧ s = run evs init.

(** Every name a state holds is an own name: the keys of the three
    objects and the members of the vaults. *)
Definition names_own (s : server) : Prop :=
  (∀ u, is_Some (users s !! u) → own_name u = true) ∧
  (∀ u, is_Some (queues s !! u) → own_name u = true) ∧
  (∀ vId v, vaults s !! vId = Some v →
     own_name vId = true ∧ Forall (λ x, own_name x = true) (members v)).

End ExpressRelay.

(** ********************************************************************* *)
(** ** src/unnamed/part_002: the HTTP prekey endpoints                    *)
(** ********************************************************************* *)
(** [POST /register_prekeys], [GET /get_prekeys/:userId] and
    [GET /user/:userId] work on [DB.users] and [DB.prekeys]. A handler is a
    function from the two maps to the new maps and the response. As in the
    relay, a user id is taken to be no inherited property name of a
    JavaScript object; the keys in the arrays are taken to be strings, and
    [persistDB] to return normally. *)
Module PrekeyRegistry.

(** [DB.users[uid]]: [identityPub] and [signPub] are absent until a
    registration sets them. *)
Record user := User {
  identityPub : option string;
  signPub : option string;
  lastSeen : Z
}.

(** [DB.prekeys[uid] = { prekeys, oneTimePrekeys }] *)
Record bundle := Bundle { prekeys : list string; oneTimePrekeys : list string }.

Record registry := Registry {
  users : gmap string user;
  stored : gmap string bundle
}.

Definition init : registry := Registry ∅ ∅.

(** The JSON body of a registration. A string field is [None] when absent;
    an array field is [None] when the value is not an array. *)
Record body := Body {
  userId : option string;
  b_identityPub : option string;
  b_signPub : option string;
  b_prekeys : option (list string);
  b_oneTimePrekeys : option (list string)
}.

Inductive response :=
  | Invalid                       (* 400 { error: 'invalid' } *)
  | Registered                    (* { ok: true } *)
  | NotFound                      (* 404 { error: 'not_found' } *)
  | PrekeyBundle (identityPub : option string) (prekeys : list string)
                 (oneTimePrekey : option string) (signPub : option string)
  | UserInfo (u : user).

(** [x || null] on a string that may be absent. *)
Definition or_null (x : option string) : option string :=
  match x with
  | Some k => if truthy k then Some k else None
  | None => None
  end.

Definition register_prekeys (b : body) (now : Z) (db : registry) : registry * response :=
  match userId b, b_identityPub b, b_prekeys b with
  | Some uid, Some ik, Some pks =>
    if truthy uid && truthy ik then
      let old := users db !! uid in
      let sp := match or_null (b_signPub b) with
                | Some k => Some k
                | None => old ≫= signPub
                end in
      let cur := default (Bundle [] []) (stored db !! uid) in
      let otk := match b_oneTimePrekeys b with
                 | Some l => take 200 l
                 | None => oneTimePrekeys cur
                 end in
      (Registry (<[uid := User (Some ik) sp now]> (users db))
                (<[uid := Bundle (take 50 pks) otk]> (stored db)),
       Registered)
    else (db, Invalid)
  | _, _, _ => (db, Invalid)
  end.

(** [pk.oneTimePrekeys.shift()] takes the first one-time prekey out of the
    stored array. *)
Definition get_prekeys (uid : string) (db : registry) : registry * response :=
  match stored db !! uid, users db !! uid with
  | Some pk, Some u =>
    (Registry (users db) (<[uid := Bundle (prekeys pk) (tail (oneTimePrekeys pk))]> (stored db)),
     PrekeyBundle (identityPub u) (prekeys pk)
                  (head (oneTimePrekeys pk) ≫= λ k, or_null (Some k))
                  (or_null (signPub u)))
  | _, _ => (db, NotFound)
  end.

Definition get_user (uid : string) (db : registry) : registry * response :=
  match users db !! uid with
  | Some u => (db, UserInfo u)
  | None => (db, NotFound)
  end.

(** What the WebSocket identify of [uid] writes to [DB.users]. *)
Definition seen (uid : string) (now : Z) (db : registry) : registry :=
  let u := default (User None None now) (users db !! uid) in
  Registry (<[uid := User (identityPub u) (signPub u) now]> (users db)) (stored db).

Inductive request :=
  | RegisterPrekeys (b : body) (now : Z)
  | GetPrekeys (uid : string)
  | GetUser (uid : string)
  | Identify (uid : string) (now : Z).

Definition handle (r : request) (db : registry) : registry :=
  match r with
  | RegisterPrekeys b now => (register_prekeys b now db).1
  | GetPrekeys uid => (get_prekeys uid db).1
  | GetUser uid => (get_user uid db).1
  | Identify uid now => seen uid now db
  end.

Definition run (rs : list request) (db : registry) : registry :=
  foldl (λ db r, handle r db) db rs.


(** Every stored bundle is within the size limits and belongs to a user
    whose identity key is set. *)
Definition well_formed (db : registry) : Prop :=
  map_Forall (λ uid pk,
    length (prekeys pk) ≤ 50 ∧ length (oneTimePrekeys pk) ≤ 200 ∧
    ∃ u ik, users db !! uid = Some u ∧ identityPub u = Some ik ∧ truthy ik = true)
    (stored db).

End PrekeyRegistry.

(** ********************************************************************* *)
(** ** Concrete runs                                                      *)
(** ********************************************************************* *)
(** Small traces on which the variants are evaluated further down. *)
Module Scenario.

(** Sockets that are open and never fail. *)
Definition healthy {P} : transport P := Transport (λ _, true) (λ _ _, true).

(** *** In-memory relay: three users join the vault V1 that its first user
    declared private. *)
Module Mem.
Import MemRelay.

Definition hello (u : string) : msg :=
  Msg identify u None EmptyString false EmptyString None None.
Definition join (v : string) (priv : bool) : msg :=
  Msg join_vault EmptyString None v priv EmptyString None None.
Definition say (v text : string) (t : Z) : msg :=
  Msg send EmptyString None v false text None (Some t).

Definition two_joined : list event :=
  [ Message healthy 1 (hello "A") 0 EmptyString;
    Message healthy 1 (join "V1" true) 0 EmptyString;
    Message healthy 2 (hello "B") 0 EmptyString;
    Message healthy 2 (join "V1" true) 0 EmptyString;
    Message healthy 3 (hello "C") 0 EmptyString ].

Definition third_join : event := Message healthy 3 (join "V1" true) 0 EmptyString.

(** A, B and C share V1; B goes away; A sends with timestamp 20, then C
    sends with timestamp 10. *)
Definition out_of_order : list event :=
  two_joined ++
  [ third_join;
    Close 2;
    Message healthy 1 (say "V1" "late" 20) 100 "id-1";
    Message healthy 3 (say "V1" "early" 10) 101 "id-2" ].

Definition B_returns : event := Message healthy 4 (hello "B") 200 EmptyString.

(** A socket on which every write throws. *)
Definition dead : transport frame := Transport (λ _, false) (λ _ _, false).
Definition B_returns_on_dead_socket : event := Message dead 4 (hello "B") 200 EmptyString.

End Mem.

(** *** better-sqlite3 relay *)
Module Sql.
Import SqlRelay.

Definition hello (u : string) : msg :=
  Msg identify u EmptyString false EmptyString EmptyString 0.
Definition join (v u : string) (priv : bool) : msg :=
  Msg join_vault u v priv EmptyString EmptyString 0.
Definition say (v sender text : string) (t : Z) : msg :=
  Msg send EmptyString v false text sender t.

(** A public vault G with members A, B and C; A and B are connected, C is
    not. *)
Definition group_of_three : list event :=
  [ Message healthy 1 (hello "A") 0 EmptyString;
    Message healthy 1 (join "G" "A" false) 0 EmptyString;
    Message healthy 2 (hello "B") 0 EmptyString;
    Message healthy 2 (join "G" "B" false) 0 EmptyString;
    Message healthy 3 (join "G" "C" false) 0 EmptyString ].

Definition A_sends : event := Message healthy 1 (say "G" "A" "ct1" 5) 5 "m-1".
Definition C_identifies : event := Message healthy 4 (hello "C") 9 EmptyString.

(** A private vault V1 with its two members A and B. *)
Definition private_pair : list event :=
  [ Message healthy 1 (hello "A") 0 EmptyString;
    Message healthy 1 (join "V1" "A" true) 0 EmptyString;
    Message healthy 2 (hello "B") 0 EmptyString;
    Message healthy 2 (join "V1" "B" true) 0 EmptyString ].

Definition A_rejoins : event := Message healthy 1 (join "V1" "A" true) 1 EmptyString.
Definition C_joins_as_public : event := Message healthy 3 (join "V1" "C" false) 1 EmptyString.

(** A send to a vault nobody created. *)
Definition send_nowhere : event := Message healthy 1 (say "nope" "A" "ct" 5) 5 "m-9".

(** In the private pair, A sends while B is connected, and B asks for a
    nuke. *)
Definition A_sends_to_pair : event := Message healthy 1 (say "V1" "A" "ct1" 2) 2 "m-2".
Definition B_wipes : msg := Msg nuke "B" EmptyString false EmptyString EmptyString 0.

(** In the private pair B's socket closes and then A sends. *)
Definition B_away_A_sends : list event :=
  private_pair ++ [ Close 2 1; A_sends_to_pair ].

(** A, B and C are members of G and nobody is connected; A sends with
    timestamp 20, then B sends with timestamp 10. *)
Definition late_then_early : list event :=
  [ Message healthy 1 (join "G" "A" false) 0 EmptyString;
    Message healthy 2 (join "G" "B" false) 0 EmptyString;
    Message healthy 3 (join "G" "C" false) 0 EmptyString;
    Message healthy 1 (say "G" "A" "late" 20) 100 "m-1";
    Message healthy 2 (say "G" "B" "early" 10) 101 "m-2" ].

End Sql.

(** *** sqlite3 relay *)
Module Async.
Import AsyncSqlRelay.

Definition hello (u : string) (vs : list string) : msg :=
  Msg identify u vs EmptyString EmptyString EmptyString 0 EmptyString.
Definition join (v : string) : msg :=
  Msg join_vault EmptyString [] v EmptyString EmptyString 0 EmptyString.
Definition say (v sender text : string) : msg :=
  Msg send EmptyString [] v sender text 0 "c-1".
Definition wipe : msg :=
  Msg nuke EmptyString [] EmptyString EmptyString EmptyString 0 EmptyString.

(** A and B are in V; A sends; B asks for a nuke. *)
Definition B_nukes : list event :=
  [ Message healthy 1 (hello "A" ["V"]) 0 EmptyString;
    Message healthy 2 (hello "B" ["V"]) 0 EmptyString;
    Message healthy 1 (say "V" "A" "ct1") 7 "m-1";
    Message healthy 2 wipe 8 EmptyString ].

Definition B_identifies_again : event := Message healthy 2 (hello "B" ["V"]) 9 EmptyString.

Definition joins_twice : list event :=
  [ Message healthy 1 (hello "A" []) 0 EmptyString;
    Message healthy 1 (join "V") 0 EmptyString;
    Message healthy 1 (join "V") 0 EmptyString ].

(** A is in V and sends three times; the clock reads 7, then 9, then 8.
    B identifies for V afterwards. *)
Definition three_stored : list event :=
  [ Message healthy 1 (hello "A" ["V"]) 0 EmptyString;
    Message healthy 1 (say "V" "A" "first") 7 "m-1";
    Message healthy 1 (say "V" "A" "third") 9 "m-2";
    Message healthy 1 (say "V" "A" "second") 8 "m-3" ].

Definition B_arrives : event := Message healthy 2 (hello "B" ["V"]) 10 EmptyString.

End Async.

(** *** express relay *)
Module Express.
Import ExpressRelay.

Definition hello (u : string) (vs : list string) : msg :=
  Msg identify (Some u) (Some vs) None None None EmptyString None.
Definition say (v sender text : string) (t : Z) : msg :=
  Msg send None None (Some v) (Some sender) None text (Some t).

(** A and B are in V; B goes away; A sends twice. *)
Definition two_queued : list event :=
  [ Message healthy 1 (hello "A" ["V"]) 0;
    Message healthy 2 (hello "B" ["V"]) 0;
    Close 2;
    Message healthy 1 (say "V" "A" "ct1" 1) 1;
    Message healthy 1 (say "V" "A" "ct2" 2) 2 ].

(** B's new socket takes the first queued envelope and throws on the
    second. *)
Definition breaks_on_second : transport frame :=
  Transport (λ _, true)
    (λ _ f, match f with
            | Forward e => bool_decide (blob (e_msg e) ≠ "ct2")
            | _ => true
            end).

Definition B_returns_broken : event := Message breaks_on_second 3 (hello "B" ["V"]) 10.
Definition B_returns_again : event := Message healthy 4 (hello "B" ["V"]) 20.

Definition send_nowhere : event := Message healthy 1 (say "nope" "A" "ct" 5) 5.

End Express.

(** *** file relay *)
Module File.
Import FileRelay.

Definition blank (k : msg_kind) : msg :=
  Msg k EmptyString EmptyString false EmptyString None None EmptyString EmptyString.
Definition hello (u : string) : msg :=
  Msg identify u EmptyString false EmptyString None None EmptyString EmptyString.
Definition join (v : string) (priv : bool) : msg :=
  Msg join_vault EmptyString v priv EmptyString None None EmptyString EmptyString.
Definition say (k : msg_kind) (v text : string) : msg :=
  Msg k EmptyString v false EmptyString None None EmptyString text.

(** A and B are both connected members of the private vault V1. *)
Definition pair_online : list event :=
  [ Message healthy 1 (hello "A") 0;
    Message healthy 1 (join "V1" true) 0;
    Message healthy 2 (hello "B") 0;
    Message healthy 2 (join "V1" true) 0 ].

Definition A_sends : event := Message healthy 1 (say send_message "V1" "ct1") 5.

(** C identifies and tries to join the full vault. *)
Definition C_arrives : event := Message healthy 3 (hello "C") 1.
Definition C_joins : event := Message healthy 3 (join "V1" true) 2.

(** B goes away and A sends a text and a file chunk. *)
Definition B_offline : list event := pair_online ++ [ Close 2 ].
Definition A_sends_chunk : event := Message healthy 1 (say send_file_chunk "V1" "chunk") 6.

(** B identifies once more on socket 5 while socket 2 is still registered,
    and then socket 2 closes. *)
Definition B_second_socket : event := Message healthy 5 (hello "B") 3.

(** B is identified on sockets 2 and 5; socket 5 closes, which unregisters
    B, and A sends. *)
Definition B_unregistered : list event :=
  pair_online ++ [ B_second_socket; Close 5; A_sends ].

(** B's socket accepts nothing. *)
Definition dead : transport frame := Transport (λ _, false) (λ _ _, false).
Definition B_returns_on_dead_socket : event := Message dead 6 (hello "B") 20.
Definition B_returns : event := Message healthy 7 (hello "B") 30.

(** What A's send at time 5 leaves in B's queue. *)
Definition queued_for_B : list packet :=
  [ Packet (say send_message "V1" "ct1") "A" 5 ].

(** A public vault G with A, B and C, where C went away. *)
Definition group_C_offline : list event :=
  [ Message healthy 1 (hello "A") 0;
    Message healthy 1 (join "G" false) 0;
    Message healthy 2 (hello "B") 0;
    Message healthy 2 (join "G" false) 0;
    Message healthy 3 (hello "C") 0;
    Message healthy 3 (join "G" false) 0;
    Close 3 ].

Definition A_sends_to_group : event := Message healthy 1 (say send_message "G" "ct1") 5.
Definition C_returns : event := Message healthy 4 (hello "C") 9.
Definition A_rejoins : event := Message healthy 1 (join "V1" true) 3.
Definition A_sends_nowhere : event := Message healthy 1 (say send_message "nope" "ct") 5.

End File.

End Scenario.

(** ********************************************************************* *)
(** ** Reasoning about handler code                                       *)
(** ********************************************************************* *)
Section EffectFacts.
Context {S P : Type}.
Implicit Types (s : S) (tx : transport P).

Lemma result_eta {A} (r : result S P A) : Result (st r) (out r) (val r) = r.
Proof. by destruct r. Qed.

Lemma bind_eq {A B} (m : act S P A) (k : A → act S P B) s :
  (m ≫= k) s =
  match val (m s) with
  | Some a => Result (st (k a (st (m s)))) (out (m s) ++ out (k a (st (m s))))
                     (val (k a (st (m s))))
  | None => Result (st (m s)) (out (m s)) None
  end.
Proof. reflexivity. Qed.

Lemma bind_gets {A B} (f : S → A) (k : A → act S P B) s :
  (gets f ≫= k) s = k (f s) s.
Proof. rewrite bind_eq. cbn. apply result_eta. Qed.

Lemma bind_modify {B} (f : S → S) (k : unit → act S P B) s :
  (modify f ≫= k) s = k tt (f s).
Proof. rewrite bind_eq. cbn. apply result_eta. Qed.

Lemma bind_ret {A B} (a : A) (k : A → act S P B) s :
  (ret a ≫= k) s = k a s.
Proof. rewrite bind_eq. cbn. apply result_eta. Qed.

Lemma bind_throw {A B} (k : A → act S P B) s :
  (throw ≫= k) s = Result s [] None.
Proof. reflexivity. Qed.

Lemma bind_ws_send {B} tx c p (k : unit → act S P B) s :
  (ws_send tx c p ≫= k) s =
  if sendOk tx c p
  then Result (st (k tt s)) ((c, p) :: out (k tt s)) (val (k tt s))
  else Result s [] None.
Proof. rewrite bind_eq. unfold ws_send. by destruct (sendOk tx c p). Qed.

Lemma st_ws_send tx c p s : st (ws_send tx c p s) = s.
Proof. unfold ws_send. by destruct (sendOk tx c p). Qed.

Lemma st_try_catch_ret {A} (body : act S P A) (a : A) s :
  st (try_catch body (ret a) s) = st (body s).
Proof. unfold try_catch. destruct (val (body s)); reflexivity. Qed.

Lemma out_try_catch_ret {A} (body : act S P A) (a : A) s :
  out (try_catch body (ret a) s) = out (body s).
Proof.
  unfold try_catch. destruct (val (body s)); simpl; [done|]. by rewrite app_nil_r.
Qed.

(** A property of the state that every round of a loop keeps is kept by the
    loop, however it ends. *)
Lemma forEach_st_inv {A} (I : S → Prop) (l : list A) (body : A → act S P unit) :
  (∀ x s, I s → I (st (body x s))) → ∀ s, I s → I (st (forEach l body s)).
Proof.
  intros Hbody. induction l as [|x l IH]; intros s Hs; [done|].
  cbn. rewrite bind_eq. specialize (Hbody x s Hs).
  destruct (val (body x s)); cbn; auto.
Qed.

(** The same for the frames written: each one satisfies what every round
    guarantees, as long as the rounds keep the state property [I]. *)
Lemma forEach_out_inv {A} (I : S → Prop) (Q : conn * P → Prop) (l : list A)
    (body : A → act S P unit) :
  (∀ x s, I s → I (st (body x s)) ∧ Forall Q (out (body x s))) →
  ∀ s, I s → Forall Q (out (forEach l body s)).
Proof.
  intros Hbody. induction l as [|x l IH]; intros s Hs; [by constructor|].
  cbn. rewrite bind_eq. destruct (Hbody x s Hs) as [HI HQ].
  destruct (val (body x s)); cbn; [|done].
  apply Forall_app. split; [done|]. by apply IH.
Qed.

(** A loop that only writes to one socket. *)
Lemma forEach_send {A} tx ws (f : A → P) (l : list A) s :
  forEach l (λ x, ws_send tx ws (f x)) s =
  Result s ((λ p, (ws, p)) <$> accepted tx ws (f <$> l))
         (if forallb (λ x, sendOk tx ws (f x)) l then Some tt else None).
Proof.
  induction l as [|x l IH]; [done|].
  cbn [forEach]. rewrite bind_ws_send. cbn.
  destruct (sendOk tx ws (f x)); [|done].
  rewrite IH. done.
Qed.

Lemma accepted_all tx ws (l : list P) :
  forallb (sendOk tx ws) l = true → accepted tx ws l = l.
Proof.
  induction l as [|p l IH]; [done|]. cbn.
  destruct (sendOk tx ws p); [|done]. intros H. by rewrite IH.
Qed.

Lemma accepted_prefix tx ws (l : list P) : accepted tx ws l `prefix_of` l.
Proof.
  induction l as [|p l IH]; [done|]. cbn.
  destruct (sendOk tx ws p); [by apply prefix_cons | apply prefix_nil].
Qed.

Lemma accepted_short tx ws (l : list P) :
  forallb (sendOk tx ws) l = false → length (accepted tx ws l) < length l.
Proof.
  induction l as [|p l IH]; [done|]. cbn.
  destruct (sendOk tx ws p); cbn; [|lia]. intros H. specialize (IH H). lia.
Qed.

Lemma accepted_elem tx ws (l : list P) p : p ∈ accepted tx ws l → p ∈ l.
Proof. intros H. eapply elem_of_prefix; [done | apply accepted_prefix]. Qed.

Lemma accepted_take {A} tx ws (f : A → P) (l : list A) :
  accepted tx ws (f <$> l) = f <$> take (length (accepted tx ws (f <$> l))) l.
Proof.
  destruct (accepted_prefix tx ws (f <$> l)) as [k Hk].
  rewrite fmap_take. rewrite Hk at 3. by rewrite take_app_length.
Qed.

(** A loop whose rounds write one frame and then update the state. *)
Lemma forEach_send_modify {A} tx ws (f : A → P) (h : A → S → S) (l : list A) s :
  forEach l (λ x, ws_send tx ws (f x);; modify (h x)) s =
  Result (foldl (λ s x, h x s) s (take (length (accepted tx ws (f <$> l))) l))
         ((λ p, (ws, p)) <$> accepted tx ws (f <$> l))
         (if forallb (λ x, sendOk tx ws (f x)) l then Some tt else None).
Proof.
  revert s. induction l as [|x l IH]; intros s; [done|].
  cbn [forEach]. rewrite bind_eq, bind_ws_send. cbn.
  destruct (sendOk tx ws (f x)); cbn; [|done].
  rewrite IH. done.
Qed.

(** A loop whose rounds only update the state. *)
Lemma forEach_silent {A} (l : list A) (body : A → act S P unit) (h : A → S → S) s :
  (∀ x s, body x s = Result (h x s) [] (Some tt)) →
  forEach l body s = Result (foldl (λ s x, h x s) s l) [] (Some tt).
Proof.
  intros Hbody. revert s. induction l as [|x l IH]; intros s; [done|].
  cbn [forEach]. rewrite bind_eq, Hbody. cbn. by rewrite IH.
Qed.

Lemma foldl_inv {A} (I : S → Prop) (h : A → S → S) (l : list A) s :
  (∀ x s, I s → I (h x s)) → I s → I (foldl (λ s x, h x s) s l).
Proof.
  intros Hh. revert s. induction l as [|x l IH]; intros s Hs; [done|].
  cbn. apply IH. by apply Hh.
Qed.

(** Two loop bodies that agree on the states the loop goes through. *)
Lemma forEach_ext_inv {A} (I : S → Prop) (l : list A) (body1 body2 : A → act S P unit) :
  (∀ x s, I s → body1 x s = body2 x s ∧ I (st (body2 x s))) →
  ∀ s, I s → forEach l body1 s = forEach l body2 s.
Proof.
  intros Hb. induction l as [|x l IH]; intros s Hs; [done|].
  cbn [forEach]. rewrite !bind_eq. destruct (Hb x s Hs) as [-> HI].
  destruct (val (body2 x s)); [|done]. by rewrite IH.
Qed.

(** [try { sock.send(p) } catch (e) { log }] *)
Lemma try_send_eq tx ws (p : P) s :
  try_catch (ws_send tx ws p) (ret tt) s =
  Result s (if sendOk tx ws p then [(ws, p)] else []) (Some tt).
Proof. unfold try_catch, ws_send. by destruct (sendOk tx ws p). Qed.

End EffectFacts.

Lemma forallb_fmap {A B} (f : A → B) (g : B → bool) (l : list A) :
  forallb g (f <$> l) = forallb (λ x, g (f x)) l.
Proof. induction l as [|x l IH]; [done|]. cbn. by rewrite IH. Qed.

Lemma prefix_fmap {A B} (f : A → B) (l1 l2 : list A) :
  l1 `prefix_of` l2 → f <$> l1 `prefix_of` f <$> l2.
Proof. intros [k ->]. rewrite fmap_app. by eexists. Qed.

(** A drain that writes the frames of [l] to one socket until a write
    throws, and the acknowledgment if none did: what is written is a prefix
    of the whole, and the whole when no write throws. *)
Lemma drained_prefix {A P} (tx : transport P) ws (f : A → P) (l : list A) (ack : P) :
  let o := ((λ p, (ws, p)) <$> accepted tx ws (f <$> l)) ++
           (if forallb (λ x, sendOk tx ws (f x)) l && sendOk tx ws ack
            then [(ws, ack)] else []) in
  o `prefix_of` ((λ x, (ws, f x)) <$> l) ++ [(ws, ack)] ∧
  ((∀ p, sendOk tx ws p = true) → o = ((λ x, (ws, f x)) <$> l) ++ [(ws, ack)]).
Proof.
  intros o. subst o. split.
  - destruct (forallb _ l) eqn:Hall; cbn [andb].
    + rewrite accepted_all by (by rewrite forallb_fmap). rewrite <- list_fmap_compose.
      apply prefix_app. destruct (sendOk _ _ _); [done | apply prefix_nil].
    + rewrite app_nil_r. apply prefix_app_r.
      rewrite (list_fmap_compose f (λ p, (ws, p))).
      apply prefix_fmap, accepted_prefix.
  - intros Hok. rewrite accepted_all by (rewrite forallb_forall; auto).
    rewrite <- list_fmap_compose.
    replace (forallb _ l) with true by (symmetry; rewrite forallb_forall; auto).
    by rewrite Hok.
Qed.

Create Rewrite HintDb act.
#[export] Hint Rewrite @bind_gets @bind_modify @bind_ret @bind_throw @st_ws_send
  @st_try_catch_ret @out_try_catch_ret : act.

Ltac act_simpl := repeat (progress (autorewrite with act; cbn [st out val])).

(** ********************************************************************* *)
(** ** The file relay (src/server.js)                                     *)
(** ********************************************************************* *)
Section FileRelayFacts.
Import FileRelay.
Implicit Types (s : server) (tx : transport frame) (m : msg) (ws : conn).

(** *** identify and the queue drain *)

(** [handleIdentify] in closed form. [s1] is the state after its first three
    statements; the queue is cleared only on the path where every queued
    packet was written. *)
(** *** plain states *)

Lemma file_plain_run evs : forallb plain_event evs = true → plain (run evs init).
Proof. intros H. by exists evs. Qed.

Lemma file_plain_step e s : plain s → plain_event e = true → plain (st (step e s)).
Proof.
  intros (evs & Hevs & ->) He. exists (evs ++ [e]). split.
  - rewrite forallb_app. cbn. by rewrite Hevs, He.
  - unfold run. by rewrite foldl_app.
Qed.

Lemma handleIdentify_eq tx ws m s :
  let u := userHash m in
  let q := default [] (messages (db s) !! u) in
  let s1 := set_users (λ us, match us !! u with
                             | Some _ => us
                             | None => <[u := UserKeys None None]> us
                             end)
              (set_connections <[u := ws]> (set_authenticatedUser <[ws := u]> s)) in
  handleIdentify tx ws m s =
  if forallb (λ p, sendOk tx ws (Relayed p)) q
  then Result (if bool_decide (0 < length q) then set_messages <[u := []]> s1 else s1)
              (((λ p, (ws, Relayed p)) <$> q) ++
               (if sendOk tx ws (Identified u) then [(ws, Identified u)] else []))
              (if sendOk tx ws (Identified u) then Some tt else None)
  else Result s1 ((λ f, (ws, f)) <$> accepted tx ws (Relayed <$> q)) None.
Proof.
  intros u q s1. unfold handleIdentify. act_simpl. fold u.
  cbn [db messages set_users set_connections set_authenticatedUser].
  fold q. fold s1.
  case_bool_decide as Hlen.
  - rewrite bind_eq, bind_eq, forEach_send. cbn [st out val].
    destruct (forallb _ q) eqn:Hall; cbn.
    + rewrite accepted_all by (by rewrite forallb_fmap).
      rewrite app_nil_r, <- list_fmap_compose.
      unfold ws_send. by destruct (sendOk tx ws (Identified u)).
    + done.
  - assert (q = []) as -> by (destruct q; [done | cbn in Hlen; lia]).
    act_simpl. cbn. unfold ws_send. by destruct (sendOk tx ws (Identified u)).
Qed.

Lemma on_message_identify tx ws m now s :
  mtype m = identify →
  st (on_message tx ws m now s) = st (handleIdentify tx ws m s) ∧
  out (on_message tx ws m now s) = out (handleIdentify tx ws m s).
Proof.
  intros Hk. unfold on_message, dispatch. act_simpl. by rewrite Hk.
Qed.

Lemma file_identify_ok tx ws m now s q :
  mtype m = identify →
  messages (db s) !! userHash m = Some q →
  forallb (λ p, sendOk tx ws (Relayed p)) q = true →
  (∃ ack, out (on_message tx ws m now s) = ((λ p, (ws, Relayed p)) <$> q) ++ ack) ∧
  messages (db (st (on_message tx ws m now s))) !! userHash m = Some [].
Proof.
  intros Hk Hq Hall.
  destruct (on_message_identify tx ws m now s Hk) as [-> ->].
  rewrite handleIdentify_eq, Hq. simpl (default _ _). rewrite Hall. cbn [st out].
  split; [eauto|].
  case_bool_decide as Hlen; cbn.
  - apply lookup_insert_eq.
  - rewrite Hq. destruct q; [done | cbn in Hlen; lia].
Qed.

Lemma file_identify_fail tx ws m now s q :
  mtype m = identify →
  messages (db s) !! userHash m = Some q →
  forallb (λ p, sendOk tx ws (Relayed p)) q = false →
  (∃ n, n < length q ∧
        out (on_message tx ws m now s) = (λ p, (ws, Relayed p)) <$> take n q) ∧
  messages (db (st (on_message tx ws m now s))) = messages (db s).
Proof.
  intros Hk Hq Hall.
  destruct (on_message_identify tx ws m now s Hk) as [-> ->].
  rewrite handleIdentify_eq, Hq. simpl (default _ _). rewrite Hall. cbn [st out].
  split; [|done].
  exists (length (accepted tx ws (Relayed <$> q))). split.
  - rewrite <- (length_fmap Relayed q). apply accepted_short. by rewrite forallb_fmap.
  - rewrite accepted_take at 1. by rewrite <- list_fmap_compose.
Qed.

(** *** relay *)

Lemma handleRelay_chunk_st tx ws m now s user :
  mtype m = send_file_chunk → st (handleRelay tx ws m user now s) = s.
Proof.
  intros Hk. unfold handleRelay.
  destruct user as [u|]; [|done].
  destruct (truthy u); [|done].
  act_simpl. destruct (vaults (db s) !! vaultId m) as [v|]; [|done].
  apply (forEach_st_inv (λ s', s' = s)); [|done].
  intros r ? ->. rewrite Hk.
  case_bool_decide; [done|]. act_simpl.
  destruct (connections s !! r) as [c|]; [|done].
  destruct (readyOpen tx c); [|done]. by act_simpl.
Qed.

(** Relaying a send-file-chunk message leaves the whole server state as it
    was, whoever is connected and whatever the sockets do. *)
Lemma file_chunk_st tx ws m now s :
  mtype m = send_file_chunk → st (on_message tx ws m now s) = s.
Proof.
  intros Hk. unfold on_message, dispatch. act_simpl. rewrite Hk.
  by apply handleRelay_chunk_st.
Qed.

(** *** what the queues hold *)

Lemma handleIdentify_text tx ws m s :
  text_only s → text_only (st (handleIdentify tx ws m s)).
Proof.
  intros Hs. rewrite handleIdentify_eq. destruct (forallb _ _); [|done].
  cbn [st]. case_bool_decide; [|done].
  unfold text_only. cbn. by apply map_Forall_insert_2.
Qed.

Lemma handleRelay_text tx ws m user now s :
  text_only s → text_only (st (handleRelay tx ws m user now s)).
Proof.
  intros Hs. unfold handleRelay. destruct user as [u|]; [|done]. destruct (truthy u); [|done].
  act_simpl. destruct (vaults (db s) !! vaultId m) as [v|]; [|done].
  apply (forEach_st_inv text_only); [|done].
  clear s Hs. intros r s Hs. case_bool_decide; [done|]. act_simpl.
  assert (mtype m = send_message →
          text_only (set_messages (λ q, <[r := default [] (q !! r) ++ [Packet m u now]]> q) s))
    as Hpush.
  { intros Hk. unfold text_only. cbn. apply map_Forall_insert_2; [|done].
    apply Forall_app. split; [|by repeat constructor].
    destruct (messages (db s) !! r) as [q|] eqn:Hq; [|by constructor].
    by apply (map_Forall_lookup_1 _ _ _ _ Hs Hq). }
  destruct (connections s !! r) as [c|].
  - destruct (readyOpen tx c); [by act_simpl|]. case_bool_decide; [by apply Hpush | done].
  - case_bool_decide; [by apply Hpush | done].
Qed.

(** A relay writes forwarded packets and nothing else: there is no frame
    that acknowledges the send. *)
Lemma file_relay_frames tx ws m now s u :
  mtype m = send_message ∨ mtype m = send_file_chunk →
  authenticatedUser s !! ws = Some u →
  Forall (λ cf, cf.2 = Relayed (Packet m u now)) (out (on_message tx ws m now s)).
Proof.
  intros Hk Hu. unfold on_message. rewrite out_try_catch_ret. unfold dispatch.
  rewrite bind_gets, Hu.
  assert (Forall (λ cf, cf.2 = Relayed (Packet m u now))
                 (out (handleRelay tx ws m (Some u) now s))) as H.
  { unfold handleRelay. destruct (truthy u); [|by constructor].
    rewrite bind_gets. destruct (vaults (db s) !! vaultId m) as [v|]; [|by constructor].
    apply (forEach_out_inv (λ _, True)); [|done].
    intros r s' _. split; [done|].
    case_bool_decide; [by constructor|]. rewrite bind_gets.
    destruct (connections s' !! r) as [c|].
    - destruct (readyOpen tx c).
      + unfold ws_send. destruct (sendOk _ _ _); repeat constructor.
      + case_bool_decide; by constructor.
    - case_bool_decide; by constructor. }
  by destruct Hk as [-> | ->].
Qed.

Lemma file_relay_unknown_vault tx ws m now s :
  mtype m = send_message ∨ mtype m = send_file_chunk →
  vaults (db s) !! vaultId m = None →
  on_message tx ws m now s = Result s [] (Some tt).
Proof.
  intros Hk Hv. unfold on_message, try_catch, dispatch. act_simpl.
  assert (handleRelay tx ws m (authenticatedUser s !! ws) now s = Result s [] (Some tt)) as H.
  { unfold handleRelay. destruct (authenticatedUser s !! ws) as [u|]; [|done].
    destruct (truthy u); [|done]. act_simpl. by rewrite Hv. }
  destruct Hk as [-> | ->]; by rewrite H.
Qed.

(** *** the two-member cap *)

Lemma ensure_vault_present s vId v t :
  vaults (db s) !! vId = Some v →
  set_vaults (λ vs, match vs !! vId with
                    | Some _ => vs
                    | None => <[vId := Vault [] t]> vs
                    end) s = s.
Proof. intros Hv. unfold set_vaults. rewrite Hv. by destruct s as [[? ? ?] ? ?]. Qed.

(** What follows the membership update in [handleJoinVault] only writes
    frames. *)
Lemma join_notify_st tx ws (vId u : string) s :
  st ((v' ← gets (λ s, default (Vault [] public) (vaults (db s) !! vId));
       let others := other_than u (members v') in
       ws_send tx ws (VaultJoined vId others (bool_decide (type v' = private)));;
       forEach others (λ o,
         cs ← gets connections;
         match cs !! o with
         | Some sock =>
           if readyOpen tx sock then ws_send tx sock (MemberJoined vId u) else ret tt
         | None => ret tt
         end)) s) = s.
Proof.
  act_simpl. rewrite bind_ws_send. destruct (sendOk _ _ _); [|done]. cbn [st].
  apply (forEach_st_inv (λ s', s' = s)); [|done].
  intros o ? ->. act_simpl. destruct (connections s !! o) as [c|]; [|done].
  destruct (readyOpen tx c); [|done]. by act_simpl.
Qed.

Lemma handleJoinVault_cap tx ws m user s :
  cap_ok s → cap_ok (st (handleJoinVault tx ws m user s)).
Proof.
  intros Hs. unfold handleJoinVault.
  destruct user as [u|]; [|done]. destruct (truthy u); [|done].
  act_simpl.
  match goal with |- context [set_vaults ?f s] => set (s1 := set_vaults f s) end.
  assert (cap_ok s1) as Hs1.
  { unfold cap_ok, s1. cbn. destruct (vaults (db s) !! vaultId m); [done|].
    apply map_Forall_insert_2; [|done]. cbn. lia. }
  clearbody s1. clear Hs s.
  set (v := default (Vault [] public) (vaults (db s1) !! vaultId m)).
  destruct (negb (includes u (members v))) eqn:Hinc; cbn [andb].
  - destruct (bool_decide (type v = private) && bool_decide (2 ≤ length (members v)))
      eqn:Hfull.
    + by act_simpl.
    + rewrite bind_modify.
      match goal with |- context [set_vaults ?f s1] => set (s2 := set_vaults f s1) end.
      rewrite join_notify_st.
      unfold cap_ok, s2. cbn. apply map_Forall_insert_2; [|done]. cbn.
      intros Hp. rewrite length_app. cbn.
      apply andb_false_iff in Hfull as [Hf|Hf]; apply bool_decide_eq_false in Hf.
      * done.
      * lia.
  - rewrite bind_ret. by rewrite join_notify_st.
Qed.

Lemma handleJoinVault_messages tx ws m user s :
  messages (db (st (handleJoinVault tx ws m user s))) = messages (db s).
Proof.
  unfold handleJoinVault.
  destruct user as [u|]; [|done]. destruct (truthy u); [|done].
  act_simpl.
  match goal with |- context [set_vaults ?f s] => set (s1 := set_vaults f s) end.
  change (messages (db s)) with (messages (db s1)). clearbody s1.
  destruct (negb (includes u _) && _ && _); [by act_simpl|].
  destruct (negb (includes u _)).
  - rewrite bind_modify. by rewrite join_notify_st.
  - rewrite bind_ret. by rewrite join_notify_st.
Qed.

Lemma step_text e s : text_only s → text_only (st (step e s)).
Proof.
  intros Hs. destruct e as [tx ws m now|ws|now]; cbn [step].
  - unfold on_message, dispatch. act_simpl.
    destruct (mtype m).
    + by apply handleIdentify_text.
    + unfold handlePublishKeys. destruct (authenticatedUser s !! ws) as [u|]; [|done].
      destruct (truthy u); [|done]. act_simpl. by destruct (users (db s) !! u).
    + unfold handleFetchKeys. act_simpl. destruct (users (db s) !! targetUser m); by act_simpl.
    + unfold text_only. by rewrite handleJoinVault_messages.
    + by apply handleRelay_text.
    + by apply handleRelay_text.
    + unfold handleLeaveVault. destruct (authenticatedUser s !! ws) as [u|]; [|done].
      destruct (truthy u); [|done]. act_simpl.
      destruct (vaults (db s) !! vaultId m) as [v|]; [|done]. by case_bool_decide.
    + unfold handleNuke. destruct (authenticatedUser s !! ws) as [u|]; [|done].
      destruct (truthy u); [|done]. act_simpl. rewrite bind_ws_send.
      assert (map_Forall (λ _ q, Forall (λ p, mtype (p_msg p) = send_message) q)
                (delete u (messages (db s)))) by by apply map_Forall_delete.
      by destruct (sendOk _ _ _).
    + by act_simpl.
    + done.
  - unfold on_close. act_simpl. by destruct (falsy _).
  - unfold text_only. cbn. apply map_Forall_fmap. eapply map_Forall_impl; [exact Hs|].
    cbn. intros _ q Hq. rewrite Forall_forall in Hq |- *.
    intros p Hp. apply list_elem_of_filter in Hp as [_ Hp]. by apply Hq.
Qed.

Lemma run_text evs s : text_only s → text_only (run evs s).
Proof.
  revert s. induction evs as [|e evs IH]; intros s Hs; [done|].
  cbn. apply IH. by apply step_text.
Qed.

(** A packet that an identify writes was in the queue of the user. *)
Lemma file_identify_frames tx ws m now s c p :
  mtype m = identify →
  (c, Relayed p) ∈ out (on_message tx ws m now s) →
  p ∈ default [] (messages (db s) !! userHash m).
Proof.
  intros Hk. destruct (on_message_identify tx ws m now s Hk) as [_ ->].
  rewrite handleIdentify_eq. destruct (forallb _ _); cbn [out].
  - rewrite elem_of_app. intros [H|H].
    + apply list_elem_of_fmap in H as (p' & Heq & Hp). by simplify_eq.
    + destruct (sendOk _ _ _); [|by apply elem_of_nil in H].
      apply list_elem_of_singleton in H. discriminate.
  - intros H. apply list_elem_of_fmap in H as (f & Heq & Hf). simplify_eq.
    apply accepted_elem in Hf. apply list_elem_of_fmap in Hf as (p' & Heq & Hp).
    by simplify_eq.
Qed.

(** C10: in the file relay only packets made from a send-message are
    durably queued. From a state whose queues hold such packets only (the
    empty start is one), every sequence of events leads to such a state,
    and every packet an identify delivers there was made from a
    send-message. Relaying a send-file-chunk leaves the whole server state
    as it was, whoever is connected and whatever the sockets do: the queue
    of every user is unchanged, and what the server answers to any later
    message (the identify of a member who was away, in particular) is what
    it would have answered had the chunk never been sent. *)
Theorem file_chunk_never_queued :
  (∀ evs s0,
     text_only s0 →
     let s := run evs s0 in
     (∀ u q p, messages (db s) !! u = Some q → p ∈ q → mtype (p_msg p) = send_message) ∧
     (∀ tx ws m now c p,
        mtype m = identify → (c, Relayed p) ∈ out (on_message tx ws m now s) →
        mtype (p_msg p) = send_message))
  ∧
  (∀ tx ws m now s,
     mtype m = send_file_chunk →
     let r := on_message tx ws m now s in
     st r = s ∧
     (∀ u, messages (db (st r)) !! u = messages (db s) !! u) ∧
     (∀ tx' ws' m' now',
        out (on_message tx' ws' m' now' (st r)) = out (on_message tx' ws' m' now' s))).
Proof.
  split.
  - intros evs s0 H0 s.
    assert (text_only s) as Hinv by by apply run_text.
    assert (∀ u q p, messages (db s) !! u = Some q → p ∈ q →
                     mtype (p_msg p) = send_message) as Hqueued.
    { intros u q p Hq Hp. pose proof (map_Forall_lookup_1 _ _ _ _ Hinv Hq) as Hall.
      rewrite Forall_forall in Hall. by apply Hall. }
    split; [done|]. intros tx ws m now c p Hk Hin.
    apply file_identify_frames in Hin; [|done].
    destruct (messages (db s) !! userHash m) as [q|] eqn:Hq; [|by apply elem_of_nil in Hin].
    by apply (Hqueued (userHash m) q).
  - intros tx ws m now s Hk r. subst r. by rewrite file_chunk_st.
Qed.

Lemma handleIdentify_vaults tx ws m s :
  vaults (db (st (handleIdentify tx ws m s))) = vaults (db s).
Proof.
  rewrite handleIdentify_eq. destruct (forallb _ _); [|done].
  cbn [st]. by case_bool_decide.
Qed.

Lemma handleRelay_vaults tx ws m user now s :
  vaults (db (st (handleRelay tx ws m user now s))) = vaults (db s).
Proof.
  unfold handleRelay. destruct user as [u|]; [|done]. destruct (truthy u); [|done].
  act_simpl. destruct (vaults (db s) !! vaultId m) as [v|]; [|done].
  apply (forEach_st_inv (λ s', vaults (db s') = vaults (db s))); [|done].
  intros r s' Hs'. case_bool_decide; [done|]. act_simpl.
  destruct (connections s' !! r) as [c|].
  - destruct (readyOpen tx c); [by act_simpl|]. by case_bool_decide.
  - by case_bool_decide.
Qed.

Lemma handleLeaveVault_cap ws m user s :
  cap_ok s → cap_ok (st (handleLeaveVault ws m user s)).
Proof.
  intros Hs. unfold handleLeaveVault.
  destruct user as [u|]; [|done]. destruct (truthy u); [|done].
  act_simpl. destruct (vaults (db s) !! vaultId m) as [v|] eqn:Hv; [|done].
  case_bool_decide; cbn.
  - by apply map_Forall_delete.
  - apply map_Forall_insert_2; [|done]. cbn. intros Hp.
    pose proof (map_Forall_lookup_1 _ _ _ _ Hs Hv Hp) as Hle.
    unfold other_than. etrans; [apply length_filter|done].
Qed.

Lemma handleNuke_cap tx ws m user s :
  cap_ok s → cap_ok (st (handleNuke tx ws m user s)).
Proof.
  intros Hs. unfold handleNuke.
  destruct user as [u|]; [|done]. destruct (truthy u); [|done].
  act_simpl. rewrite bind_ws_send.
  assert (map_Forall (λ _ v, type v = private → length (members v) ≤ 2)
            ((λ v, Vault (other_than u (members v)) (type v)) <$> vaults (db s))) as H.
  { apply map_Forall_fmap. eapply map_Forall_impl; [exact Hs|].
    cbn. intros _ v Hv Hp. unfold other_than. etrans; [apply length_filter|auto]. }
  destruct (sendOk _ _ _); exact H.
Qed.

Lemma handlePublishKeys_vaults ws m user s :
  vaults (db (st (handlePublishKeys ws m user s))) = vaults (db s).
Proof.
  unfold handlePublishKeys. destruct user as [u|]; [|done]. destruct (truthy u); [|done].
  act_simpl. by destruct (users (db s) !! u).
Qed.

Lemma handleFetchKeys_vaults tx ws m s :
  vaults (db (st (handleFetchKeys tx ws m s))) = vaults (db s).
Proof.
  unfold handleFetchKeys. act_simpl. destruct (users (db s) !! targetUser m); by act_simpl.
Qed.

Lemma step_cap e s : cap_ok s → cap_ok (st (step e s)).
Proof.
  intros Hs. destruct e as [tx ws m now|ws|now]; cbn [step].
  - unfold on_message, dispatch. act_simpl.
    destruct (mtype m).
    + unfold cap_ok. by rewrite handleIdentify_vaults.
    + unfold cap_ok. by rewrite handlePublishKeys_vaults.
    + unfold cap_ok. by rewrite handleFetchKeys_vaults.
    + by apply handleJoinVault_cap.
    + unfold cap_ok. by rewrite handleRelay_vaults.
    + unfold cap_ok. by rewrite handleRelay_vaults.
    + by apply handleLeaveVault_cap.
    + by apply handleNuke_cap.
    + by act_simpl.
    + done.
  - unfold on_close. act_simpl. by destruct (falsy _).
  - done.
Qed.

Lemma run_cap evs s : cap_ok s → cap_ok (run evs s).
Proof.
  revert s. induction evs as [|e evs IH]; intros s Hs; [done|].
  cbn. apply IH. by apply step_cap.
Qed.

(** A join by a user who is not a member of a private vault that has two
    members or more. *)
Lemma join_full_vault tx ws m now s u v :
  mtype m = join_vault →
  authenticatedUser s !! ws = Some u → truthy u = true →
  vaults (db s) !! vaultId m = Some v →
  type v = private → 2 ≤ length (members v) → u ∉ members v →
  on_message tx ws m now s =
  Result s (if sendOk tx ws (ErrorFrame "Private vault full")
            then [(ws, ErrorFrame "Private vault full")] else [])
         (Some tt).
Proof.
  intros Hk Hu Ht Hv Hp Hlen Hnin.
  unfold on_message, try_catch, dispatch. act_simpl. rewrite Hk, Hu.
  unfold handleJoinVault. rewrite Ht. act_simpl.
  rewrite (ensure_vault_present s (vaultId m) v) by done.
  rewrite Hv. cbn [default from_option id].
  unfold includes. rewrite (bool_decide_eq_false_2 _ Hnin).
  rewrite (bool_decide_eq_true_2 _ Hp), (bool_decide_eq_true_2 _ Hlen). cbn [negb andb].
  unfold ws_send. by destruct (sendOk _ _ _).
Qed.

(** *** nuke *)

Lemma handleNuke_db tx ws m u s :
  truthy u = true →
  db (st (handleNuke tx ws m (Some u) s)) =
  Database (delete u (users (db s))) (delete u (messages (db s)))
           ((λ v, Vault (other_than u (members v)) (type v)) <$> vaults (db s)).
Proof.
  intros Ht. unfold handleNuke. rewrite Ht. act_simpl. rewrite bind_ws_send.
  by destruct (sendOk _ _ _).
Qed.

Lemma file_nuke_db tx ws m now s u :
  mtype m = nuke →
  authenticatedUser s !! ws = Some u → truthy u = true →
  db (st (on_message tx ws m now s)) =
  Database (delete u (users (db s))) (delete u (messages (db s)))
           ((λ v, Vault (other_than u (members v)) (type v)) <$> vaults (db s)).
Proof.
  intros Hk Hu Ht. unfold on_message, dispatch. act_simpl. rewrite Hk, Hu.
  by apply handleNuke_db.
Qed.

(** An identify of a user without a queue is answered with the [identified]
    frame alone. *)
Lemma file_identify_no_queue tx ws m now s :
  mtype m = identify → messages (db s) !! userHash m = None →
  out (on_message tx ws m now s) =
  if sendOk tx ws (Identified (userHash m)) then [(ws, Identified (userHash m))] else [].
Proof.
  intros Hk Hq. destruct (on_message_identify tx ws m now s Hk) as [_ ->].
  rewrite handleIdentify_eq, Hq. cbn. by destruct (sendOk _ _ _).
Qed.

Lemma other_than_excludes u l : u ∉ other_than u l.
Proof. unfold other_than. rewrite list_elem_of_filter. tauto. Qed.

(** *** the connection registry *)

(** C9 (what the code does): user [u] is registered on socket [ws_old] and
    identifies on another socket [ws_new]. The registry then maps [u] to
    [ws_new]; when [ws_old] closes afterwards, its close handler deletes the
    entry of [u], so the registry no longer knows the new socket. *)
Theorem file_stale_close tx ws_new ws_old m now s :
  mtype m = identify → truthy (userHash m) = true →
  authenticatedUser s !! ws_old = Some (userHash m) → ws_old ≠ ws_new →
  let s1 := st (on_message tx ws_new m now s) in
  connections s1 !! userHash m = Some ws_new ∧
  connections (st (on_close ws_old s1)) !! userHash m = None.
Proof.
  intros Hk Ht Hold Hne s1.
  assert (connections s1 = <[userHash m := ws_new]> (connections s) ∧
          authenticatedUser s1 = <[ws_new := userHash m]> (authenticatedUser s)) as [Hc Ha].
  { subst s1. destruct (on_message_identify tx ws_new m now s Hk) as [-> _].
    rewrite handleIdentify_eq. destruct (forallb _ _); [|done].
    cbn [st]. by case_bool_decide. }
  split.
  - rewrite Hc. apply lookup_insert_eq.
  - unfold on_close. act_simpl. rewrite Ha, lookup_insert_ne, Hold by done.
    cbn [falsy]. rewrite Ht. cbn. apply lookup_delete_eq.
Qed.

End FileRelayFacts.

(** ********************************************************************* *)
(** ** The better-sqlite3 relay (src/unnamed/part_000)                    *)
(** ********************************************************************* *)
Section SqlRelayFacts.
Import SqlRelay.
Implicit Types (s : server) (tx : transport frame) (m : msg) (ws : conn).

(** *** the drain query *)

Lemma undelivered_sorted u s : StronglySorted ts_le (getUndeliveredMessagesForUser u s).
Proof. apply StronglySorted_merge_sort; apply _. Qed.

Lemma undelivered_perm u s : getUndeliveredMessagesForUser u s ≡ₚ join_rows u s.
Proof. apply merge_sort_Permutation. Qed.

(** A row the drain query returns is a stored row that is not marked
    delivered, in a vault the user is a member of. *)
Lemma undelivered_elem u s r :
  r ∈ getUndeliveredMessagesForUser u s →
  r ∈ messages s ∧ delivered r = false ∧
  ∃ v, v ∈ vault_members s ∧ vault_id v = m_vault_id r ∧ user_id v = u.
Proof.
  rewrite undelivered_perm. unfold join_rows.
  rewrite list_elem_of_bind. intros (r' & Hin & Hr').
  apply list_elem_of_bind in Hin as (v & Hin & Hv).
  destruct (bool_decide (m_vault_id r' = vault_id v)) eqn:H1; [|by apply elem_of_nil in Hin].
  destruct (bool_decide (user_id v = u)) eqn:H2; [|by apply elem_of_nil in Hin].
  destruct (delivered r') eqn:H3; [by apply elem_of_nil in Hin|].
  cbn in Hin. apply list_elem_of_singleton in Hin as ->.
  apply bool_decide_eq_true in H1, H2. eauto 10.
Qed.

(** The frames an identify writes. *)
Lemma sql_on_identify_out tx ws m now s :
  let u := userHash m in
  let rows := getUndeliveredMessagesForUser u s in
  let sent := accepted tx ws (message_frame <$> rows) in
  let all := forallb (λ r, sendOk tx ws (message_frame r)) rows in
  out (on_identify tx ws m now s) =
    ((λ p, (ws, p)) <$> sent) ++
    (if all && sendOk tx ws (IdentifyAck u) then [(ws, IdentifyAck u)] else []).
Proof.
  intros u rows sent all. unfold on_identify, addUserIfNotExists, updateUserLastSeen.
  act_simpl. fold u.
  match goal with |- context [getUndeliveredMessagesForUser u ?x] =>
    change (getUndeliveredMessagesForUser u x) with rows end.
  unfold markMessageDelivered.
  rewrite bind_eq, forEach_send_modify. cbn [st out val]. fold sent all.
  destruct all; cbn; [|by rewrite app_nil_r].
  unfold ws_send. by destruct (sendOk _ _ _).
Qed.

Lemma identify_frames tx ws m now s c f :
  (c, f) ∈ out (on_identify tx ws m now s) →
  f = IdentifyAck (userHash m) ∨
  ∃ r, f = message_frame r ∧ r ∈ messages s ∧ delivered r = false.
Proof.
  rewrite sql_on_identify_out. rewrite elem_of_app. intros [H|H].
  - right. apply list_elem_of_fmap in H as (p & [= -> ->] & Hp).
    apply accepted_elem in Hp. apply list_elem_of_fmap in Hp as (r & -> & Hr).
    apply undelivered_elem in Hr as (? & ? & _). eauto.
  - left. destruct (_ && _); [|by apply elem_of_nil in H].
    apply list_elem_of_singleton in H. congruence.
Qed.

(** The drain on identify works on the undelivered rows of the user's vaults
    sorted by ascending [ts]: the list is sorted and is a permutation of the
    rows the join selects, the frames written are a prefix of that list
    followed by the identify-ack, and all of it when no write throws. *)
Lemma sql_drain_sorted tx ws m now uuid s :
  mtype m = identify →
  let u := userHash m in
  let rows := getUndeliveredMessagesForUser u s in
  let r := on_message tx ws m now uuid s in
  StronglySorted ts_le rows ∧ rows ≡ₚ join_rows u s ∧
  out r `prefix_of` ((λ row, (ws, message_frame row)) <$> rows) ++ [(ws, IdentifyAck u)] ∧
  ((∀ p, sendOk tx ws p = true) →
   out r = ((λ row, (ws, message_frame row)) <$> rows) ++ [(ws, IdentifyAck u)]).
Proof.
  intros Hk u rows r. split; [apply undelivered_sorted|]. split; [apply undelivered_perm|].
  subst r. unfold on_message. rewrite Hk, sql_on_identify_out. fold u rows.
  apply drained_prefix.
Qed.

(** *** one [delivered] flag for all recipients *)

Lemma mark_idemp mid rows : mark mid (mark mid rows) = mark mid rows.
Proof.
  unfold mark. rewrite <- list_fmap_compose. apply list_fmap_ext.
  intros _ r _. cbn. destruct (bool_decide (id r = mid)) eqn:H; cbn.
  - apply bool_decide_eq_true in H. by rewrite bool_decide_eq_true_2.
  - by rewrite H.
Qed.

Lemma mark_delivered mid rows r : r ∈ mark mid rows → id r = mid → delivered r = true.
Proof.
  unfold mark. rewrite list_elem_of_fmap. intros (r0 & -> & _).
  case_bool_decide; [done|]. intros; congruence.
Qed.

Lemma queueMessage_fresh uuid vId sender blob t s :
  ¬ Exists (λ r, id r = uuid) (messages s) →
  queueMessage uuid vId sender blob t s =
  Result (set_messages (λ rows, rows ++ [MessageRow uuid vId sender t blob false]) s)
         [] (Some uuid).
Proof.
  intros Hfresh. unfold queueMessage. rewrite bind_gets.
  rewrite (bool_decide_eq_false_2 _ Hfresh). by rewrite bind_modify.
Qed.

Lemma deliver_to_step tx uuid sender vId blob t y s :
  (∀ c p, sendOk tx c p = true) →
  (deliver_to tx uuid sender vId blob t y s = Result s [] (Some tt) ∧
   (y = sender ∨ connections s !! y = None ∨
    ∃ w, connections s !! y = Some w ∧ readyOpen tx w = false))
  ∨
  (∃ w, y ≠ sender ∧ connections s !! y = Some w ∧ readyOpen tx w = true ∧
        deliver_to tx uuid sender vId blob t y s =
        Result (set_messages (mark uuid) s)
               [(w, MessageFrame vId blob sender uuid t)] (Some tt)).
Proof.
  intros Hok. unfold deliver_to. case_bool_decide as Hy; [by left; auto|].
  rewrite bind_gets. destruct (connections s !! y) as [w|] eqn:Hw; [|by left; auto].
  destruct (readyOpen tx w) eqn:Hopen; [|left; split; [done|]; right; right; eauto].
  right. exists w. split_and!; auto.
  unfold markMessageDelivered. by rewrite bind_ws_send, Hok.
Qed.

(** The loop of [deliverMessageToVaultMembers] on sockets that do not throw:
    it touches nothing but the [delivered] column of the rows with the new
    id, and a single live recipient is enough to set it. *)
Lemma deliver_loop tx uuid sender vId blob t (l : list string) :
  (∀ c p, sendOk tx c p = true) →
  ∀ s,
  let r := forEach l (deliver_to tx uuid sender vId blob t) s in
  val r = Some tt ∧ connections (st r) = connections s ∧
  vault_members (st r) = vault_members s ∧
  (messages (st r) = messages s ∨ messages (st r) = mark uuid (messages s)) ∧
  (∀ x c, x ∈ l → x ≠ sender → connections s !! x = Some c → readyOpen tx c = true →
     messages (st r) = mark uuid (messages s) ∧
     (c, MessageFrame vId blob sender uuid t) ∈ out r).
Proof.
  intros Hok. induction l as [|y l IH]; intros s.
  { cbn. split_and!; auto. intros x c Hx. by apply elem_of_nil in Hx. }
  cbn [forEach]. cbv zeta. rewrite bind_eq.
  destruct (deliver_to_step tx uuid sender vId blob t y s Hok)
    as [[-> Hskip] | (w & Hy & Hw & Hopen & ->)]; cbn [st out val].
  - destruct (IH s) as (Hv & Hc & Hm & Hms & Hlive).
    split_and!; auto. intros x c Hx Hne Hcx Hox.
    apply elem_of_cons in Hx as [->|Hx]; [|by apply (Hlive x c)].
    destruct Hskip as [?|[?|(w & ? & ?)]]; congruence.
  - set (s' := set_messages (mark uuid) s).
    destruct (IH s') as (Hv & Hc & Hm & Hms & Hlive).
    assert (messages (st (forEach l (deliver_to tx uuid sender vId blob t) s'))
            = mark uuid (messages s)) as Hmarked.
    { destruct Hms as [-> | ->]; [done|]. apply mark_idemp. }
    split_and!; auto.
    intros x c Hx Hne Hcx Hox. split; [done|].
    apply elem_of_cons in Hx as [->|Hx].
    + rewrite Hw in Hcx. injection Hcx as <-. apply elem_of_cons. by left.
    + apply elem_of_cons. right. by apply (Hlive x c).
Qed.

(** C2 (what the code does): in the better-sqlite3 relay a send with a
    fresh id that is forwarded live to one member [x] sets the [delivered]
    column of the stored row, the only one there is. No identify handled in
    the state reached, by whatever user on whatever socket, writes a frame
    with that message id: a member who was offline at send time does not
    get the envelope. *)
Theorem sql_live_forward_hides_message tx ws m now uuid s x c :
  mtype m = send →
  ¬ Exists (λ r, id r = uuid) (messages s) →
  (∀ c p, sendOk tx c p = true) →
  x ∈ getVaultMembers (vaultId m) s → x ≠ from m →
  connections s !! x = Some c → readyOpen tx c = true →
  let r := on_message tx ws m now uuid s in
  (c, MessageFrame (vaultId m) (blob m) (from m) uuid (msg_ts m)) ∈ out r ∧
  (∀ row, row ∈ messages (st r) → id row = uuid → delivered row = true) ∧
  (∀ tx' ws' m' now' uuid' c' v b f t,
     mtype m' = identify →
     (c', MessageFrame v b f uuid t) ∉ out (on_message tx' ws' m' now' uuid' (st r))).
Proof.
  intros Hk Hfresh Hok Hx Hne Hc Hopen r.
  assert ((c, MessageFrame (vaultId m) (blob m) (from m) uuid (msg_ts m)) ∈ out r ∧
          ∀ row, row ∈ messages (st r) → id row = uuid → delivered row = true)
    as [Hout Hrows].
  { subst r. unfold on_message. rewrite Hk. unfold on_send, deliverMessageToVaultMembers.
    rewrite bind_eq, bind_gets, (bind_eq (queueMessage _ _ _ _ _)).
    rewrite queueMessage_fresh by done. cbn [st out val].
    set (s0 := set_messages _ s).
    destruct (deliver_loop tx uuid (from m) (vaultId m) (blob m) (msg_ts m)
                (getVaultMembers (vaultId m) s) Hok s0) as (Hv & _ & _ & _ & Hlive).
    destruct (Hlive x c Hx Hne Hc Hopen) as [Hm Hin].
    cbn [st out val]. rewrite Hv. cbn [st out val]. rewrite st_ws_send. split.
    - apply elem_of_app. by left.
    - rewrite Hm. intros row. apply mark_delivered. }
  split; [done|]. split; [done|].
  intros tx' ws' m' now' uuid' c' v b f t Hk' Hin.
  unfold on_message in Hin. rewrite Hk' in Hin.
  apply identify_frames in Hin as [Hin | (row & Heq & Hrow & Hd)]; [done|].
  unfold message_frame in Heq. injection Heq as _ _ _ Hid _.
  rewrite (Hrows row Hrow) in Hd; [done|]. done.
Qed.

(** *** join-vault *)

(** C5 (what the code does): in the better-sqlite3 relay a join-vault that
    declares the vault private is refused whenever the vault has two member
    rows or more, also when the joining user already has one of them: the
    member is answered with the error frame. The membership rows stay as
    they were. *)
Theorem sql_rejoin_at_cap_refused tx ws m now uuid s :
  mtype m = join_vault → isPrivate m = true →
  Exists (λ r, vault_id r = vaultId m ∧ user_id r = userHash m) (vault_members s) →
  2 ≤ getVaultMemberCount (vaultId m) s →
  let r := on_message tx ws m now uuid s in
  out r = (if sendOk tx ws (ErrorFrame "Private vault already has 2 members.")
           then [(ws, ErrorFrame "Private vault already has 2 members.")] else []) ∧
  vault_members (st r) = vault_members s.
Proof.
  intros Hk Hp Hmem Hcount r. subst r. unfold on_message. rewrite Hk.
  unfold on_join_vault, addVaultIfNotExists. rewrite Hp.
  rewrite bind_modify, bind_eq.
  rewrite (bool_decide_eq_true_2 (private = private)) by done.
  rewrite bind_gets. cbn [ret st out val].
  unfold getVaultMemberCount in *. cbn [vault_members set_vaults].
  rewrite (bool_decide_eq_true_2 _ Hcount). cbn [app].
  unfold ws_send. by destruct (sendOk _ _ _).
Qed.

(** *** nuke *)

(** The nuke handler deletes the membership rows of the user and ends in
    the exception of the second [prepare]: nothing is written to a socket
    and [messages] is as it was. *)
Lemma sql_nuke_eq tx ws m now uuid s :
  mtype m = nuke →
  on_message tx ws m now uuid s =
  Result (set_vault_members (filter (λ r, user_id r ≠ userHash m)) s) [] None.
Proof. intros Hk. unfold on_message. rewrite Hk. unfold on_nuke. by rewrite bind_modify. Qed.

(** After a nuke for [u] no membership row names [u], and an identify of
    [u] that comes next is answered with the identify-ack alone. *)
Lemma sql_nuke_then_identify tx ws m now uuid s :
  mtype m = nuke →
  let u := userHash m in
  let s' := st (on_message tx ws m now uuid s) in
  (∀ v, v ∈ vault_members s' → user_id v ≠ u) ∧
  (∀ tx' ws' m' now' uuid',
     mtype m' = identify → userHash m' = u →
     out (on_message tx' ws' m' now' uuid' s') =
     if sendOk tx' ws' (IdentifyAck u) then [(ws', IdentifyAck u)] else []).
Proof.
  intros Hk u s'.
  assert (vault_members s' = filter (λ r, user_id r ≠ u) (vault_members s)) as Hvm.
  { subst s'. by rewrite sql_nuke_eq. }
  assert (∀ v, v ∈ vault_members s' → user_id v ≠ u) as Hnone.
  { intros v. rewrite Hvm, list_elem_of_filter. tauto. }
  split; [done|].
  intros tx' ws' m' now' uuid' Hk' Hu'. unfold on_message. rewrite Hk'.
  rewrite sql_on_identify_out, Hu'.
  assert (getUndeliveredMessagesForUser u s' = []) as ->.
  { apply elem_of_nil_inv. intros r Hr.
    apply undelivered_elem in Hr as (_ & _ & v & Hv & _ & Hvu). by apply (Hnone v). }
  cbn. by destruct (sendOk _ _ _).
Qed.

(** *** send *)

(** A send to a vault without member rows stores the row and is answered
    with the send-ack every send gets. *)
Lemma sql_send_without_members tx ws m now uuid s :
  mtype m = send →
  ¬ Exists (λ r, id r = uuid) (messages s) →
  getVaultMembers (vaultId m) s = [] →
  let r := on_message tx ws m now uuid s in
  messages (st r)
    = messages s ++ [MessageRow uuid (vaultId m) (from m) (msg_ts m) (blob m) false] ∧
  out r = if sendOk tx ws SendAck then [(ws, SendAck)] else [].
Proof.
  intros Hk Hfresh Hnone r. subst r. unfold on_message. rewrite Hk.
  unfold on_send, deliverMessageToVaultMembers.
  rewrite bind_eq, bind_gets, (bind_eq (queueMessage _ _ _ _ _)).
  rewrite queueMessage_fresh by done. cbn [st out val].
  rewrite Hnone. cbn [forEach ret st out val].
  rewrite st_ws_send. split; [done|]. unfold ws_send. by destruct (sendOk _ _ _).
Qed.

(** The last frame of a send is the send-ack, a frame without fields. *)
Lemma sql_send_ack_is_bare tx ws m now uuid s :
  mtype m = send →
  ¬ Exists (λ r, id r = uuid) (messages s) →
  (∀ c p, sendOk tx c p = true) →
  ∃ fwd, out (on_message tx ws m now uuid s) = fwd ++ [(ws, SendAck)].
Proof.
  intros Hk Hfresh Hok. unfold on_message. rewrite Hk.
  unfold on_send, deliverMessageToVaultMembers.
  rewrite bind_eq, bind_gets, (bind_eq (queueMessage _ _ _ _ _)).
  rewrite queueMessage_fresh by done. cbn [st out val].
  set (s0 := set_messages _ s).
  destruct (deliver_loop tx uuid (from m) (vaultId m) (blob m) (msg_ts m)
              (getVaultMembers (vaultId m) s) Hok s0) as (Hv & _).
  cbn [st out val]. rewrite Hv. cbn [st out val]. unfold ws_send. rewrite Hok. cbn.
  eauto.
Qed.

End SqlRelayFacts.

(** ********************************************************************* *)
(** ** The sqlite3 relay (src/unnamed/part_001, first program)            *)
(** ********************************************************************* *)
Section AsyncSqlRelayFacts.
Import AsyncSqlRelay.
Implicit Types (s : server) (tx : transport frame) (m : msg) (ws : conn).

Lemma st_sendToUser tx u p s : st (sendToUser tx u p s) = s.
Proof.
  unfold sendToUser. rewrite bind_gets. destruct (u ≫= _) as [sock|]; [|done].
  destruct (readyOpen tx sock); [|done]. rewrite bind_ws_send. by destruct (sendOk _ _ _).
Qed.

(** Every join-vault of an identified user appends a membership row, whether
    or not the same row is there already. *)
Lemma async_join_appends_row tx ws m now uuid s u :
  mtype m = join_vault → userId s !! ws = Some u → truthy u = true →
  vaultMembers (st (on_message tx ws m now uuid s)) =
  vaultMembers s ++ [MemberRow (vaultId m) u].
Proof.
  intros Hk Hu Ht. unfold on_message. rewrite bind_gets, Hk, Hu.
  unfold on_join_vault. cbn [falsy]. rewrite Ht. cbn [negb default from_option id].
  unfold addToLiveVault, insertVaultMember. rewrite !bind_modify.
  rewrite bind_eq. rewrite st_sendToUser.
  by destruct (val _).
Qed.

(** Nuke deletes the stored messages the user sent and nothing else. *)
Lemma async_nuke_eq tx ws m now uuid s u :
  mtype m = nuke → userId s !! ws = Some u → truthy u = true →
  on_message tx ws m now uuid s =
  Result (set_messages (filter (λ r, fromUser r ≠ u)) s) [] (Some tt).
Proof.
  intros Hk Hu Ht. unfold on_message. rewrite bind_gets, Hk, Hu.
  unfold on_nuke. cbn [falsy]. by rewrite Ht.
Qed.

Lemma stored_for_sorted vs s : StronglySorted timestamp_le (stored_for vs s).
Proof. apply StronglySorted_merge_sort; apply _. Qed.

Lemma sendToUser_open tx u w p s :
  clients s !! u = Some w → readyOpen tx w = true →
  (sendToUser tx (Some u) p;; ret tt) s = ws_send tx w p s.
Proof.
  intros Hc Ho. unfold sendToUser. rewrite bind_eq, bind_gets. cbn [mbind option_bind].
  rewrite Hc, Ho. rewrite bind_ws_send. unfold ws_send.
  by destruct (sendOk _ _ _).
Qed.

Lemma async_on_identify_out tx ws m s :
  readyOpen tx ws = true →
  let u := userHash m in
  let rows := stored_for (msg_vaults m) s in
  let all := forallb (λ r, sendOk tx ws (row_frame r)) rows in
  out (on_identify tx ws m s) =
    ((λ p, (ws, p)) <$> accepted tx ws (row_frame <$> rows)) ++
    (if all && sendOk tx ws IdentifyAck then [(ws, IdentifyAck)] else []).
Proof.
  intros Hopen u rows all. unfold on_identify. fold u. rewrite !bind_modify.
  match goal with |- context [set_clients ?f (set_userId ?g s)] =>
    set (s1 := set_clients f (set_userId g s)) end.
  rewrite bind_eq.
  rewrite (forEach_silent (msg_vaults m) _ (λ v s,
     set_vaultMembers (λ rows, rows ++ [MemberRow v u])
       (set_liveVaultMap (λ lv, <[v := set_add u (default [] (lv !! v))]> lv) s))).
  2:{ intros v s'. unfold addToLiveVault, insertVaultMember. by rewrite bind_modify. }
  cbn [st out val].
  set (s2 := foldl _ s1 (msg_vaults m)).
  assert (messages s2 = messages s ∧ clients s2 !! u = Some ws) as [Hm Hc].
  { subst s2. split.
    - by apply (foldl_inv (λ s', messages s' = messages s)).
    - apply (foldl_inv (λ s', clients s' !! u = Some ws)); [done|]. apply lookup_insert_eq. }
  unfold deliverOfflineMessages.
  rewrite bind_eq, bind_gets.
  replace (stored_for (msg_vaults m) s2) with rows by (unfold rows, stored_for; by rewrite Hm).
  rewrite (forEach_ext_inv (λ s', s' = s2) rows _ (λ row, ws_send tx ws (row_frame row))).
  2:{ intros row ? ->. split; [by apply sendToUser_open | apply st_ws_send]. }
  2:{ done. }
  rewrite forEach_send. cbn [st out val]. fold all.
  destruct all; cbn [st out val andb]; [|by rewrite app_nil_r].
  rewrite bind_eq. unfold sendToUser. rewrite bind_gets. cbn [mbind option_bind].
  rewrite Hc, Hopen. rewrite bind_ws_send. destruct (sendOk _ _ _); cbn; done.
Qed.

(** On an open socket the drain on identify works on the stored messages of
    the declared vaults sorted by ascending stored timestamp. *)
Lemma async_drain_sorted tx ws m now uuid s :
  mtype m = identify → readyOpen tx ws = true →
  let rows := stored_for (msg_vaults m) s in
  let r := on_message tx ws m now uuid s in
  StronglySorted timestamp_le rows ∧
  out r `prefix_of` ((λ row, (ws, row_frame row)) <$> rows) ++ [(ws, IdentifyAck)] ∧
  ((∀ p, sendOk tx ws p = true) →
   out r = ((λ row, (ws, row_frame row)) <$> rows) ++ [(ws, IdentifyAck)]).
Proof.
  intros Hk Hopen rows r. split; [apply stored_for_sorted|].
  subst r. unfold on_message. rewrite bind_gets, Hk.
  rewrite async_on_identify_out by done. fold rows.
  apply drained_prefix.
Qed.

End AsyncSqlRelayFacts.

(** ********************************************************************* *)
(** ** The in-memory relay (src/unnamed/part_001, second program)         *)
(** ********************************************************************* *)
Section MemRelayFacts.
Import MemRelay.
Implicit Types (s : server) (tx : transport frame) (m : msg) (ws : conn).

(** The frames an identify writes are the queue of the user in the order it
    was filled, up to the first write that throws; the queue is gone
    afterwards in every case. *)
Lemma mem_on_identify_out tx ws m s :
  let u := userHash m in
  let q := default [] (messageQueue s !! u) in
  let all := forallb (λ d, sendOk tx ws (MessageFrame d)) q in
  out (on_identify tx ws m s) =
    ((λ p, (ws, p)) <$> accepted tx ws (MessageFrame <$> q)) ++
    (if all && sendOk tx ws (IdentifyAck u) then [(ws, IdentifyAck u)] else []) ∧
  messageQueue (st (on_identify tx ws m s)) !! u = None.
Proof.
  intros u q all. unfold on_identify. fold u. rewrite !bind_modify.
  match goal with |- context [set_connections ?f (set_sessions ?g s)] =>
    set (s1 := set_connections f (set_sessions g s)) end.
  set (reg := match msg_vaults m with Some vs => _ | None => _ end).
  assert (∃ s2, reg s1 = Result s2 [] (Some tt) ∧ messageQueue s2 = messageQueue s)
    as (s2 & Hreg & Hq).
  { subst reg. destruct (msg_vaults m) as [vs|]; [|by exists s1].
    eexists. split.
    - apply (forEach_silent vs _ (λ vId s,
        set_vaultMembers (λ vm, <[vId := set_add u (default [] (vm !! vId))]> vm)
          (set_sessions (λ ss, <[ws := Session (Some u)
             (set_add vId (userVaults (default (Session None []) (ss !! ws))))]> ss) s))).
      intros vId s'. by rewrite bind_modify.
    - by apply (foldl_inv (λ s', messageQueue s' = messageQueue s)). }
  rewrite bind_eq, Hreg. cbn [st out val]. unfold getAndClearQueue.
  rewrite bind_eq, bind_gets, bind_modify. cbn [st out val ret]. rewrite Hq. fold q.
  rewrite bind_eq, forEach_send. cbn [st out val]. fold all.
  destruct all; cbn.
  - rewrite st_ws_send. split; [|apply lookup_delete_eq].
    unfold ws_send. by destruct (sendOk _ _ _).
  - split; [by rewrite app_nil_r | apply lookup_delete_eq].
Qed.

Lemma live_forwards_ext tx s s' me d l :
  connections s' = connections s → live_forwards tx s' me d l = live_forwards tx s me d l.
Proof. intros H. unfold live_forwards. by rewrite H. Qed.

Lemma relay_eq tx me d members :
  (∀ c p, sendOk tx c p = true) →
  ∀ delivered s,
  let r := relay tx me d members delivered s in
  val r = Some (delivered || bool_decide (0 < length (live_forwards tx s me d members))) ∧
  out r = live_forwards tx s me d members ∧
  connections (st r) = connections s.
Proof.
  intros Hok. induction members as [|y l IH]; intros delivered s.
  { cbn. by rewrite orb_false_r. }
  cbn [relay]. unfold live_forwards. cbn [omap list_omap]. fold (live_forwards tx s me d l).
  case_bool_decide as Hy; [apply IH|].
  rewrite bind_gets. destruct (connections s !! y) as [w|] eqn:Hw.
  - destruct (readyOpen tx w) eqn:Hopen.
    + rewrite bind_ws_send, Hok. cbn [st out val length].
      destruct (IH true s) as (Hv & Ho & Hc). rewrite Hv, Ho.
      split_and!; try done. cbn [orb]. f_equal. symmetry.
      rewrite orb_true_iff. right. apply bool_decide_eq_true. lia.
    + unfold addToQueue. rewrite bind_modify.
      match goal with |- context [relay tx me d l delivered ?x] => set (s' := x) end.
      destruct (IH delivered s') as (Hv & Ho & Hc).
      rewrite (live_forwards_ext tx s s') in * by done. done.
  - unfold addToQueue. rewrite bind_modify.
    match goal with |- context [relay tx me d l delivered ?x] => set (s' := x) end.
    destruct (IH delivered s') as (Hv & Ho & Hc).
    rewrite (live_forwards_ext tx s s') in * by done. done.
Qed.

(** Every join-vault of an identified user puts the user in the member set
    of the vault and is answered with join-ack. *)
Lemma mem_join_accepts_everyone tx ws m now msgId s u :
  mtype m = join_vault →
  currentUserId (session_of ws s) = Some u → truthy u = true →
  let r := on_message tx ws m now msgId s in
  vaultMembers (st r) !! vaultId m
    = Some (set_add u (default [] (vaultMembers s !! vaultId m))) ∧
  out r = if sendOk tx ws (JoinAck (vaultId m)) then [(ws, JoinAck (vaultId m))] else [].
Proof.
  intros Hk Hu Ht r. subst r. unfold on_message. rewrite Hk. unfold on_join_vault.
  rewrite bind_gets, Hu. cbn [falsy]. rewrite Ht. cbn [negb default from_option id].
  unfold addVaultMember. rewrite !bind_modify. unfold ws_send.
  destruct (sendOk _ _ _); cbn; (split; [apply lookup_insert_eq | done]).
Qed.

(** The drain on identify: the queue is gone afterwards whatever the writes
    did, and what was written is a prefix of the queue, in the order it was
    filled, followed by the identify-ack. *)
Lemma mem_identify_drain tx ws m now msgId s :
  mtype m = identify →
  let u := userHash m in
  let q := default [] (messageQueue s !! u) in
  let r := on_message tx ws m now msgId s in
  messageQueue (st r) !! u = None ∧
  out r `prefix_of` ((λ d, (ws, MessageFrame d)) <$> q) ++ [(ws, IdentifyAck u)] ∧
  ((∀ p, sendOk tx ws p = true) →
   out r = ((λ d, (ws, MessageFrame d)) <$> q) ++ [(ws, IdentifyAck u)]).
Proof.
  intros Hk u q r. subst r. unfold on_message. rewrite Hk.
  destruct (mem_on_identify_out tx ws m s) as [Hout Hq]. fold u q in Hout, Hq.
  split; [done|]. rewrite Hout. apply drained_prefix.
Qed.

(** [addToQueue] puts the envelope at the end of the queue. *)
Lemma addToQueue_appends u d s :
  messageQueue (st (addToQueue u d s)) !! u
  = Some (default [] (messageQueue s !! u) ++ [d]).
Proof. unfold addToQueue. cbn. apply lookup_insert_eq. Qed.

End MemRelayFacts.

(** ********************************************************************* *)
(** ** The express relay (src/unnamed/part_002)                           *)
(** ********************************************************************* *)
Section ExpressRelayFacts.
Import ExpressRelay.
Implicit Types (s : server) (tx : transport frame) (m : msg) (ws : conn).

Lemma express_plain_run evs : forallb plain_event evs = true → plain (run evs init).
Proof. intros H. by exists evs. Qed.

Lemma express_plain_step e s : plain s → plain_event e = true → plain (st (step e s)).
Proof.
  intros (evs & Hevs & ->) He. exists (evs ++ [e]). split.
  - rewrite forallb_app. cbn. by rewrite Hevs, He.
  - unfold run. by rewrite foldl_app.
Qed.

Lemma express_send_unknown_vault tx ws m now s vId f :
  mtype m = send →
  vaultId m = Some vId → from m = Some f → truthy vId = true → truthy f = true →
  vaults s !! vId = None →
  on_message tx ws m now s =
  Result s (if sendOk tx ws SendAckUnknownVault then [(ws, SendAckUnknownVault)] else [])
         (if sendOk tx ws SendAckUnknownVault then Some tt else None).
Proof.
  intros Hk Hv Hf Htv Htf Hnone. unfold on_message. rewrite Hk.
  unfold on_send. rewrite Hv, Hf, Htv, Htf. cbn [andb]. rewrite bind_gets, Hnone.
  unfold ws_send. by destruct (sendOk _ _ _).
Qed.

(** The drain loop of [deliverQueued]: a write that throws is logged and the
    loop goes on. *)
Lemma drain_loop tx ws (l : list envelope) s :
  forEach l (λ e, try_catch (ws_send tx ws (Forward e)) (ret tt)) s =
  Result s ((λ e, (ws, Forward e)) <$> filter (λ e, sendOk tx ws (Forward e) = true) l)
         (Some tt).
Proof.
  induction l as [|e l IH]; [done|].
  cbn [forEach]. rewrite bind_eq, try_send_eq. cbn [st out val]. rewrite IH.
  rewrite filter_cons. destruct (sendOk tx ws (Forward e)) eqn:He; cbn [st out val].
  - by rewrite decide_True.
  - by rewrite decide_False.
Qed.

(** [deliverQueued] writes the envelopes the socket takes and empties the
    queue, the envelopes whose write threw included. *)
Lemma deliverQueued_eq tx u ws s :
  connections s !! u = Some ws →
  deliverQueued tx u s =
  Result (set_queues <[u := []]> s)
         ((λ e, (ws, Forward e)) <$>
            filter (λ e, sendOk tx ws (Forward e) = true) (default [] (queues s !! u)))
         (Some tt).
Proof.
  intros Hc. unfold deliverQueued. rewrite bind_gets, Hc, bind_gets.
  rewrite bind_eq, drain_loop. cbn. by rewrite app_nil_r.
Qed.

(** Identify drains through [deliverQueued]: the queue is empty afterwards
    whatever the writes did, and the frames written are the queued
    envelopes whose write did not throw. *)
Lemma express_identify_drain tx ws m now s u :
  mtype m = identify → userId m = Some u → truthy u = true →
  let r := on_message tx ws m now s in
  queues (st r) !! u = Some [] ∧
  out r = ((λ e, (ws, Forward e)) <$>
             filter (λ e, sendOk tx ws (Forward e) = true) (default [] (queues s !! u)))
          ++ (if sendOk tx ws (IdentifyAck u) then [(ws, IdentifyAck u)] else []).
Proof.
  intros Hk Hu Ht r. subst r. unfold on_message. rewrite Hk. unfold on_identify.
  rewrite Hu, Ht. rewrite !bind_modify.
  match goal with |- context [set_users ?f (set_connections ?g (set_session ?h s))] =>
    set (s1 := set_users f (set_connections g (set_session h s))) end.
  set (reg := match msg_vaults m with Some vs => _ | None => _ end).
  assert (∃ s2, reg s1 = Result s2 [] (Some tt) ∧ queues s2 = queues s ∧
                connections s2 !! u = Some ws) as (s2 & Hreg & Hq & Hc).
  { subst reg. destruct (msg_vaults m) as [vs|].
    - eexists. split; [|split].
      + apply (forEach_silent vs _ (λ vId s,
          set_vaults (λ vs,
            let v := default (Vault u [] now) (vs !! vId) in
            <[vId := Vault (creator v) (set_add u (members v)) (createdAt v)]> vs) s)).
        done.
      + by apply (foldl_inv (λ s', queues s' = queues s)).
      + apply (foldl_inv (λ s', connections s' !! u = Some ws)); [done|].
        apply lookup_insert_eq.
    - exists s1. split_and!; [done|done|]. apply lookup_insert_eq. }
  rewrite bind_eq, Hreg. cbn [st out val].
  rewrite bind_eq, (deliverQueued_eq tx u ws s2 Hc). cbn [st out val]. rewrite Hq.
  rewrite st_ws_send. split; [apply lookup_insert_eq|].
  unfold ws_send. by destruct (sendOk _ _ _).
Qed.

End ExpressRelayFacts.

(** ********************************************************************* *)
(** ** The variants side by side                                          *)
(** ********************************************************************* *)

(** C1 (amended): the two-member cap of a private vault is kept by the file
    relay. From a state in which no private vault has more than two
    members, every sequence of events leads to such a state, and there a
    join-vault by an identified user who is not yet a member of a private
    vault with two members is answered with the frame "Private vault full"
    alone and changes nothing. The in-memory relay keeps no vault type:
    every join-vault of an identified user puts the user in the member set
    and is answered with join-ack. *)
Theorem private_vault_cap :
  (∀ evs s0,
     FileRelay.cap_ok s0 →
     let s := FileRelay.run evs s0 in
     FileRelay.cap_ok s ∧
     ∀ tx ws m now u v,
       FileRelay.mtype m = FileRelay.join_vault →
       FileRelay.authenticatedUser s !! ws = Some u → truthy u = true →
       FileRelay.vaults (FileRelay.db s) !! FileRelay.vaultId m = Some v →
       FileRelay.type v = FileRelay.private →
       2 ≤ length (FileRelay.members v) → u ∉ FileRelay.members v →
       length (FileRelay.members v) = 2 ∧
       st (FileRelay.on_message tx ws m now s) = s ∧
       out (FileRelay.on_message tx ws m now s) =
         if sendOk tx ws (FileRelay.ErrorFrame "Private vault full")
         then [(ws, FileRelay.ErrorFrame "Private vault full")] else [])
  ∧
  (∀ tx ws m now msgId s u,
     MemRelay.mtype m = MemRelay.join_vault →
     MemRelay.currentUserId (MemRelay.session_of ws s) = Some u → truthy u = true →
     let r := MemRelay.on_message tx ws m now msgId s in
     MemRelay.vaultMembers (st r) !! MemRelay.vaultId m
       = Some (set_add u (default [] (MemRelay.vaultMembers s !! MemRelay.vaultId m))) ∧
     out r = if sendOk tx ws (MemRelay.JoinAck (MemRelay.vaultId m))
             then [(ws, MemRelay.JoinAck (MemRelay.vaultId m))] else []).
Proof.
  split; [|exact mem_join_accepts_everyone].
  intros evs s0 H0 s.
  assert (FileRelay.cap_ok s) as Hs by by apply run_cap.
  split; [done|]. intros tx ws m now u v Hk Hu Ht Hv Hp Hlen Hnin.
  split.
  - pose proof (map_Forall_lookup_1 _ _ _ _ Hs Hv Hp) as Hle. cbn in Hle. lia.
  - by rewrite (join_full_vault tx ws m now s u v).
Qed.

(** C3 (what the code does): the drain of the express relay loses every envelope
    whose forward fails. [deliverQueued] catches the exception of a write,
    goes on with the next envelope and empties the queue after the loop,
    whatever the writes did. So on an identify the frames written are the
    queued envelopes whose write did not throw; an envelope of the queue
    whose write threw is not written and is queued no more, and an
    identify of the user that comes next is answered with the identify-ack
    alone. *)
Theorem express_drain_loses_failed_envelope tx ws m now s u q e :
  ExpressRelay.plain s → ExpressRelay.own_names m = true →
  ExpressRelay.mtype m = ExpressRelay.identify →
  ExpressRelay.userId m = Some u → truthy u = true →
  ExpressRelay.queues s !! u = Some q →
  e ∈ q → sendOk tx ws (ExpressRelay.Forward e) = false →
  let r := ExpressRelay.on_message tx ws m now s in
  out r = ((λ e, (ws, ExpressRelay.Forward e)) <$>
             filter (λ e, sendOk tx ws (ExpressRelay.Forward e) = true) q)
          ++ (if sendOk tx ws (ExpressRelay.IdentifyAck u)
              then [(ws, ExpressRelay.IdentifyAck u)] else []) ∧
  ((ws, ExpressRelay.Forward e) ∉ out r) ∧
  ExpressRelay.queues (st r) !! u = Some [] ∧
  ∀ tx' ws' i now',
    ExpressRelay.own_names i = true →
    ExpressRelay.mtype i = ExpressRelay.identify → ExpressRelay.userId i = Some u →
    out (ExpressRelay.on_message tx' ws' i now' (st r)) =
    if sendOk tx' ws' (ExpressRelay.IdentifyAck u)
    then [(ws', ExpressRelay.IdentifyAck u)] else [].
Proof.
  intros _ _ Hk Hu Ht Hq He Hfail r.
  destruct (express_identify_drain tx ws m now s u Hk Hu Ht) as [Hgone Hout].
  fold r in Hgone, Hout. rewrite Hq in Hout. cbn [default from_option id] in Hout.
  split; [exact Hout|]. split; [|split; [exact Hgone|]].
  - rewrite Hout. intros Hin. apply elem_of_app in Hin as [Hin|Hin].
    + apply list_elem_of_fmap in Hin as (e' & [= <-] & He').
      apply list_elem_of_filter in He' as [Hok _]. congruence.
    + destruct (sendOk tx ws (ExpressRelay.IdentifyAck u)).
      * apply list_elem_of_singleton in Hin. discriminate.
      * by apply elem_of_nil in Hin.
  - intros tx' ws' i now' _ Hi Hui.
    destruct (express_identify_drain tx' ws' i now' (st r) u Hi Hui Ht) as [_ ->].
    by rewrite Hgone.
Qed.

(** C4 (amended): after a nuke for user [u], the file relay and the
    better-sqlite3 relay list [u] in no vault, and an identify of [u] that
    comes next delivers no queued envelope; the file relay has deleted the
    queue of [u]. For the file relay this is said of a plain state and a
    user whose name is an own name. The sqlite3 relay deletes the stored
    messages that [u] sent and leaves the rest of its state as it was. *)
Theorem nuke_finality :
  (∀ tx ws m now s u,
     FileRelay.plain s → own_name u = true →
     FileRelay.mtype m = FileRelay.nuke →
     FileRelay.authenticatedUser s !! ws = Some u → truthy u = true →
     let s' := st (FileRelay.on_message tx ws m now s) in
     (∀ vId v, FileRelay.vaults (FileRelay.db s') !! vId = Some v →
               u ∉ FileRelay.members v) ∧
     FileRelay.messages (FileRelay.db s') !! u = None ∧
     (∀ tx' ws' m' now',
        FileRelay.mtype m' = FileRelay.identify → FileRelay.userHash m' = u →
        out (FileRelay.on_message tx' ws' m' now' s') =
        if sendOk tx' ws' (FileRelay.Identified u)
        then [(ws', FileRelay.Identified u)] else []))
  ∧
  (∀ tx ws m now uuid s,
     SqlRelay.mtype m = SqlRelay.nuke →
     let u := SqlRelay.userHash m in
     let s' := st (SqlRelay.on_message tx ws m now uuid s) in
     (∀ v, v ∈ SqlRelay.vault_members s' → SqlRelay.user_id v ≠ u) ∧
     (∀ tx' ws' m' now' uuid',
        SqlRelay.mtype m' = SqlRelay.identify → SqlRelay.userHash m' = u →
        out (SqlRelay.on_message tx' ws' m' now' uuid' s') =
        if sendOk tx' ws' (SqlRelay.IdentifyAck u)
        then [(ws', SqlRelay.IdentifyAck u)] else []))
  ∧
  (∀ tx ws m now uuid s u,
     AsyncSqlRelay.mtype m = AsyncSqlRelay.nuke →
     AsyncSqlRelay.userId s !! ws = Some u → truthy u = true →
     AsyncSqlRelay.on_message tx ws m now uuid s =
     Result (AsyncSqlRelay.set_messages
               (filter (λ r, AsyncSqlRelay.fromUser r ≠ u)) s) [] (Some tt)).
Proof.
  split; [|split; [exact sql_nuke_then_identify | exact async_nuke_eq]].
  intros tx ws m now s u _ _ Hk Hu Ht s'.
  pose proof (file_nuke_db tx ws m now s u Hk Hu Ht) as Hdb. fold s' in Hdb.
  rewrite Hdb. cbn [FileRelay.vaults FileRelay.messages]. split; [|split].
  - intros vId v. rewrite lookup_fmap.
    destruct (FileRelay.vaults (FileRelay.db s) !! vId) as [v0|]; [|done].
    cbn. intros [= <-]. apply other_than_excludes.
  - apply lookup_delete_eq.
  - intros tx' ws' m' now' Hk' Hu'. subst u.
    apply file_identify_no_queue; [done|]. rewrite Hdb. apply lookup_delete_eq.
Qed.

(** C6 (amended): the two SQL relays drain in ascending timestamp order, the
    in-memory relay in the order of arrival. In the better-sqlite3 relay the
    rows drained are the undelivered rows of the user's vaults sorted by
    [ts]; in the sqlite3 relay, on an open socket and with the handler taken
    as one step, the stored messages of the declared vaults sorted by the
    stored [timestamp]; the frames are written in that order up to the first
    write that throws. In the
    in-memory relay the frames are the queue of the user in the order the
    envelopes were appended, whatever their timestamps. *)
Theorem drain_order :
  (∀ tx ws m now uuid s,
     SqlRelay.mtype m = SqlRelay.identify →
     let u := SqlRelay.userHash m in
     let rows := SqlRelay.getUndeliveredMessagesForUser u s in
     let r := SqlRelay.on_message tx ws m now uuid s in
     StronglySorted SqlRelay.ts_le rows ∧ rows ≡ₚ SqlRelay.join_rows u s ∧
     out r `prefix_of`
       ((λ row, (ws, SqlRelay.message_frame row)) <$> rows) ++ [(ws, SqlRelay.IdentifyAck u)] ∧
     ((∀ p, sendOk tx ws p = true) →
      out r = ((λ row, (ws, SqlRelay.message_frame row)) <$> rows)
              ++ [(ws, SqlRelay.IdentifyAck u)]))
  ∧
  (∀ tx ws m now uuid s,
     AsyncSqlRelay.mtype m = AsyncSqlRelay.identify → readyOpen tx ws = true →
     let rows := AsyncSqlRelay.stored_for (AsyncSqlRelay.msg_vaults m) s in
     let r := AsyncSqlRelay.on_message tx ws m now uuid s in
     StronglySorted AsyncSqlRelay.timestamp_le rows ∧
     out r `prefix_of`
       ((λ row, (ws, AsyncSqlRelay.row_frame row)) <$> rows)
       ++ [(ws, AsyncSqlRelay.IdentifyAck)] ∧
     ((∀ p, sendOk tx ws p = true) →
      out r = ((λ row, (ws, AsyncSqlRelay.row_frame row)) <$> rows)
              ++ [(ws, AsyncSqlRelay.IdentifyAck)]))
  ∧
  ((∀ u d s,
      MemRelay.messageQueue (st (MemRelay.addToQueue u d s)) !! u
      = Some (default [] (MemRelay.messageQueue s !! u) ++ [d]))
   ∧
   (∀ tx ws m now msgId s,
      MemRelay.mtype m = MemRelay.identify →
      let u := MemRelay.userHash m in
      let q := default [] (MemRelay.messageQueue s !! u) in
      let r := MemRelay.on_message tx ws m now msgId s in
      out r `prefix_of`
        ((λ d, (ws, MemRelay.MessageFrame d)) <$> q) ++ [(ws, MemRelay.IdentifyAck u)] ∧
      ((∀ p, sendOk tx ws p = true) →
       out r = ((λ d, (ws, MemRelay.MessageFrame d)) <$> q)
               ++ [(ws, MemRelay.IdentifyAck u)]))).
Proof.
  split; [exact sql_drain_sorted|]. split; [exact async_drain_sorted|].
  split; [exact addToQueue_appends|].
  intros tx ws m now msgId s Hk u q r.
  destruct (mem_identify_drain tx ws m now msgId s Hk) as (_ & H2 & H3). by split.
Qed.

(** C7 (amended): a send addressed to a vault that does not exist changes
    nothing in the file relay and in the express relay, each with one
    policy. The file relay drops it: nothing is written. The express relay,
    in a plain state, answers a send that names a sender and a vault whose
    name is an own name with the one frame send-ack
    [ok: false, error: unknown-vault]. In both the state after the
    message is the state before it, so no queue has grown. The
    better-sqlite3 relay does not look the vault up: a send to a vault that
    has no row and no members is stored as a message row and answered with
    the send-ack every send gets. *)
Theorem send_to_unknown_vault :
  (∀ tx ws m now s,
     FileRelay.mtype m = FileRelay.send_message ∨
     FileRelay.mtype m = FileRelay.send_file_chunk →
     FileRelay.vaults (FileRelay.db s) !! FileRelay.vaultId m = None →
     let r := FileRelay.on_message tx ws m now s in
     st r = s ∧ out r = [])
  ∧
  (∀ tx ws m now s vId f,
     ExpressRelay.plain s → own_name vId = true →
     ExpressRelay.mtype m = ExpressRelay.send →
     ExpressRelay.vaultId m = Some vId → ExpressRelay.from m = Some f →
     truthy vId = true → truthy f = true →
     ExpressRelay.vaults s !! vId = None →
     let r := ExpressRelay.on_message tx ws m now s in
     st r = s ∧
     out r = if sendOk tx ws ExpressRelay.SendAckUnknownVault
             then [(ws, ExpressRelay.SendAckUnknownVault)] else [])
  ∧
  (∀ tx ws m now uuid s,
     SqlRelay.mtype m = SqlRelay.send →
     SqlRelay.vaults s !! SqlRelay.vaultId m = None →
     SqlRelay.getVaultMembers (SqlRelay.vaultId m) s = [] →
     ¬ Exists (λ r, SqlRelay.id r = uuid) (SqlRelay.messages s) →
     let r := SqlRelay.on_message tx ws m now uuid s in
     SqlRelay.messages (st r)
       = SqlRelay.messages s ++
         [SqlRelay.MessageRow uuid (SqlRelay.vaultId m) (SqlRelay.from m)
            (SqlRelay.msg_ts m) (SqlRelay.blob m) false] ∧
     out r = if sendOk tx ws SqlRelay.SendAck then [(ws, SqlRelay.SendAck)] else []).
Proof.
  split; [|split].
  - intros tx ws m now s Hk Hv r. subst r.
    by rewrite file_relay_unknown_vault.
  - intros tx ws m now s vId f _ _ Hk Hv Hf Htv Htf Hnone r. subst r.
    by rewrite (express_send_unknown_vault tx ws m now s vId f).
  - intros tx ws m now uuid s Hk _ Hnone Hfresh.
    by apply sql_send_without_members.
Qed.

(** C8 (amended): what the sender of a send gets back differs by relay, and
    no relay reports a count of live forwards. The in-memory relay, on
    sockets that do not throw, writes the envelope to every live recipient
    and then a send-ack with the message id the server generated and the
    boolean [delivered], true exactly when at least one recipient was
    forwarded the envelope live. The better-sqlite3 relay ends a send with
    a send-ack that has no fields. The file relay writes forwarded packets
    and no acknowledgment. *)
Theorem send_acknowledgment :
  (∀ tx ws m now msgId s u,
     MemRelay.mtype m = MemRelay.send →
     MemRelay.currentUserId (MemRelay.session_of ws s) = Some u → truthy u = true →
     (∀ c p, sendOk tx c p = true) →
     let d := MemRelay.MessageData (MemRelay.vaultId m) (MemRelay.blob m)
                (MemRelay.or_else (MemRelay.from m) u) msgId
                (MemRelay.ts_or_now (MemRelay.msg_ts m) now) in
     let fwd := MemRelay.live_forwards tx s u d
                  (MemRelay.getVaultMembers (MemRelay.vaultId m) s) in
     out (MemRelay.on_message tx ws m now msgId s) =
     fwd ++ [(ws, MemRelay.SendAck msgId (bool_decide (0 < length fwd)))])
  ∧
  (∀ tx ws m now uuid s,
     SqlRelay.mtype m = SqlRelay.send →
     ¬ Exists (λ r, SqlRelay.id r = uuid) (SqlRelay.messages s) →
     (∀ c p, sendOk tx c p = true) →
     ∃ fwd, out (SqlRelay.on_message tx ws m now uuid s) = fwd ++ [(ws, SqlRelay.SendAck)])
  ∧
  (∀ tx ws m now s u,
     FileRelay.mtype m = FileRelay.send_message ∨
     FileRelay.mtype m = FileRelay.send_file_chunk →
     FileRelay.authenticatedUser s !! ws = Some u →
     Forall (λ cf, cf.2 = FileRelay.Relayed (FileRelay.Packet m u now))
            (out (FileRelay.on_message tx ws m now s))).
Proof.
  split; [|split; [exact sql_send_ack_is_bare | exact file_relay_frames]].
  intros tx ws m now msgId s u Hk Hu Ht Hok d fwd.
  unfold MemRelay.on_message. rewrite Hk. unfold MemRelay.on_send.
  rewrite bind_gets, Hu. cbn [falsy]. rewrite Ht. cbn [negb default from_option id].
  rewrite bind_gets. fold d. rewrite bind_eq.
  destruct (relay_eq tx u d (MemRelay.getVaultMembers (MemRelay.vaultId m) s) Hok false s)
    as (Hv & Ho & _).
  rewrite Hv, Ho. cbn [st out val orb]. fold fwd.
  unfold ws_send. by rewrite Hok.
Qed.

(** ********************************************************************* *)
(** ** The variants on concrete runs                                      *)
(** ********************************************************************* *)
Section Runs.
Import Scenario.

(** *** C1 *)

(** C1 (as stated) fails in the in-memory relay: A creates V1 with
    [isPrivate: true], B joins, and the third user C is answered with
    join-ack and becomes the third member. *)
Lemma mem_third_joiner_accepted :
  let s := MemRelay.run Mem.two_joined MemRelay.init in
  let r := MemRelay.step Mem.third_join s in
  MemRelay.vaultMembers s !! "V1" = Some ["A"; "B"] ∧
  out r = [(3, MemRelay.JoinAck "V1")] ∧
  MemRelay.vaultMembers (st r) !! "V1" = Some ["A"; "B"; "C"].
Proof. vm_compute. auto. Qed.

(** In the better-sqlite3 relay the cap is applied to the type the joining
    message declares, not to the stored type of the vault: C enters the
    private vault V1 by declaring it public. *)
Example sql_public_join_passes_private_cap :
  let s := SqlRelay.run Sql.private_pair SqlRelay.init in
  let r := SqlRelay.step Sql.C_joins_as_public s in
  SqlRelay.v_type <$> SqlRelay.vaults s !! "V1" = Some SqlRelay.private ∧
  out r = [(3, SqlRelay.JoinAck "V1")] ∧
  SqlRelay.getVaultMemberCount "V1" (st r) = 3.
Proof. vm_compute. auto. Qed.

(** The cap at work: C is refused by the file relay and taken in by the
    in-memory relay. *)
Lemma private_vault_cap_witness :
  let s := FileRelay.run (File.pair_online ++ [File.C_arrives]) FileRelay.init in
  let s2 := MemRelay.run Mem.two_joined MemRelay.init in
  (FileRelay.cap_ok s ∧
   st (FileRelay.step File.C_joins s) = s ∧
   out (FileRelay.step File.C_joins s) = [(3, FileRelay.ErrorFrame "Private vault full")]) ∧
  MemRelay.vaultMembers (st (MemRelay.step Mem.third_join s2)) !! "V1"
  = Some ["A"; "B"; "C"].
Proof.
  intros s s2. destruct private_vault_cap as [Hfile Hmem]. split.
  - destruct (Hfile (File.pair_online ++ [File.C_arrives]) FileRelay.init)
      as [Hcap Hjoin]; [apply map_Forall_empty|].
    split; [exact Hcap|].
    destruct (Hjoin healthy 3 (File.join "V1" true) 2%Z "C"
                (FileRelay.Vault ["A"; "B"] FileRelay.private)) as (_ & Hst & Hout).
    + reflexivity.
    + vm_compute. reflexivity.
    + reflexivity.
    + vm_compute. reflexivity.
    + reflexivity.
    + simpl. lia.
    + simpl. intros H. apply elem_of_cons in H as [H|H]; [discriminate|].
      apply elem_of_cons in H as [H|H]; [discriminate|].
      by apply elem_of_nil in H.
    + split; [exact Hst | exact Hout].
  - destruct (Hmem healthy 3 (Mem.join "V1" true) 0%Z EmptyString s2 "C") as [Hin _].
    + reflexivity.
    + vm_compute. reflexivity.
    + reflexivity.
    + etrans; [exact Hin|]. vm_compute. reflexivity.
Defined.

(** *** C2 *)

(** C sends nothing and is not connected; B is. A's send reaches B live, the
    row is marked delivered, and C's identify brings the ack alone. *)
Example sql_offline_member_gets_nothing :
  let s := SqlRelay.run Sql.group_of_three SqlRelay.init in
  let r := SqlRelay.step Sql.A_sends s in
  out r = [(2, SqlRelay.MessageFrame "G" "ct1" "A" "m-1" 5); (1, SqlRelay.SendAck)] ∧
  SqlRelay.delivered <$> SqlRelay.messages (st r) = [true] ∧
  out (SqlRelay.step Sql.C_identifies (st r)) = [(4, SqlRelay.IdentifyAck "C")].
Proof. vm_compute. auto. Qed.

(** The file relay on the same run: C's own queue takes the packet while B
    is served live, and C gets it on identify. *)
Example file_offline_member_served :
  let s := FileRelay.run File.group_C_offline FileRelay.init in
  let r := FileRelay.step File.A_sends_to_group s in
  let p := FileRelay.Packet (File.say FileRelay.send_message "G" "ct1") "A" 5 in
  out r = [(2, FileRelay.Relayed p)] ∧
  FileRelay.messages (FileRelay.db (st r)) !! "C" = Some [p] ∧
  out (FileRelay.step File.C_returns (st r))
  = [(4, FileRelay.Relayed p); (4, FileRelay.Identified "C")].
Proof. vm_compute. auto. Qed.

(** The theorem on that run, with B as the live recipient. *)
Lemma sql_live_forward_hides_message_witness :
  let s := SqlRelay.run Sql.group_of_three SqlRelay.init in
  let r := SqlRelay.step Sql.A_sends s in
  (2, SqlRelay.MessageFrame "G" "ct1" "A" "m-1" 5) ∈ out r ∧
  (4, SqlRelay.MessageFrame "G" "ct1" "A" "m-1" 5)
    ∉ out (SqlRelay.step Sql.C_identifies (st r)).
Proof.
  intros s r.
  destruct (sql_live_forward_hides_message healthy 1 (Sql.say "G" "A" "ct1" 5) 5%Z "m-1"
              s "B" 2) as (Hout & _ & Hnever).
  - reflexivity.
  - vm_compute. intros H. inversion H.
  - intros c p. reflexivity.
  - vm_compute. apply elem_of_cons. right. apply elem_of_cons. by left.
  - discriminate.
  - vm_compute. reflexivity.
  - reflexivity.
  - split; [exact Hout|].
    apply (Hnever healthy 4 (Sql.hello "C") 9%Z EmptyString 4 "G" "ct1" "A" 5%Z).
    reflexivity.
Defined.

(** *** C3 *)

(** Two envelopes wait for B in the express relay and the write of the
    second one throws during the drain: it is not written, the queue is
    empty afterwards, and B's next identify brings the ack alone. *)
Lemma express_drain_loses_failed_envelope_witness :
  let s := ExpressRelay.run Express.two_queued ExpressRelay.init in
  let e1 := ExpressRelay.Envelope (Express.say "V" "A" "ct1" 1) (Some "B") in
  let e2 := ExpressRelay.Envelope (Express.say "V" "A" "ct2" 2) (Some "B") in
  let r := ExpressRelay.step Express.B_returns_broken s in
  ExpressRelay.queues s !! "B" = Some [e1; e2] ∧
  out r = [(3, ExpressRelay.Forward e1); (3, ExpressRelay.IdentifyAck "B")] ∧
  ((3, ExpressRelay.Forward e2) ∉ out r) ∧
  ExpressRelay.queues (st r) !! "B" = Some [] ∧
  out (ExpressRelay.step Express.B_returns_again (st r)) = [(4, ExpressRelay.IdentifyAck "B")].
Proof.
  intros s e1 e2 r.
  assert (ExpressRelay.queues s !! "B" = Some [e1; e2]) as Hq by (vm_compute; reflexivity).
  split; [exact Hq|].
  destruct (express_drain_loses_failed_envelope Express.breaks_on_second 3
              (Express.hello "B" ["V"]) 10%Z s "B" [e1; e2] e2)
    as (Hout & Hnot & Hgone & Hnext).
  - apply express_plain_run. reflexivity.
  - reflexivity.
  - reflexivity.
  - reflexivity.
  - reflexivity.
  - exact Hq.
  - apply list_elem_of_further, list_elem_of_here.
  - reflexivity.
  - split; [etrans; [exact Hout | vm_compute; reflexivity]|].
    split; [exact Hnot|]. split; [exact Hgone|].
    apply (Hnext healthy 4 (Express.hello "B" ["V"]) 20%Z); reflexivity.
Defined.

(** The in-memory relay removes the queue before the first write: on a
    socket that throws at once nothing was written and nothing is left. *)
Example mem_drain_clears_before_sending :
  let s := MemRelay.run Mem.out_of_order MemRelay.init in
  let r := MemRelay.step Mem.B_returns_on_dead_socket s in
  length (default [] (MemRelay.messageQueue s !! "B")) = 2 ∧
  out r = [] ∧ val r = None ∧
  MemRelay.messageQueue (st r) !! "B" = None.
Proof. vm_compute. auto. Qed.

(** The file relay clears the queue only after every write returned: on a
    socket that throws B's queue is kept, and the next identify delivers
    it. *)
Example file_drain_keeps_queue :
  let s := FileRelay.run (File.B_offline ++ [File.A_sends]) FileRelay.init in
  let r := FileRelay.step File.B_returns_on_dead_socket s in
  FileRelay.messages (FileRelay.db s) !! "B" = Some File.queued_for_B ∧
  out r = [] ∧
  FileRelay.messages (FileRelay.db (st r)) !! "B" = Some File.queued_for_B ∧
  out (FileRelay.step File.B_returns (st r))
  = ((λ p, (7, FileRelay.Relayed p)) <$> File.queued_for_B) ++ [(7, FileRelay.Identified "B")].
Proof. vm_compute. auto. Qed.

(** *** C4 *)

(** C4 (as stated) fails in the sqlite3 relay: its nuke deletes the stored
    messages that B sent and nothing else. B is still in the membership
    table and in the live map of V, A's message is still stored, and B's
    next identify delivers it. *)
Lemma async_nuke_keeps_membership_and_messages :
  let s := AsyncSqlRelay.run Async.B_nukes AsyncSqlRelay.init in
  "B" ∈ default [] (AsyncSqlRelay.liveVaultMap s !! "V") ∧
  AsyncSqlRelay.MemberRow "V" "B" ∈ AsyncSqlRelay.vaultMembers s ∧
  out (AsyncSqlRelay.step Async.B_identifies_again s)
  = [(2, AsyncSqlRelay.MessageFrame "V" "A" "ct1" 7); (2, AsyncSqlRelay.IdentifyAck)].
Proof.
  vm_compute. split_and!; [| |done].
  - apply elem_of_cons. right. apply elem_of_cons. by left.
  - apply elem_of_cons. right. apply elem_of_cons. by left.
Qed.

(** The nuke of the better-sqlite3 relay ends in an exception after the
    memberships are deleted: no frame is written, and the message row is
    as it was. *)
Example sql_nuke_throws :
  let t := SqlRelay.run Sql.B_away_A_sends SqlRelay.init in
  let r := SqlRelay.step (SqlRelay.Message healthy 5 Sql.B_wipes 4 EmptyString) t in
  out r = [] ∧ val r = None ∧
  SqlRelay.getVaultMembers "V1" (st r) = ["A"] ∧
  SqlRelay.messages (st r) = SqlRelay.messages t.
Proof. vm_compute. auto. Qed.

(** B's nuke while an envelope waits for B, in the file relay (B is
    unregistered, socket 2 is still identified as B) and in the
    better-sqlite3 relay; A's nuke in the sqlite3 relay. *)
Lemma nuke_finality_witness :
  let s := FileRelay.run File.B_unregistered FileRelay.init in
  let s' := st (FileRelay.step (FileRelay.Message healthy 2 (File.blank FileRelay.nuke) 40) s) in
  let t := SqlRelay.run Sql.B_away_A_sends SqlRelay.init in
  let t' := st (SqlRelay.step (SqlRelay.Message healthy 5 Sql.B_wipes 4 EmptyString) t) in
  let a := AsyncSqlRelay.run Async.B_nukes AsyncSqlRelay.init in
  (FileRelay.messages (FileRelay.db s) !! "B" = Some File.queued_for_B ∧
   FileRelay.vaults (FileRelay.db s') !! "V1"
   = Some (FileRelay.Vault ["A"] FileRelay.private) ∧
   FileRelay.messages (FileRelay.db s') !! "B" = None ∧
   out (FileRelay.step (FileRelay.Message healthy 8 (File.hello "B") 50) s')
   = [(8, FileRelay.Identified "B")]) ∧
  (SqlRelay.getUndeliveredMessagesForUser "B" t
   = [SqlRelay.MessageRow "m-2" "V1" "A" 2 "ct1" false] ∧
   SqlRelay.getVaultMembers "V1" t' = ["A"] ∧
   out (SqlRelay.step (SqlRelay.Message healthy 6 (Sql.hello "B") 6 EmptyString) t')
   = [(6, SqlRelay.IdentifyAck "B")]) ∧
  AsyncSqlRelay.vaultMembers
    (st (AsyncSqlRelay.step (AsyncSqlRelay.Message healthy 1 Async.wipe 9 EmptyString) a))
  = AsyncSqlRelay.vaultMembers a.
Proof.
  intros s s' t t' a. destruct nuke_finality as (Hfile & Hsql & Hasync).
  split; [|split].
  - split; [vm_compute; reflexivity|].
    destruct (Hfile healthy 2 (File.blank FileRelay.nuke) 40%Z s "B")
      as (Hmem & Hq & Hid).
    + apply file_plain_run. reflexivity.
    + reflexivity.
    + reflexivity.
    + vm_compute. reflexivity.
    + reflexivity.
    + split; [vm_compute; reflexivity|].
      split; [exact Hq|].
      apply (Hid healthy 8 (File.hello "B") 50%Z); reflexivity.
  - split; [vm_compute; reflexivity|]. split; [vm_compute; reflexivity|].
    destruct (Hsql healthy 5 Sql.B_wipes 4%Z EmptyString t eq_refl) as [_ Hid].
    apply (Hid healthy 6 (Sql.hello "B") 6%Z EmptyString); reflexivity.
  - unfold AsyncSqlRelay.step.
    rewrite (Hasync healthy 1 Async.wipe 9%Z EmptyString a "A").
    + reflexivity.
    + reflexivity.
    + vm_compute. reflexivity.
    + reflexivity.
Defined.

(** *** C5 *)

(** In the sqlite3 relay a second join-vault leaves a second membership
    row. *)
Example async_join_twice_two_rows :
  AsyncSqlRelay.vaultMembers (AsyncSqlRelay.run Async.joins_twice AsyncSqlRelay.init)
  = [AsyncSqlRelay.MemberRow "V" "A"; AsyncSqlRelay.MemberRow "V" "A"].
Proof. vm_compute. reflexivity. Qed.

(** The file relay on a member's second join to a full private vault: no
    error, no new member. *)
Example file_rejoin_at_cap_accepted :
  let s := FileRelay.run File.pair_online FileRelay.init in
  let r := FileRelay.step File.A_rejoins s in
  out r = [(1, FileRelay.VaultJoined "V1" ["B"] true); (2, FileRelay.MemberJoined "V1" "A")] ∧
  FileRelay.vaults (FileRelay.db (st r)) !! "V1"
  = Some (FileRelay.Vault ["A"; "B"] FileRelay.private).
Proof. vm_compute. auto. Qed.

(** A, a member of the full private vault V1, joins it again. *)
Lemma sql_rejoin_at_cap_refused_witness :
  let s := SqlRelay.run Sql.private_pair SqlRelay.init in
  let r := SqlRelay.step Sql.A_rejoins s in
  SqlRelay.getVaultMembers "V1" s = ["A"; "B"] ∧
  out r = [(1, SqlRelay.ErrorFrame "Private vault already has 2 members.")] ∧
  SqlRelay.vault_members (st r) = SqlRelay.vault_members s.
Proof.
  intros s r. split; [vm_compute; reflexivity|].
  apply (sql_rejoin_at_cap_refused healthy 1 (Sql.join "V1" "A" true) 1%Z EmptyString s).
  - reflexivity.
  - reflexivity.
  - vm_compute. apply Exists_cons_hd. split; reflexivity.
  - vm_compute. lia.
Defined.

(** *** C6 *)

(** C6 (as stated) fails in the in-memory relay: A's envelope with timestamp
    20 is queued for B before C's envelope with timestamp 10, and the drain
    forwards them in that order, 20 before 10. *)
Lemma mem_drain_out_of_ts_order :
  let s := MemRelay.run Mem.out_of_order MemRelay.init in
  out (MemRelay.step Mem.B_returns s)
  = [(4, MemRelay.MessageFrame (MemRelay.MessageData "V1" "late" "A" "id-1" 20));
     (4, MemRelay.MessageFrame (MemRelay.MessageData "V1" "early" "C" "id-2" 10));
     (4, MemRelay.IdentifyAck "B")].
Proof. vm_compute. reflexivity. Qed.

(** Drains on healthy sockets. In the better-sqlite3 relay the row with
    timestamp 10 was stored after the row with timestamp 20 and is written
    first; in the sqlite3 relay the rows stored at clock readings 7, 9 and
    8 are written as 7, 8, 9; the in-memory relay writes 20 before 10. *)
Lemma drain_order_witness :
  let s := SqlRelay.run Sql.late_then_early SqlRelay.init in
  let a := AsyncSqlRelay.run Async.three_stored AsyncSqlRelay.init in
  let q := MemRelay.run Mem.out_of_order MemRelay.init in
  (SqlRelay.ts <$> SqlRelay.messages s = [20; 10]%Z ∧
   out (SqlRelay.step Sql.C_identifies s)
   = [(4, SqlRelay.MessageFrame "G" "early" "B" "m-2" 10);
      (4, SqlRelay.MessageFrame "G" "late" "A" "m-1" 20);
      (4, SqlRelay.IdentifyAck "C")]) ∧
  (AsyncSqlRelay.timestamp <$> AsyncSqlRelay.messages a = [7; 9; 8]%Z ∧
   out (AsyncSqlRelay.step Async.B_arrives a)
   = [(2, AsyncSqlRelay.MessageFrame "V" "A" "first" 7);
      (2, AsyncSqlRelay.MessageFrame "V" "A" "second" 8);
      (2, AsyncSqlRelay.MessageFrame "V" "A" "third" 9);
      (2, AsyncSqlRelay.IdentifyAck)]) ∧
  out (MemRelay.step Mem.B_returns q)
  = [(4, MemRelay.MessageFrame (MemRelay.MessageData "V1" "late" "A" "id-1" 20));
     (4, MemRelay.MessageFrame (MemRelay.MessageData "V1" "early" "C" "id-2" 10));
     (4, MemRelay.IdentifyAck "B")].
Proof.
  intros s a q. destruct drain_order as (Hsql & Hasync & _ & Hmem).
  split; [|split].
  - split; [vm_compute; reflexivity|].
    destruct (Hsql healthy 4 (Sql.hello "C") 9%Z EmptyString s eq_refl)
      as (_ & _ & _ & Hall).
    etrans; [apply Hall; intros p; reflexivity|]. vm_compute. reflexivity.
  - split; [vm_compute; reflexivity|].
    destruct (Hasync healthy 2 (Async.hello "B" ["V"]) 10%Z EmptyString a eq_refl eq_refl)
      as (_ & _ & Hall).
    etrans; [apply Hall; intros p; reflexivity|]. vm_compute. reflexivity.
  - destruct (Hmem healthy 4 (Mem.hello "B") 200%Z EmptyString q eq_refl) as (_ & Hall).
    etrans; [apply Hall; intros p; reflexivity|]. vm_compute. reflexivity.
Defined.

(** *** C7 *)

(** C7 (as stated) fails in the better-sqlite3 relay: a send to a vault
    nobody created is stored as a row of [messages] and answered with the
    ordinary send-ack. *)
Lemma sql_send_to_missing_vault_is_stored :
  let r := SqlRelay.step Sql.send_nowhere SqlRelay.init in
  SqlRelay.vaults SqlRelay.init !! "nope" = None ∧
  out r = [(1, SqlRelay.SendAck)] ∧
  SqlRelay.messages (st r) = [SqlRelay.MessageRow "m-9" "nope" "A" 5 "ct" false].
Proof. vm_compute. auto. Qed.

(** The same send to the vault "nope" in the three relays; the file relay
    and the express relay know other vaults, V1 and V. *)
Lemma send_to_unknown_vault_witness :
  let s := FileRelay.run File.pair_online FileRelay.init in
  let e := ExpressRelay.run Express.two_queued ExpressRelay.init in
  (st (FileRelay.step File.A_sends_nowhere s) = s ∧
   out (FileRelay.step File.A_sends_nowhere s) = []) ∧
  (st (ExpressRelay.step Express.send_nowhere e) = e ∧
   out (ExpressRelay.step Express.send_nowhere e)
   = [(1, ExpressRelay.SendAckUnknownVault)]) ∧
  (SqlRelay.messages (st (SqlRelay.step Sql.send_nowhere SqlRelay.init))
   = [SqlRelay.MessageRow "m-9" "nope" "A" 5 "ct" false] ∧
   out (SqlRelay.step Sql.send_nowhere SqlRelay.init) = [(1, SqlRelay.SendAck)]).
Proof.
  intros s e. destruct send_to_unknown_vault as (Hfile & Hexpress & Hsql). split; [|split].
  - apply (Hfile healthy 1 (File.say FileRelay.send_message "nope" "ct") 5%Z s).
    + left. reflexivity.
    + vm_compute. reflexivity.
  - apply (Hexpress healthy 1 (Express.say "nope" "A" "ct" 5) 5%Z e "nope" "A");
      [apply express_plain_run; vm_compute; reflexivity | reflexivity..].
  - apply (Hsql healthy 1 (Sql.say "nope" "A" "ct" 5) 5%Z "m-9" SqlRelay.init).
    + reflexivity.
    + reflexivity.
    + reflexivity.
    + intros H. inversion H.
Defined.

(** *** C8 *)

(** C8 (as stated) fails in the file relay: A's send to the existing vault
    V1 is forwarded to B, and no frame at all is written to A's socket. *)
Lemma file_send_is_not_acknowledged :
  let s := FileRelay.run File.pair_online FileRelay.init in
  let r := FileRelay.step File.A_sends s in
  is_Some (FileRelay.vaults (FileRelay.db s) !! "V1") ∧
  FileRelay.connections s !! "A" = Some 1 ∧
  out r = [(2, FileRelay.Relayed
                 (FileRelay.Packet (File.say FileRelay.send_message "V1" "ct1") "A" 5))] ∧
  filter (λ cf, cf.1 = 1) (out r) = [].
Proof. vm_compute. split_and!; eauto. Qed.

(** A's send with two live recipients in the in-memory relay: the ack says
    [delivered: true], not 2. *)
Lemma send_acknowledgment_witness :
  let s := MemRelay.run (Mem.two_joined ++ [Mem.third_join]) MemRelay.init in
  let d := MemRelay.MessageData "V1" "ct" "A" "id-7" 50 in
  let t := SqlRelay.run Sql.group_of_three SqlRelay.init in
  let f := FileRelay.run File.pair_online FileRelay.init in
  out (MemRelay.step (MemRelay.Message healthy 1 (Mem.say "V1" "ct" 50) 60 "id-7") s)
  = [(2, MemRelay.MessageFrame d); (3, MemRelay.MessageFrame d);
     (1, MemRelay.SendAck "id-7" true)] ∧
  (∃ fwd, out (SqlRelay.step Sql.A_sends t) = fwd ++ [(1, SqlRelay.SendAck)]) ∧
  Forall (λ cf, cf.2 = FileRelay.Relayed
                         (FileRelay.Packet (File.say FileRelay.send_message "V1" "ct1") "A" 5))
         (out (FileRelay.step File.A_sends f)).
Proof.
  intros s d t f. destruct send_acknowledgment as (Hmem & Hsql & Hfile).
  split; [|split].
  - etrans; [apply (Hmem healthy 1 (Mem.say "V1" "ct" 50) 60%Z "id-7" s "A")|].
    + reflexivity.
    + vm_compute. reflexivity.
    + reflexivity.
    + intros c p. reflexivity.
    + vm_compute. reflexivity.
  - apply (Hsql healthy 1 (Sql.say "G" "A" "ct1" 5) 5%Z "m-1" t).
    + reflexivity.
    + vm_compute. intros H. inversion H.
    + intros c p. reflexivity.
  - apply (Hfile healthy 1 (File.say FileRelay.send_message "V1" "ct1") 5%Z f "A").
    + left. reflexivity.
    + vm_compute. reflexivity.
Defined.

(** *** C9 *)

(** B on sockets 2 and 5: the close of socket 2 unregisters B. *)
Lemma file_stale_close_witness :
  let s := FileRelay.run File.pair_online FileRelay.init in
  let s1 := st (FileRelay.step File.B_second_socket s) in
  FileRelay.connections s !! "B" = Some 2 ∧
  FileRelay.connections s1 !! "B" = Some 5 ∧
  FileRelay.connections (st (FileRelay.step (FileRelay.Close 2) s1)) !! "B" = None.
Proof.
  intros s s1. split; [vm_compute; reflexivity|].
  apply (file_stale_close healthy 5 2 (File.hello "B") 3%Z s).
  - reflexivity.
  - reflexivity.
  - vm_compute. reflexivity.
  - lia.
Defined.

(** The in-memory relay and the express relay do the same. *)
Example mem_stale_close :
  let s := MemRelay.run Mem.two_joined MemRelay.init in
  let s1 := st (MemRelay.step (MemRelay.Message healthy 9 (Mem.hello "B") 5 EmptyString) s) in
  MemRelay.connections s1 !! "B" = Some 9 ∧
  MemRelay.connections (st (MemRelay.step (MemRelay.Close 2) s1)) !! "B" = None.
Proof. vm_compute. auto. Qed.

Example express_stale_close :
  let s := ExpressRelay.run
             [ExpressRelay.Message healthy 2 (Express.hello "B" ["V"]) 0;
              ExpressRelay.Message healthy 9 (Express.hello "B" ["V"]) 1]
             ExpressRelay.init in
  ExpressRelay.connections s !! "B" = Some 9 ∧
  ExpressRelay.connections (st (ExpressRelay.step (ExpressRelay.Close 2) s)) !! "B" = None.
Proof. vm_compute. auto. Qed.

(** *** C10 *)

(** B is away: A's chunk changes nothing, and after A's text and chunk B's
    queue holds the text alone. *)
Lemma file_chunk_never_queued_witness :
  let s := FileRelay.run File.B_offline FileRelay.init in
  let r := FileRelay.step File.A_sends_chunk s in
  let s2 := FileRelay.run (File.B_offline ++ [File.A_sends; File.A_sends_chunk])
              FileRelay.init in
  FileRelay.connections s !! "B" = None ∧
  (st r = s ∧
   FileRelay.messages (FileRelay.db (st r)) !! "B"
   = FileRelay.messages (FileRelay.db s) !! "B" ∧
   out (FileRelay.step File.B_returns (st r)) = out (FileRelay.step File.B_returns s)) ∧
  (FileRelay.messages (FileRelay.db s2) !! "B" = Some File.queued_for_B ∧
   Forall (λ p, FileRelay.mtype (FileRelay.p_msg p) = FileRelay.send_message)
          File.queued_for_B).
Proof.
  intros s r s2. destruct file_chunk_never_queued as [Honly Hchunk].
  split; [vm_compute; reflexivity|]. split.
  - destruct (Hchunk healthy 1 (File.say FileRelay.send_file_chunk "V1" "chunk") 6%Z s
                eq_refl) as (Hst & Hq & Hlater).
    split; [exact Hst|]. split; [apply Hq|].
    apply (Hlater healthy 7 (File.hello "B") 30%Z).
  - assert (FileRelay.messages (FileRelay.db s2) !! "B" = Some File.queued_for_B) as Hq
      by (vm_compute; reflexivity).
    split; [exact Hq|].
    destruct (Honly (File.B_offline ++ [File.A_sends; File.A_sends_chunk]) FileRelay.init)
      as [Hqueued _]; [apply map_Forall_empty|].
    apply Forall_forall. intros p Hp.
    apply (Hqueued "B" File.queued_for_B p Hq Hp).
Defined.

(** The text A sends in the same situation is queued for B. *)
Example file_text_is_queued :
  let s := FileRelay.run File.B_offline FileRelay.init in
  FileRelay.messages (FileRelay.db (st (FileRelay.step File.A_sends s))) !! "B"
  = Some File.queued_for_B.
Proof. vm_compute. reflexivity. Qed.

End Runs.

(** ********************************************************************* *)
(** ** Further properties of the handlers                                 *)
(** ********************************************************************* *)
(** What the code shows beyond the claims settled above, variant by
    variant, with the HTTP endpoints of the express program first. *)

(** *** more on handler code *)
Section EffectFactsMore.
Context {S P : Type}.

Lemma ws_send_ok (tx : transport P) c p (s : S) :
  sendOk tx c p = true → ws_send tx c p s = Result s [(c, p)] (Some tt).
Proof. intros H. unfold ws_send. by rewrite H. Qed.

(** A loop keeps a property of the state that its rounds keep on the
    elements of the list. *)
Lemma forEach_st_inv_elem {A} (I : S → Prop) (l : list A) (body : A → act S P unit) :
  (∀ x s, x ∈ l → I s → I (st (body x s))) → ∀ s, I s → I (st (forEach l body s)).
Proof.
  induction l as [|x l IH]; intros Hbody s Hs; [done|].
  cbn. rewrite bind_eq.
  assert (I (st (body x s))) as Hx by (apply Hbody; [apply list_elem_of_here | done]).
  destruct (val (body x s)); cbn; [|done].
  apply IH; [|done]. intros y s' Hy. apply Hbody. by apply list_elem_of_further.
Qed.

(** A property of the state that both halves of a sequence keep. *)
Lemma st_bind_inv {A B} (I : S → Prop) (m : act S P A) (k : A → act S P B) (s : S) :
  I (st (m s)) → (∀ a s', I s' → I (st (k a s'))) → I (st ((m ≫= k) s)).
Proof. intros Hm Hk. rewrite bind_eq. destruct (val (m s)); cbn; auto. Qed.

(** A frame written last does not change the state. *)
Lemma st_then_send_val {A} (tx : transport P) (m : act S P A) c (p : A → P) (s : S) :
  st ((m ≫= λ a, ws_send tx c (p a)) s) = st (m s).
Proof. rewrite bind_eq. destruct (val (m s)); cbn; [apply st_ws_send | done]. Qed.

Lemma st_then_send {A} (tx : transport P) (m : act S P A) c p (s : S) :
  st ((m ≫= λ _, ws_send tx c p) s) = st (m s).
Proof. apply (st_then_send_val tx m c (λ _, p)). Qed.

End EffectFactsMore.

Lemma filter_all {A} (P : A → Prop) `{!∀ x, Decision (P x)} (l : list A) :
  Forall P l → filter P l = l.
Proof.
  induction 1 as [|x l Hx Hl IH]; [done|]. by rewrite filter_cons, decide_True, IH.
Qed.

(** JavaScript [Set] operations on a list without repetition. *)
Lemma set_add_nonempty x l : set_add x l ≠ [].
Proof.
  unfold set_add. case_bool_decide as H.
  - intros ->. by apply elem_of_nil in H.
  - by destruct l.
Qed.

Lemma set_add_NoDup x l : NoDup l → NoDup (set_add x l).
Proof.
  intros Hnd. unfold set_add. case_bool_decide as H; [done|].
  apply NoDup_app. split_and!; [done| |apply NoDup_singleton].
  intros y Hy Hy'. apply list_elem_of_singleton in Hy'. by subst.
Qed.

Lemma set_delete_NoDup x l : NoDup l → NoDup (set_delete x l).
Proof. apply NoDup_filter. Qed.

Lemma set_delete_excludes x l : x ∉ set_delete x l.
Proof. unfold set_delete. rewrite list_elem_of_filter. tauto. Qed.

Lemma set_delete_idemp x l : set_delete x (set_delete x l) = set_delete x l.
Proof.
  unfold set_delete. apply filter_all, Forall_forall. intros y Hy.
  apply list_elem_of_filter in Hy. tauto.
Qed.

(** ********************************************************************* *)
(** ** The HTTP prekey endpoints (src/unnamed/part_002)                   *)
(** ********************************************************************* *)
Section PrekeyRegistryFacts.
Import PrekeyRegistry.
Implicit Types (db : registry) (b : body) (uid : string).

Lemma get_prekeys_found uid db pk u :
  stored db !! uid = Some pk → users db !! uid = Some u →
  get_prekeys uid db =
  (Registry (users db) (<[uid := Bundle (prekeys pk) (tail (oneTimePrekeys pk))]> (stored db)),
   PrekeyBundle (identityPub u) (prekeys pk)
                (head (oneTimePrekeys pk) ≫= λ k, or_null (Some k)) (or_null (signPub u))).
Proof. intros Hpk Hu. unfold get_prekeys. by rewrite Hpk, Hu. Qed.






Lemma handle_well_formed r db : well_formed db → well_formed (handle r db).
Proof.
  intros Hwf. destruct r as [b now|uid|uid|uid now]; cbn [handle].
  - unfold register_prekeys.
    destruct (userId b) as [uid|]; [|done].
    destruct (b_identityPub b) as [ik|]; [|done].
    destruct (b_prekeys b) as [pks|]; [|done].
    destruct (truthy uid && truthy ik) eqn:Ht; [|done].
    apply andb_true_iff in Ht as [_ Hti]. cbn [fst].
    unfold well_formed. cbn [users stored].
    apply map_Forall_insert_2.
    + cbn [prekeys oneTimePrekeys]. split_and!.
      * rewrite length_take. lia.
      * destruct (b_oneTimePrekeys b) as [l|]; [rewrite length_take; lia|].
        destruct (stored db !! uid) as [pk|] eqn:Hpk; [|cbn; lia].
        cbn. by destruct (map_Forall_lookup_1 _ _ _ _ Hwf Hpk) as (_ & ? & _).
      * eexists _, ik. rewrite lookup_insert_eq. done.
    + eapply map_Forall_impl; [exact Hwf|]. cbn.
      intros uid' pk (H1 & H2 & u & ik' & Hu & Hik & Htik). split_and!; [done..|].
      destruct (decide (uid' = uid)) as [->|Hne].
      * eexists _, ik. rewrite lookup_insert_eq. done.
      * exists u, ik'. by rewrite lookup_insert_ne.
  - unfold get_prekeys.
    destruct (stored db !! uid) as [pk|] eqn:Hpk; [|done].
    destruct (users db !! uid) as [u|] eqn:Hu; [|done]. cbn [fst].
    unfold well_formed. cbn [users stored].
    destruct (map_Forall_lookup_1 _ _ _ _ Hwf Hpk) as (H1 & H2 & Hex).
    apply map_Forall_insert_2; [|done].
    cbn [prekeys oneTimePrekeys]. split_and!; [done| |done].
    destruct (oneTimePrekeys pk); cbn in *; lia.
  - unfold get_user. by destruct (users db !! uid).
  - unfold seen, well_formed. cbn [users stored].
    eapply map_Forall_impl; [exact Hwf|]. cbn.
    intros uid' pk (H1 & H2 & u & ik' & Hu & Hik & Htik). split_and!; [done..|].
    destruct (decide (uid' = uid)) as [->|Hne].
    + rewrite lookup_insert_eq, Hu. cbn. eauto.
    + exists u, ik'. by rewrite lookup_insert_ne.
Qed.

(** X3: whatever requests the registry has served since it was empty
    (registrations, fetches, user look-ups and the identifies arriving on
    the WebSocket side), a stored bundle has at most fifty prekeys and two
    hundred one-time prekeys and belongs to a user whose identity key is
    set: a fetch for a user who has a bundle is never answered with 404,
    and its response carries an identity key. *)
Theorem prekeys_registry_well_formed rs db0 :
  well_formed db0 →
  let db := run rs db0 in
  well_formed db ∧
  ∀ uid pk, stored db !! uid = Some pk →
    length (prekeys pk) ≤ 50 ∧ length (oneTimePrekeys pk) ≤ 200 ∧
    ∃ ik one sp, truthy ik = true ∧
      (get_prekeys uid db).2 = PrekeyBundle (Some ik) (prekeys pk) one sp.
Proof.
  intros H0 db.
  assert (well_formed db) as Hwf.
  { subst db. revert db0 H0. induction rs as [|r rs IH]; intros db0 H0; [done|].
    cbn. apply IH. by apply handle_well_formed. }
  split; [done|]. intros uid pk Hpk.
  destruct (map_Forall_lookup_1 _ _ _ _ Hwf Hpk) as (H1 & H2 & u & ik & Hu & Hik & Ht).
  split_and!; [done..|].
  exists ik. rewrite (get_prekeys_found uid db pk u) by done. cbn [snd].
  rewrite Hik. eauto.
Qed.

Lemma prekeys_registry_well_formed_witness :
  well_formed (run [ Identify "A" 1;
                     RegisterPrekeys (Body (Some "A") (Some "ik") None (Some ["p1"]) None) 2;
                     GetPrekeys "A" ] init).
Proof.
  apply (prekeys_registry_well_formed _ init).
  unfold well_formed, init. cbn. apply map_Forall_empty.
Defined.

End PrekeyRegistryFacts.

(** ********************************************************************* *)
(** ** More on the file relay (src/server.js)                             *)
(** ********************************************************************* *)
Section FileRelayMore.
Import FileRelay.
Implicit Types (s : server) (tx : transport frame) (m : msg) (ws : conn).

(** X4: in the file relay a connection that has not identified (or that
    identified with an empty user hash) can identify, fetch keys and ping,
    and nothing else: a publish-keys, join-vault, send-message, send-file-chunk,
    leave-vault or nuke message, or one of an unknown type, leaves the
    state as it was and is not answered. *)
Theorem file_unidentified_is_inert tx ws m now s :
  falsy (authenticatedUser s !! ws) = true →
  mtype m ≠ identify → mtype m ≠ fetch_keys → mtype m ≠ ping →
  on_message tx ws m now s = Result s [] (Some tt).
Proof.
  intros Hf H1 H2 H3. unfold on_message, try_catch, dispatch. rewrite bind_gets.
  unfold handlePublishKeys, handleJoinVault, handleRelay, handleLeaveVault, handleNuke.
  destruct (authenticatedUser s !! ws) as [u|].
  - cbn in Hf. apply negb_true_iff in Hf. rewrite Hf.
    by destruct (mtype m).
  - by destruct (mtype m).
Qed.

Lemma file_unidentified_is_inert_witness :
  on_message Scenario.healthy 1 (Scenario.File.join "V1" true) 0 init = Result init [] (Some tt).
Proof. by apply file_unidentified_is_inert. Defined.

Lemma on_message_fetch tx ws f now s :
  mtype f = fetch_keys →
  on_message tx ws f now s =
  let p := match users (db s) !! targetUser f with
           | Some k => KeysFound (targetUser f) (identityKey k) (signedPreKey k) (reqId f)
           | None => KeysMissing (targetUser f) (reqId f)
           end in
  Result s (if sendOk tx ws p then [(ws, p)] else []) (Some tt).
Proof.
  intros Hk. unfold on_message, try_catch, dispatch. rewrite bind_gets, Hk.
  unfold handleFetchKeys. rewrite bind_gets.
  destruct (users (db s) !! targetUser f) as [k|]; unfold ws_send; cbn;
    by destruct (sendOk _ _ _).
Qed.



(** X6: a nuke deletes the user entry and leaves the connection identified.
    A publish-keys sent on it afterwards fails on the missing entry inside
    the handler's [try]: nothing is stored, nothing is answered, and a
    fetch-keys for the user is answered with keys-missing. This is said of
    a plain state and a user whose name is an own name. *)
Theorem file_publish_after_nuke_is_lost tx ws m now s u :
  plain s → own_name u = true →
  mtype m = nuke →
  authenticatedUser s !! ws = Some u → truthy u = true →
  let s1 := st (on_message tx ws m now s) in
  authenticatedUser s1 !! ws = Some u ∧
  (∀ tx' p now', mtype p = publish_keys →
     on_message tx' ws p now' s1 = Result s1 [] (Some tt)) ∧
  (∀ tx' ws' f now', mtype f = fetch_keys → targetUser f = u →
     out (on_message tx' ws' f now' s1) =
     if sendOk tx' ws' (KeysMissing u (reqId f)) then [(ws', KeysMissing u (reqId f))] else []).
Proof.
  intros _ _ Hk Hu Ht s1.
  assert (authenticatedUser s1 = authenticatedUser s ∧ users (db s1) = delete u (users (db s)))
    as [Ha Hus].
  { subst s1. unfold on_message. rewrite st_try_catch_ret. unfold dispatch.
    rewrite bind_gets, Hk, Hu. unfold handleNuke. rewrite Ht. rewrite !bind_modify.
    rewrite bind_ws_send. by destruct (sendOk _ _ _). }
  split; [by rewrite Ha|]. split.
  - intros tx' p now' Hp. unfold on_message, try_catch, dispatch.
    rewrite bind_gets, Hp, Ha, Hu. unfold handlePublishKeys. rewrite Ht, bind_gets, Hus.
    by rewrite lookup_delete_eq.
  - intros tx' ws' f now' Hf Htarget. rewrite on_message_fetch by done.
    rewrite Htarget, Hus, lookup_delete_eq. done.
Qed.

Lemma file_publish_after_nuke_is_lost_witness :
  let s := run [Message Scenario.healthy 1 (Scenario.File.hello "A") 0] init in
  let s1 := st (on_message Scenario.healthy 1 (Scenario.File.blank nuke) 1 s) in
  let pub := Msg publish_keys EmptyString EmptyString false EmptyString
               (Some "ik") (Some "spk") EmptyString EmptyString in
  on_message Scenario.healthy 1 pub 2 s1 = Result s1 [] (Some tt).
Proof.
  intros s s1 pub.
  destruct (file_publish_after_nuke_is_lost Scenario.healthy 1 (Scenario.File.blank nuke) 1 s "A")
    as (_ & H & _);
    [apply file_plain_run; vm_compute; reflexivity | reflexivity..|].
  by apply H.
Defined.

(** *** join-vault in closed form *)

Lemma handleJoinVault_st tx ws m u s :
  truthy u = true →
  let v := default (Vault [] (if isPrivate m then private else public))
                   (vaults (db s) !! vaultId m) in
  st (handleJoinVault tx ws m (Some u) s) =
  if bool_decide (u ∉ members v) && bool_decide (type v = private)
     && bool_decide (2 ≤ length (members v))
  then s
  else set_vaults <[vaultId m := Vault (if bool_decide (u ∈ members v) then members v
                                        else members v ++ [u]) (type v)]> s.
Proof.
  intros Ht v. unfold handleJoinVault. rewrite Ht. rewrite bind_modify, bind_gets.
  match goal with |- context [set_vaults ?f s] => set (s1 := set_vaults f s) end.
  assert (vaults (db s1) !! vaultId m = Some v) as Hv1.
  { subst s1 v. cbn. destruct (vaults (db s) !! vaultId m) as [v0|] eqn:Hv0; [done|].
    apply lookup_insert_eq. }
  assert (set_vaults <[vaultId m := v]> s = s1) as Hs1.
  { subst s1 v. unfold set_vaults. destruct (vaults (db s) !! vaultId m) as [v0|] eqn:Hv0; cbn.
    - rewrite insert_id by done. by destruct s as [[? ? ?] ? ?].
    - done. }
  rewrite Hv1. cbn [default from_option id]. unfold includes.
  destruct (decide (u ∈ members v)) as [Hin|Hnin].
  - rewrite (bool_decide_eq_true_2 _ Hin).
    rewrite (bool_decide_eq_false_2 (u ∉ members v)) by tauto. cbn [negb andb].
    rewrite bind_ret, join_notify_st. rewrite <- Hs1. by destruct v.
  - rewrite (bool_decide_eq_false_2 _ Hnin), (bool_decide_eq_true_2 (u ∉ members v)) by done.
    cbn [negb andb].
    destruct (bool_decide (type v = private) && bool_decide (2 ≤ length (members v))) eqn:Hfull.
    + rewrite st_ws_send.
      apply andb_true_iff in Hfull as [_ Hlen]. apply bool_decide_eq_true in Hlen.
      subst s1 v. destruct (vaults (db s) !! vaultId m) as [v0|] eqn:Hv0; [|cbn in Hlen; lia].
      by apply (ensure_vault_present s _ v0).
    + rewrite bind_modify, join_notify_st. rewrite <- Hs1. unfold set_vaults. cbn.
      by rewrite insert_insert_eq.
Qed.

Lemma on_message_join_st tx ws m now s u :
  mtype m = join_vault → authenticatedUser s !! ws = Some u → truthy u = true →
  st (on_message tx ws m now s) = st (handleJoinVault tx ws m (Some u) s).
Proof.
  intros Hk Hu Ht. unfold on_message. rewrite st_try_catch_ret. unfold dispatch.
  by rewrite bind_gets, Hk, Hu.
Qed.

(** What one event does to the entry of a vault. *)
Lemma step_vault_entry e s vId :
  match vaults (db (st (step e s))) !! vId, vaults (db s) !! vId with
  | Some v', Some v => type v' = type v ∧ (NoDup (members v) → NoDup (members v'))
  | Some v', None => NoDup (members v')
  | None, _ => True
  end.
Proof.
  assert (∀ s', vaults (db s') = vaults (db s) →
            match vaults (db s') !! vId, vaults (db s) !! vId with
            | Some v', Some v => type v' = type v ∧ (NoDup (members v) → NoDup (members v'))
            | Some v', None => NoDup (members v')
            | None, _ => True
            end) as Hsame.
  { intros s' ->. by destruct (vaults (db s) !! vId). }
  destruct e as [tx ws m now|ws|now]; cbn [step].
  2:{ apply Hsame. unfold on_close. rewrite bind_gets. by destruct (falsy _). }
  2:{ by apply Hsame. }
  unfold on_message. rewrite st_try_catch_ret. unfold dispatch. rewrite bind_gets.
  destruct (mtype m).
  - apply Hsame, handleIdentify_vaults.
  - apply Hsame, handlePublishKeys_vaults.
  - apply Hsame, handleFetchKeys_vaults.
  - destruct (authenticatedUser s !! ws) as [u|]; [|by apply Hsame].
    destruct (truthy u) eqn:Ht; [|apply Hsame; unfold handleJoinVault; by rewrite Ht].
    rewrite handleJoinVault_st by done.
    set (v := default _ _). destruct (_ && _ && _); [by apply Hsame|].
    cbn [db vaults set_vaults].
    destruct (decide (vId = vaultId m)) as [->|Hne].
    + rewrite lookup_insert_eq. subst v.
      destruct (vaults (db s) !! vaultId m) as [v0|]; cbn.
      * split; [done|]. intros Hnd. case_bool_decide as Hin; [done|].
        apply NoDup_app. split_and!; [done| |apply NoDup_singleton].
        intros x Hx Hx'. apply list_elem_of_singleton in Hx'. by subst.
      * case_bool_decide as Hin; [by apply elem_of_nil in Hin|]. apply NoDup_singleton.
    + rewrite lookup_insert_ne by done. by destruct (vaults (db s) !! vId).
  - apply Hsame, handleRelay_vaults.
  - apply Hsame, handleRelay_vaults.
  - unfold handleLeaveVault. destruct (authenticatedUser s !! ws) as [u|]; [|by apply Hsame].
    destruct (truthy u); [|by apply Hsame]. rewrite bind_gets.
    destruct (vaults (db s) !! vaultId m) as [v|] eqn:Hv; [|by apply Hsame].
    case_bool_decide; cbn.
    + destruct (decide (vId = vaultId m)) as [->|Hne]; [by rewrite lookup_delete_eq|].
      rewrite lookup_delete_ne by done. by destruct (vaults (db s) !! vId).
    + destruct (decide (vId = vaultId m)) as [->|Hne].
      * rewrite lookup_insert_eq, Hv. cbn. split; [done|]. apply NoDup_filter.
      * rewrite lookup_insert_ne by done. by destruct (vaults (db s) !! vId).
  - destruct (authenticatedUser s !! ws) as [u|]; [|by apply Hsame].
    destruct (truthy u) eqn:Ht; [|apply Hsame; unfold handleNuke; by rewrite Ht].
    rewrite handleNuke_db by done. cbn. rewrite lookup_fmap.
    destruct (vaults (db s) !! vId) as [v|]; cbn; [|done].
    split; [done|]. apply NoDup_filter.
  - apply Hsame. by rewrite st_ws_send.
  - by apply Hsame.
Qed.

(** X7: in the file relay no vault ever lists a user twice. From a state
    where this holds (the empty start is one) every sequence of messages,
    closes and prunes leads to a state where it holds: a join by a member
    adds nothing, and leave and nuke only take users out. *)
Theorem file_members_stay_distinct evs s0 :
  members_nodup s0 →
  members_nodup (run evs s0) ∧
  ∀ vId v, vaults (db (run evs s0)) !! vId = Some v → NoDup (members v).
Proof.
  intros H0.
  assert (members_nodup (run evs s0)) as Hinv.
  { revert s0 H0. induction evs as [|e evs IH]; intros s0 H0; [done|].
    cbn. apply IH. intros vId v' Hv'.
    pose proof (step_vault_entry e s0 vId) as Hstep. rewrite Hv' in Hstep.
    destruct (vaults (db s0) !! vId) as [v|] eqn:Hv; [|done].
    destruct Hstep as [_ Hnd]. apply Hnd. by apply (H0 vId v). }
  split; [done|]. intros vId v Hv. by apply (Hinv vId v).
Qed.

Lemma file_members_stay_distinct_witness :
  members_nodup (run (Scenario.File.pair_online ++ [Scenario.File.A_rejoins]) init).
Proof.
  apply (file_members_stay_distinct _ init). unfold members_nodup, init. cbn.
  apply map_Forall_empty.
Defined.

(** X8: no event changes the type of a vault that is there before and after
    it. The type a vault got from the join that created it stays until the
    vault is deleted, which only the leave of its last member does; a join
    that declares another type does not alter it. *)
Theorem file_vault_type_fixed e s vId v v' :
  vaults (db s) !! vId = Some v →
  vaults (db (st (step e s))) !! vId = Some v' →
  type v' = type v.
Proof.
  intros Hv Hv'. pose proof (step_vault_entry e s vId) as Hstep.
  rewrite Hv, Hv' in Hstep. by destruct Hstep.
Qed.

Lemma file_vault_type_fixed_witness :
  let s := run Scenario.File.pair_online init in
  let e := Message Scenario.healthy 1 (Scenario.File.join "V1" false) 9 in
  type <$> vaults (db (st (step e s))) !! "V1" = Some private.
Proof.
  intros s e.
  destruct (vaults (db (st (step e s))) !! "V1") as [v'|] eqn:Hv'; [|by vm_compute in Hv'].
  cbn. f_equal.
  apply (file_vault_type_fixed e s "V1" (Vault ["A"; "B"] private) v'); [reflexivity | exact Hv'].
Defined.

(** *** the frames of a join *)

Lemma other_than_snoc u l : other_than u (l ++ [u]) = other_than u l.
Proof.
  unfold other_than. rewrite filter_app, filter_cons, decide_False by tauto.
  by rewrite filter_nil, app_nil_r.
Qed.

Lemma join_notify_loop tx vId u (l : list string) s :
  (∀ c p, sendOk tx c p = true) →
  forEach l (λ o,
    cs ← gets connections;
    match cs !! o with
    | Some sock => if readyOpen tx sock then ws_send tx sock (MemberJoined vId u) else ret tt
    | None => ret tt
    end) s =
  Result s (omap (λ o, match connections s !! o with
                       | Some sock =>
                         if readyOpen tx sock then Some (sock, MemberJoined vId u) else None
                       | None => None
                       end) l) (Some tt).
Proof.
  intros Hok. induction l as [|o l IH]; [done|].
  cbn [forEach omap list_omap]. rewrite bind_eq, bind_gets.
  destruct (connections s !! o) as [sock|]; cbn [ret st out val].
  - destruct (readyOpen tx sock); cbn [ret st out val].
    + rewrite ws_send_ok by done. cbn [st out val]. by rewrite IH.
    + by rewrite IH.
  - by rewrite IH.
Qed.

(** X9: a join-vault that is not refused (the user is a member already, or
    the vault is public, or it has fewer than two members), on sockets that
    do not throw. The member list stays as it is when the user is in it
    and gets the user at its end otherwise; the joiner is sent vault-joined
    with the other members in joining order and the stored type, and every
    other member whose registered socket is open is sent member-joined,
    also when the joiner was a member before. What the message declares
    about the type of a vault that exists is not looked at. This is said of
    a plain state and a vault whose name is an own name. *)
Theorem file_join_notifies tx ws m now s u :
  plain s → own_name (vaultId m) = true →
  mtype m = join_vault →
  authenticatedUser s !! ws = Some u → truthy u = true →
  (∀ c p, sendOk tx c p = true) →
  let v := default (Vault [] (if isPrivate m then private else public))
                   (vaults (db s) !! vaultId m) in
  u ∈ members v ∨ type v = public ∨ length (members v) < 2 →
  let r := on_message tx ws m now s in
  let others := other_than u (members v) in
  vaults (db (st r)) !! vaultId m
    = Some (Vault (if bool_decide (u ∈ members v) then members v else members v ++ [u])
                  (type v)) ∧
  out r = (ws, VaultJoined (vaultId m) others (bool_decide (type v = private))) ::
          omap (λ o, match connections s !! o with
                     | Some sock =>
                       if readyOpen tx sock
                       then Some (sock, MemberJoined (vaultId m) u) else None
                     | None => None
                     end) others.
Proof.
  intros _ _ Hk Hu Ht Hok v Hfree r others.
  assert (bool_decide (u ∉ members v) && bool_decide (type v = private)
          && bool_decide (2 ≤ length (members v)) = false) as Hfull.
  { apply andb_false_iff. destruct Hfree as [Hin|[Hpub|Hlen]].
    - left. apply andb_false_iff. left. apply bool_decide_eq_false. tauto.
    - left. apply andb_false_iff. right. apply bool_decide_eq_false. congruence.
    - right. apply bool_decide_eq_false. lia. }
  split.
  - subst r. rewrite (on_message_join_st tx ws m now s u) by done.
    rewrite handleJoinVault_st by done. fold v. rewrite Hfull. cbn. apply lookup_insert_eq.
  - subst r. unfold on_message. rewrite out_try_catch_ret. unfold dispatch.
    rewrite bind_gets, Hk, Hu. unfold handleJoinVault. rewrite Ht.
    rewrite bind_modify, bind_gets.
    match goal with |- context [set_vaults ?f s] => set (s1 := set_vaults f s) end.
    assert (vaults (db s1) !! vaultId m = Some v) as Hv1.
    { subst s1 v. cbn. destruct (vaults (db s) !! vaultId m) as [v0|] eqn:Hv0; [done|].
      apply lookup_insert_eq. }
    rewrite Hv1. cbn [default from_option id]. unfold includes.
    rewrite <- (bool_decide_not (u ∈ members v)). fold (u ∉ members v). rewrite Hfull.
    rewrite bind_eq.
    destruct (decide (u ∈ members v)) as [Hin|Hnin].
    + rewrite (bool_decide_eq_false_2 (u ∉ members v)) by tauto. cbn [ret st out val app].
      rewrite bind_gets, Hv1. cbn [default from_option id].
      rewrite bind_ws_send, Hok, join_notify_loop by done. done.
    + rewrite (bool_decide_eq_true_2 (u ∉ members v)) by done. cbn [modify st out val app].
      rewrite bind_gets. cbn [db vaults set_vaults]. rewrite lookup_insert_eq.
      cbn [default from_option id members type]. rewrite other_than_snoc.
      rewrite bind_ws_send, Hok, join_notify_loop by done. done.
Qed.

Lemma file_join_notifies_witness :
  let s := run Scenario.File.pair_online init in
  out (on_message Scenario.healthy 1 (Scenario.File.join "V1" true) 9 s)
  = [(1, VaultJoined "V1" ["B"] true); (2, MemberJoined "V1" "A")].
Proof.
  intros s.
  destruct (file_join_notifies Scenario.healthy 1 (Scenario.File.join "V1" true) 9 s "A")
    as [_ H]; [apply file_plain_run; vm_compute; reflexivity | reflexivity..| |].
  - left. vm_compute. apply list_elem_of_here.
  - rewrite H. vm_compute. reflexivity.
Defined.

(** *** relay and the queues *)

(** The loop of [handleRelay] for a send-message, on sockets that do not
    throw and a member list without repetition: a member other than the
    sender gets the packet on its open socket, or at the end of its queue;
    no other queue changes. *)
Lemma handleRelay_loop tx m u now (l : list string) :
  (∀ c p, sendOk tx c p = true) → mtype m = send_message → NoDup l →
  ∀ s,
  let pkt := Packet m u now in
  let r := forEach l (λ r,
             if bool_decide (r = u) then ret tt
             else
               cs ← gets connections;
               match cs !! r with
               | Some socket =>
                 if readyOpen tx socket then ws_send tx socket (Relayed pkt)
                 else if bool_decide (mtype m = send_message)
                      then modify (set_messages (λ q, <[r := default [] (q !! r) ++ [pkt]]> q))
                      else ret tt
               | None =>
                 if bool_decide (mtype m = send_message)
                 then modify (set_messages (λ q, <[r := default [] (q !! r) ++ [pkt]]> q))
                 else ret tt
               end) s in
  val r = Some tt ∧ connections (st r) = connections s ∧
  (∀ x, messages (db (st r)) !! x =
        if bool_decide (x ∈ l ∧ x ≠ u ∧ live tx s x = false)
        then Some (default [] (messages (db s) !! x) ++ [pkt])
        else messages (db s) !! x) ∧
  (∀ x c, x ∈ l → x ≠ u → connections s !! x = Some c → readyOpen tx c = true →
          (c, Relayed pkt) ∈ out r).
Proof.
  intros Hok Hk. rewrite (bool_decide_eq_true_2 _ Hk).
  induction l as [|y l IH]; intros Hnd s; cbv zeta.
  { cbn. split_and!; [done..| |].
    - intros x. rewrite bool_decide_eq_false_2; [done|]. intros [Hx _]. by apply elem_of_nil in Hx.
    - intros x c Hx. by apply elem_of_nil in Hx. }
  apply NoDup_cons in Hnd as [Hy Hnd]. specialize (IH Hnd). cbv zeta in IH.
  set (pkt := Packet m u now) in *.
  cbn [forEach]. rewrite bind_eq.
  (* the round for [y] *)
  assert (∃ s1 o1,
    (if bool_decide (y = u) then ret tt
     else cs ← gets connections;
          match cs !! y with
          | Some socket =>
            if readyOpen tx socket then ws_send tx socket (Relayed pkt)
            else modify (set_messages (λ q, <[y := default [] (q !! y) ++ [pkt]]> q))
          | None => modify (set_messages (λ q, <[y := default [] (q !! y) ++ [pkt]]> q))
          end) s = Result s1 o1 (Some tt) ∧
    connections s1 = connections s ∧
    (∀ x, messages (db s1) !! x =
          if bool_decide (x = y ∧ x ≠ u ∧ live tx s x = false)
          then Some (default [] (messages (db s) !! x) ++ [pkt])
          else messages (db s) !! x) ∧
    (∀ c, y ≠ u → connections s !! y = Some c → readyOpen tx c = true →
          (c, Relayed pkt) ∈ o1)) as (s1 & o1 & -> & Hc1 & Hq1 & Ho1).
  { assert (∀ x, x ≠ y ∨ x = u ∨ live tx s x = true →
              messages (db s) !! x =
              if bool_decide (x = y ∧ x ≠ u ∧ live tx s x = false)
              then Some (default [] (messages (db s) !! x) ++ [pkt])
              else messages (db s) !! x) as Hskip.
    { intros x Hx. rewrite bool_decide_eq_false_2; [done|].
      intros (? & ? & Hl). destruct Hx as [?|[?|Hl']]; [done..|]. congruence. }
    assert (live tx s y = false → y ≠ u →
            ∀ x, messages (db (set_messages
                                 (λ q, <[y := default [] (q !! y) ++ [pkt]]> q) s)) !! x =
                 if bool_decide (x = y ∧ x ≠ u ∧ live tx s x = false)
                 then Some (default [] (messages (db s) !! x) ++ [pkt])
                 else messages (db s) !! x) as Hpush.
    { intros Hl Hne x. cbn. destruct (decide (x = y)) as [->|Hxy].
      - rewrite lookup_insert_eq. by rewrite bool_decide_eq_true_2.
      - rewrite lookup_insert_ne by done. apply Hskip. by left. }
    destruct (decide (y = u)) as [Hyu|Hyu].
    { rewrite (bool_decide_eq_true_2 _ Hyu).
      exists s, []. split_and!; [done..| |done]. intros x. apply Hskip.
      destruct (decide (x = y)) as [->|]; [by right; left | by left]. }
    rewrite (bool_decide_eq_false_2 _ Hyu), bind_gets. destruct (connections s !! y) as [c|] eqn:Hcy.
    - destruct (readyOpen tx c) eqn:Hopen.
      + rewrite ws_send_ok by done. exists s, [(c, Relayed pkt)]. split_and!; [done..| |].
        * intros x. apply Hskip. destruct (decide (x = y)) as [->|]; [|by left].
          right. right. unfold live. by rewrite Hcy.
        * intros c' _ [= <-] _. apply list_elem_of_here.
      + eexists _, []. split_and!; [done..| |].
        * apply Hpush; [|done]. unfold live. by rewrite Hcy.
        * intros c' _ [= <-] ?. congruence.
    - eexists _, []. split_and!; [done..| |].
      + apply Hpush; [|done]. unfold live. by rewrite Hcy.
      + intros c' _ [=]. }
  cbn [st out val]. destruct (IH s1) as (Hv & Hc & Hq & Ho).
  assert (∀ x, live tx s1 x = live tx s x) as Hlive.
  { intros x. unfold live. by rewrite Hc1. }
  split_and!.
  - done.
  - by rewrite Hc.
  - intros x. rewrite Hq, Hlive, !Hq1.
    destruct (decide (x = y)) as [->|Hxy].
    + rewrite (bool_decide_eq_false_2 (y ∈ l ∧ _)) by tauto.
      apply (f_equal (λ b : bool, if b then _ else _)).
      apply bool_decide_ext. split; intros (? & ? & ?); split_and!; auto.
      apply list_elem_of_here.
    + rewrite (bool_decide_eq_false_2 (x = y ∧ _)) by tauto.
      apply (f_equal (λ b : bool, if b then _ else _)).
      apply bool_decide_ext. rewrite elem_of_cons. tauto.
  - intros x c Hx Hne Hcx Hopen. apply elem_of_app.
    apply elem_of_cons in Hx as [->|Hx].
    + left. by apply Ho1.
    + right. apply (Ho x c); [done..| |done]. by rewrite Hc1.
Qed.

Lemma on_message_relay_text tx ws m now s u v :
  mtype m = send_message →
  authenticatedUser s !! ws = Some u → truthy u = true →
  vaults (db s) !! vaultId m = Some v → NoDup (members v) →
  (∀ c p, sendOk tx c p = true) →
  let pkt := Packet m u now in
  let r := on_message tx ws m now s in
  connections (st r) = connections s ∧
  (∀ x, messages (db (st r)) !! x =
        if bool_decide (x ∈ members v ∧ x ≠ u ∧ live tx s x = false)
        then Some (default [] (messages (db s) !! x) ++ [pkt])
        else messages (db s) !! x) ∧
  (∀ x c, x ∈ members v → x ≠ u → connections s !! x = Some c → readyOpen tx c = true →
          (c, Relayed pkt) ∈ out r).
Proof.
  intros Hk Hu Ht Hv Hnd Hok pkt r. subst r. unfold on_message.
  rewrite st_try_catch_ret, out_try_catch_ret. unfold dispatch.
  rewrite bind_gets, Hk, Hu. unfold handleRelay. rewrite Ht, bind_gets, Hv.
  destruct (handleRelay_loop tx m u now (members v) Hok Hk Hnd s) as (_ & Hc & Hq & Ho).
  done.
Qed.

(** X10: in the file relay a send-message reaches a member who is away
    exactly once. On sockets that do not throw and in a vault that lists
    nobody twice, the packet of a send is put at the end of the queue of
    every member other than the sender that has no open registered socket.
    The next identify of such a member on a socket that does not throw
    writes the queue as it was followed by this packet and then the
    identified frame, and leaves the queue empty: an identify after that
    writes the identified frame alone. This is said of a plain state, where
    every member of a vault has an own name. *)
Theorem file_offline_round_trip tx ws m now s u v x :
  plain s → own_name (vaultId m) = true → own_name x = true →
  mtype m = send_message →
  authenticatedUser s !! ws = Some u → truthy u = true →
  vaults (db s) !! vaultId m = Some v → NoDup (members v) →
  (∀ c p, sendOk tx c p = true) →
  x ∈ members v → x ≠ u → live tx s x = false →
  let pkt := Packet m u now in
  let q := default [] (messages (db s) !! x) ++ [pkt] in
  let s1 := st (on_message tx ws m now s) in
  messages (db s1) !! x = Some q ∧
  ∀ tx' ws' i now',
    mtype i = identify → userHash i = x → (∀ c p, sendOk tx' c p = true) →
    let s2 := st (on_message tx' ws' i now' s1) in
    out (on_message tx' ws' i now' s1)
      = ((λ p, (ws', Relayed p)) <$> q) ++ [(ws', Identified x)] ∧
    messages (db s2) !! x = Some [] ∧
    ∀ tx'' ws'' now'',
      out (on_message tx'' ws'' i now'' s2) =
      if sendOk tx'' ws'' (Identified x) then [(ws'', Identified x)] else [].
Proof.
  intros _ _ _ Hk Hu Ht Hv Hnd Hok Hx Hne Hoff pkt q s1.
  destruct (on_message_relay_text tx ws m now s u v Hk Hu Ht Hv Hnd Hok) as (_ & Hq & _).
  assert (messages (db s1) !! x = Some q) as Hq1.
  { subst s1. rewrite Hq. by rewrite bool_decide_eq_true_2. }
  split; [done|]. intros tx' ws' i now' Hi Hxi Hok' s2.
  destruct (on_message_identify tx' ws' i now' s1 Hi) as [Hst Hout].
  assert (forallb (λ p, sendOk tx' ws' (Relayed p)) q = true) as Hall.
  { apply forallb_forall. auto. }
  assert (0 < length q) as Hlen.
  { subst q. rewrite length_app. cbn. lia. }
  assert (out (on_message tx' ws' i now' s1)
            = ((λ p, (ws', Relayed p)) <$> q) ++ [(ws', Identified x)] ∧
          messages (db s2) !! x = Some []) as [Ho2 Hq2].
  { subst s2. rewrite Hst, Hout, handleIdentify_eq. rewrite Hxi, Hq1.
    cbn [default from_option id]. rewrite Hall, Hok'. cbn [st out].
    rewrite (bool_decide_eq_true_2 _ Hlen). split; [done|]. cbn. apply lookup_insert_eq. }
  split; [done|]. split; [done|].
  intros tx'' ws'' now''.
  destruct (on_message_identify tx'' ws'' i now'' s2 Hi) as [_ ->].
  rewrite handleIdentify_eq, Hxi, Hq2. cbn. by destruct (sendOk _ _ _).
Qed.

Lemma file_offline_round_trip_witness :
  let s := run Scenario.File.B_offline init in
  let s1 := st (step Scenario.File.A_sends s) in
  out (step Scenario.File.B_returns s1)
  = [(7, Relayed (Packet (Scenario.File.say send_message "V1" "ct1") "A" 5));
     (7, Identified "B")].
Proof.
  intros s s1.
  destruct (file_offline_round_trip Scenario.healthy 1
              (Scenario.File.say send_message "V1" "ct1") 5 s "A"
              (Vault ["A"; "B"] private) "B") as [_ H];
    [apply file_plain_run; vm_compute; reflexivity | reflexivity | reflexivity
    | reflexivity | reflexivity | reflexivity | reflexivity | | reflexivity | | | reflexivity |].
  - apply NoDup_cons. split; [|apply NoDup_singleton].
    intros H. apply list_elem_of_singleton in H. discriminate.
  - apply list_elem_of_further, list_elem_of_here.
  - discriminate.
  - destruct (H Scenario.healthy 7 (Scenario.File.hello "B") 30%Z) as [Ho _];
      [reflexivity | reflexivity | reflexivity |].
    exact Ho.
Defined.

(** *** leave-vault *)

Lemma handleRelay_queue_of_others tx ws m user now s x :
  (∀ v, vaults (db s) !! vaultId m = Some v → x ∉ members v) →
  messages (db (st (handleRelay tx ws m user now s))) !! x = messages (db s) !! x.
Proof.
  intros Hx. unfold handleRelay. destruct user as [u|]; [|done]. destruct (truthy u); [|done].
  rewrite bind_gets. destruct (vaults (db s) !! vaultId m) as [v|] eqn:Hv; [|done].
  specialize (Hx v eq_refl).
  apply (forEach_st_inv_elem (λ s', messages (db s') !! x = messages (db s) !! x)); [|done].
  intros r s' Hr Hs'. case_bool_decide; [done|]. rewrite bind_gets.
  assert (r ≠ x) as Hrx by (intros ->; done).
  assert (messages (db (set_messages
            (λ q, <[r := default [] (q !! r) ++ [Packet m u now]]> q) s')) !! x
          = messages (db s) !! x) as Hpush.
  { cbn. by rewrite lookup_insert_ne. }
  destruct (connections s' !! r) as [c|].
  - destruct (readyOpen tx c); [by rewrite st_ws_send|]. by case_bool_decide.
  - by case_bool_decide.
Qed.

(** X11: a leave-vault of an identified user is not answered. Afterwards
    the vault does not list the user (it is deleted when nobody is left),
    and no send-message or send-file-chunk addressed to it adds to the
    queue of the user, whoever sends it and whatever the sockets do. *)
Theorem file_leave_stops_queueing tx ws m now s u :
  mtype m = leave_vault →
  authenticatedUser s !! ws = Some u → truthy u = true →
  let s1 := st (on_message tx ws m now s) in
  out (on_message tx ws m now s) = [] ∧
  (∀ v, vaults (db s1) !! vaultId m = Some v → (u ∉ members v) ∧ (members v ≠ [])) ∧
  (∀ tx' ws' m' now',
     mtype m' = send_message ∨ mtype m' = send_file_chunk → vaultId m' = vaultId m →
     messages (db (st (on_message tx' ws' m' now' s1))) !! u = messages (db s1) !! u).
Proof.
  intros Hk Hu Ht s1.
  assert (out (on_message tx ws m now s) = [] ∧
          ∀ v, vaults (db s1) !! vaultId m = Some v → (u ∉ members v) ∧ (members v ≠ []))
    as [Hout Hgone].
  { subst s1. unfold on_message. rewrite st_try_catch_ret, out_try_catch_ret.
    unfold dispatch. rewrite bind_gets, Hk, Hu. unfold handleLeaveVault.
    rewrite Ht, bind_gets. destruct (vaults (db s) !! vaultId m) as [v0|] eqn:Hv0.
    - case_bool_decide as Hlen; cbn.
      + split; [done|]. intros v. by rewrite lookup_delete_eq.
      + split; [done|]. intros v. rewrite lookup_insert_eq. intros [= <-]. cbn.
        split; [apply other_than_excludes|]. intros Hnil. by rewrite Hnil in Hlen.
    - cbn. split; [done|]. intros v. by rewrite Hv0. }
  split; [done|]. split; [done|].
  intros tx' ws' m' now' Hk' Hv'. unfold on_message. rewrite st_try_catch_ret.
  unfold dispatch. rewrite bind_gets.
  assert (messages (db (st (handleRelay tx' ws' m' (authenticatedUser s1 !! ws') now' s1))) !! u
          = messages (db s1) !! u) as H.
  { apply handleRelay_queue_of_others. rewrite Hv'. intros v Hv. by apply Hgone. }
  by destruct Hk' as [-> | ->].
Qed.

Lemma file_leave_stops_queueing_witness :
  let s := run Scenario.File.pair_online init in
  let bye := Msg leave_vault EmptyString "V1" false EmptyString None None EmptyString EmptyString in
  let s1 := st (on_message Scenario.healthy 1 bye 4 s) in
  messages (db (st (on_message Scenario.healthy 2
                      (Scenario.File.say send_message "V1" "ct") 5 s1))) !! "A"
  = messages (db s1) !! "A".
Proof.
  intros s bye s1.
  destruct (file_leave_stops_queueing Scenario.healthy 1 bye 4 s "A") as (_ & _ & H);
    [reflexivity..|].
  apply H; [by left | reflexivity].
Defined.

(** *** pruning *)

(** X12: pruning at time [now] keeps, in every queue and in their order,
    the packets that are less than a week old, and touches nothing else. An
    identify that follows on a socket that does not throw writes exactly
    these packets of the user's queue and then the identified frame. This
    is said of a plain state and an identify under an own name. *)
Theorem file_prune_then_identify now s :
  plain s →
  let young := filter (λ p, (now - ts p < ONE_WEEK)%Z) in
  let s1 := st (pruneOldMessages now s) in
  out (pruneOldMessages now s) = [] ∧
  s1 = set_messages (fmap young) s ∧
  (∀ u p, p ∈ default [] (messages (db s1) !! u) ↔
          p ∈ default [] (messages (db s) !! u) ∧ (now - ts p < ONE_WEEK)%Z) ∧
  ∀ tx ws i now',
    own_name (userHash i) = true →
    mtype i = identify → (∀ c p, sendOk tx c p = true) →
    out (on_message tx ws i now' s1)
    = ((λ p, (ws, Relayed p)) <$> young (default [] (messages (db s) !! userHash i)))
      ++ [(ws, Identified (userHash i))].
Proof.
  intros _ young s1. split; [done|]. split; [done|].
  assert (∀ u, default [] (messages (db s1) !! u) = young (default [] (messages (db s) !! u)))
    as Hq.
  { intros u. subst s1. cbn. rewrite lookup_fmap.
    by destruct (messages (db s) !! u). }
  split.
  - intros u p. rewrite Hq. subst young. cbn. rewrite list_elem_of_filter. tauto.
  - intros tx ws i now' _ Hi Hok.
    destruct (on_message_identify tx ws i now' s1 Hi) as [_ ->].
    rewrite handleIdentify_eq. cbv zeta. rewrite Hq.
    replace (forallb _ _) with true by (symmetry; apply forallb_forall; auto).
    cbn [out]. by rewrite Hok.
Qed.

Lemma file_prune_then_identify_witness :
  let s := run (Scenario.File.B_offline ++ [Scenario.File.A_sends]) init in
  let week := (7 * 24 * 60 * 60 * 1000)%Z in
  out (on_message Scenario.healthy 7 (Scenario.File.hello "B") (week + 6)
         (st (pruneOldMessages (week + 5) s)))
  = [(7, Identified "B")].
Proof.
  intros s week.
  destruct (file_prune_then_identify (week + 5) s) as (_ & _ & _ & H);
    [apply file_plain_run; vm_compute; reflexivity|].
  rewrite (H Scenario.healthy 7 (Scenario.File.hello "B") (week + 6)%Z eq_refl eq_refl
             (λ _ _, eq_refl)).
  vm_compute. reflexivity.
Defined.

(** *** plain states *)

(** In a plain state every name is an own name: no handler stores a name
    that did not come with the message or was not stored before. *)
Lemma file_names_own_queue r (q : list packet) s :
  names_own s → own_name r = true → names_own (set_messages <[r := q]> s).
Proof.
  intros (Hu & Hm & Hv & Ha) Hr. split_and!; [done| |done|done].
  intros u. cbn. destruct (decide (u = r)) as [->|Hne]; [done|].
  rewrite lookup_insert_ne by done. apply Hm.
Qed.

Lemma file_step_names e s :
  names_own s → plain_event e = true → names_own (st (step e s)).
Proof.
  intros Hs He. pose proof Hs as (Hu & Hm & Hv & Ha).
  destruct e as [tx ws m now|ws|now]; cbn [step].
  2:{ unfold on_close. rewrite bind_gets. by destruct (falsy _). }
  2:{ split_and!; [done| |done|done]. intros u. cbn. rewrite lookup_fmap, fmap_is_Some. apply Hm. }
  cbn in He. apply andb_true_iff in He as [He Ht]. apply andb_true_iff in He as [Hh Hvid].
  unfold on_message. rewrite st_try_catch_ret. unfold dispatch. rewrite bind_gets.
  destruct (mtype m).
  - (* identify *)
    rewrite handleIdentify_eq. cbv zeta.
    set (s1 := set_users _ _).
    assert (names_own s1) as H1.
    { subst s1. split_and!; cbn.
      - intros u. destruct (users (db s) !! userHash m) eqn:Hx; [apply Hu|].
        destruct (decide (u = userHash m)) as [->|Hne]; [done|].
        rewrite lookup_insert_ne by done. apply Hu.
      - done.
      - done.
      - intros ws' u. destruct (decide (ws' = ws)) as [->|Hne].
        + rewrite lookup_insert_eq. by intros [= <-].
        + rewrite lookup_insert_ne by done. apply Ha. }
    destruct (forallb _ _); cbn [st]; [|done].
    case_bool_decide; [|done]. by apply file_names_own_queue.
  - (* publish-keys *)
    unfold handlePublishKeys. destruct (authenticatedUser s !! ws) as [u|] eqn:Hau; [|done].
    destruct (truthy u); [|done]. rewrite bind_gets.
    destruct (users (db s) !! u) eqn:Hx; [|done].
    split_and!; [|done..]. intros u'. cbn.
    destruct (decide (u' = u)) as [->|Hne]; [intros _; by apply (Ha ws)|].
    rewrite lookup_insert_ne by done. apply Hu.
  - (* fetch-keys *)
    unfold handleFetchKeys. rewrite bind_gets.
    destruct (users (db s) !! targetUser m); by rewrite st_ws_send.
  - (* join-vault *)
    destruct (authenticatedUser s !! ws) as [u|] eqn:Hau; [|done].
    destruct (truthy u) eqn:Htr; [|unfold handleJoinVault; by rewrite Htr].
    rewrite handleJoinVault_st by done.
    set (v := default _ _). destruct (_ && _ && _); [done|].
    assert (Forall (λ x, own_name x = true) (members v)) as Hmv.
    { subst v. destruct (vaults (db s) !! vaultId m) as [v0|] eqn:Hv0; cbn; [|done].
      by apply (Hv _ _ Hv0). }
    split_and!; [done|done| |done].
    intros vId v'. cbn. destruct (decide (vId = vaultId m)) as [->|Hne].
    + rewrite lookup_insert_eq. intros [= <-]. split; [done|]. cbn.
      case_bool_decide; [done|]. apply Forall_app. split; [done|].
      apply Forall_singleton. by apply (Ha ws).
    + rewrite lookup_insert_ne by done. apply Hv.
  - (* send-message *)
    unfold handleRelay. destruct (authenticatedUser s !! ws) as [u|]; [|done].
    destruct (truthy u); [|done]. rewrite bind_gets.
    destruct (vaults (db s) !! vaultId m) as [v|] eqn:Hv0; [|done].
    apply (forEach_st_inv_elem names_own); [|done].
    intros r s' Hr Hs'. case_bool_decide; [done|]. rewrite bind_gets.
    assert (own_name r = true) as Hro.
    { destruct (Hv _ _ Hv0) as [_ Hall]. by apply (proj1 (Forall_forall _ _) Hall). }
    destruct (connections s' !! r) as [c|].
    + destruct (readyOpen tx c); [by rewrite st_ws_send|].
      case_bool_decide; [|done]. by apply file_names_own_queue.
    + case_bool_decide; [|done]. by apply file_names_own_queue.
  - unfold handleRelay. destruct (authenticatedUser s !! ws) as [u|]; [|done].
    destruct (truthy u); [|done]. rewrite bind_gets.
    destruct (vaults (db s) !! vaultId m) as [v|] eqn:Hv0; [|done].
    apply (forEach_st_inv_elem names_own); [|done].
    intros r s' Hr Hs'. case_bool_decide; [done|]. rewrite bind_gets.
    assert (own_name r = true) as Hro.
    { destruct (Hv _ _ Hv0) as [_ Hall]. by apply (proj1 (Forall_forall _ _) Hall). }
    destruct (connections s' !! r) as [c|].
    + destruct (readyOpen tx c); [by rewrite st_ws_send|].
      case_bool_decide; [|done]. by apply file_names_own_queue.
    + case_bool_decide; [|done]. by apply file_names_own_queue.
  - (* leave-vault *)
    unfold handleLeaveVault. destruct (authenticatedUser s !! ws) as [u|]; [|done].
    destruct (truthy u); [|done]. rewrite bind_gets.
    destruct (vaults (db s) !! vaultId m) as [v|] eqn:Hv0; [|done].
    case_bool_decide; cbn [modify st].
    + split_and!; [done|done| |done]. intros vId v'. cbn.
      destruct (decide (vId = vaultId m)) as [->|Hne]; [by rewrite lookup_delete_eq|].
      rewrite lookup_delete_ne by done. apply Hv.
    + split_and!; [done|done| |done]. intros vId v'. cbn.
      destruct (decide (vId = vaultId m)) as [->|Hne].
      * rewrite lookup_insert_eq. intros [= <-]. split; [done|]. cbn.
        apply Forall_forall. intros x Hx. apply list_elem_of_filter in Hx as [_ Hx].
        destruct (Hv _ _ Hv0) as [_ Hall]. by apply (proj1 (Forall_forall _ _) Hall).
      * rewrite lookup_insert_ne by done. apply Hv.
  - (* nuke *)
    unfold handleNuke. destruct (authenticatedUser s !! ws) as [u|]; [|done].
    destruct (truthy u); [|done]. rewrite !bind_modify, bind_ws_send.
    assert (names_own (set_users (delete u) (set_messages (delete u)
              (set_vaults (fmap (λ v, Vault (other_than u (members v)) (type v))) s)))) as H1.
    { split_and!; cbn.
      - intros u'. destruct (decide (u' = u)) as [->|Hne].
        + rewrite lookup_delete_eq. by intros [? ?].
        + rewrite lookup_delete_ne by done. apply Hu.
      - intros u'. destruct (decide (u' = u)) as [->|Hne].
        + rewrite lookup_delete_eq. by intros [? ?].
        + rewrite lookup_delete_ne by done. apply Hm.
      - intros vId v'. rewrite lookup_fmap.
        destruct (vaults (db s) !! vId) as [v0|] eqn:Hv0; [|done]. cbn. intros [= <-].
        destruct (Hv _ _ Hv0) as [Hk Hall]. split; [done|]. cbn.
        apply Forall_forall. intros x Hx. apply list_elem_of_filter in Hx as [_ Hx].
        by apply (proj1 (Forall_forall _ _) Hall).
      - done. }
    by destruct (sendOk _ _ _).
  - by rewrite st_ws_send.
  - done.
Qed.

Lemma file_run_names evs s :
  names_own s → forallb plain_event evs = true → names_own (run evs s).
Proof.
  revert s. induction evs as [|e evs IH]; intros s Hs Hev; [done|].
  cbn in Hev. apply andb_true_iff in Hev as [He Hev].
  cbn. apply IH; [|done]. by apply file_step_names.
Qed.

Lemma file_plain_names s : plain s → names_own s.
Proof.
  intros (evs & Hev & ->). apply file_run_names; [|done].
  split_and!; cbn; try (intros ? [? H]; by rewrite lookup_empty in H).
  - intros ? ?. by rewrite lookup_empty.
  - intros ? ?. by rewrite lookup_empty.
Qed.

End FileRelayMore.

(** ********************************************************************* *)
(** ** More on the better-sqlite3 relay (src/unnamed/part_000)            *)
(** ********************************************************************* *)
Section SqlRelayMore.
Import SqlRelay.
Implicit Types (s : server) (tx : transport frame) (m : msg) (ws : conn).

(** *** what the handlers leave alone *)

Lemma foldl_mark (l : list message_row) s :
  foldl (λ s x, set_messages (mark (id x)) s) s l =
  set_messages (λ rows, foldl (λ acc i, mark i acc) rows (id <$> l)) s.
Proof.
  revert s. induction l as [|r l IH]; intros s; cbn.
  - by destruct s.
  - rewrite IH. by destruct s.
Qed.

(** The loops of identify and send write frames and set [delivered]
    columns. *)
Lemma sql_identify_st tx ws m now s :
  ∃ ids, st (on_identify tx ws m now s) =
         set_messages (λ rows, foldl (λ acc i, mark i acc) rows ids)
           (set_connections <[userHash m := ws]>
              (st (updateUserLastSeen (userHash m) now
                 (st (addUserIfNotExists (userHash m) now
                    (set_currentUserId <[ws := userHash m]> s)))))) ∧
         ids = id <$> take (length (accepted tx ws
                              (message_frame <$> getUndeliveredMessagesForUser (userHash m) s)))
                           (getUndeliveredMessagesForUser (userHash m) s).
Proof.
  eexists. split; [|reflexivity].
  unfold on_identify.
  unfold addUserIfNotExists, updateUserLastSeen, markMessageDelivered.
  rewrite !bind_modify, bind_gets, st_then_send. rewrite forEach_send_modify. cbn [st modify].
  match goal with |- context [getUndeliveredMessagesForUser (userHash m) ?x] =>
    change (getUndeliveredMessagesForUser (userHash m) x)
      with (getUndeliveredMessagesForUser (userHash m) s) end.
  apply foldl_mark.
Qed.

Lemma sql_join_st tx ws m now s :
  st (on_join_vault tx ws m now s) =
  let s1 := st (addVaultIfNotExists (vaultId m) (if isPrivate m then private else public) now s) in
  if isPrivate m && bool_decide (2 ≤ getVaultMemberCount (vaultId m) s)
  then s1
  else st (addMemberToVault (vaultId m) (userHash m) now s1).
Proof.
  unfold on_join_vault, addVaultIfNotExists, addMemberToVault.
  rewrite bind_modify, bind_eq. destruct (isPrivate m); cbn [andb].
  - rewrite (bool_decide_eq_true_2 (private = private)) by done.
    rewrite bind_gets. cbn [ret st out val].
    change (getVaultMemberCount (vaultId m) (set_vaults _ s))
      with (getVaultMemberCount (vaultId m) s).
    destruct (bool_decide (2 ≤ getVaultMemberCount (vaultId m) s)).
    + by rewrite st_ws_send.
    + rewrite bind_modify. by rewrite st_ws_send.
  - rewrite (bool_decide_eq_false_2 (public = private)) by done.
    cbn [ret st out val]. rewrite bind_modify. by rewrite st_ws_send.
Qed.

Lemma deliver_to_st tx uuid sender vId blob t y s :
  st (deliver_to tx uuid sender vId blob t y s) = s ∨
  st (deliver_to tx uuid sender vId blob t y s) = set_messages (mark uuid) s.
Proof.
  unfold deliver_to. case_bool_decide; [by left|]. rewrite bind_gets.
  destruct (connections s !! y) as [w|]; [|by left].
  destruct (readyOpen tx w); [|by left].
  unfold markMessageDelivered. rewrite bind_ws_send.
  destruct (sendOk _ _ _); cbn; auto.
Qed.

(** The state a send leaves: untouched when the generated id clashes with a
    stored one, and otherwise the new row appended, with or without its
    [delivered] column set. *)
Lemma sql_send_st tx ws m uuid s :
  let row := MessageRow uuid (vaultId m) (from m) (msg_ts m) (blob m) false in
  let s' := st (on_send tx ws m uuid s) in
  s' = s ∨
  (¬ Exists (λ r, id r = uuid) (messages s) ∧
   (s' = set_messages (λ rows, rows ++ [row]) s ∨
    s' = set_messages (λ rows, mark uuid (rows ++ [row])) s)).
Proof.
  intros row s'. subst s'. unfold on_send. rewrite st_then_send.
  unfold deliverMessageToVaultMembers. rewrite bind_gets.
  destruct (decide (Exists (λ r, id r = uuid) (messages s))) as [Hclash|Hfresh].
  { left. unfold queueMessage. rewrite bind_eq, bind_gets.
    by rewrite (bool_decide_eq_true_2 _ Hclash). }
  right. split; [done|].
  rewrite bind_eq, queueMessage_fresh by done. cbn [st out val]. fold row.
  set (s0 := set_messages (λ rows, rows ++ [row]) s).
  assert (set_messages (mark uuid) s0 = set_messages (λ rows, mark uuid (rows ++ [row])) s)
    as <- by done.
  clearbody s0.
  apply (forEach_st_inv (λ s', s' = s0 ∨ s' = set_messages (mark uuid) s0)); [|by left].
  intros y s' [-> | ->].
  - apply deliver_to_st.
  - right. destruct (deliver_to_st tx uuid (from m) (vaultId m) (blob m) (msg_ts m) y
                       (set_messages (mark uuid) s0)) as [-> | ->]; [done|].
    destruct s0. unfold set_messages.
    cbn [messages vaults vault_members users connections currentUserId].
    by rewrite mark_idemp.
Qed.

Lemma sql_nuke_st ws m s :
  st (on_nuke ws m s) = set_vault_members (filter (λ r, user_id r ≠ userHash m)) s.
Proof. unfold on_nuke. by rewrite bind_modify. Qed.

Lemma sql_close_st ws now s :
  vaults (st (on_close ws now s)) = vaults s ∧
  vault_members (st (on_close ws now s)) = vault_members s ∧
  messages (st (on_close ws now s)) = messages s.
Proof.
  unfold on_close. rewrite bind_gets. destruct (falsy _); [done|].
  unfold updateUserLastSeen. by rewrite !bind_modify.
Qed.

(** *** the key of the membership table *)

Lemma members_key_sublist (l l' : list member_row) :
  l' `sublist_of` l →
  NoDup ((λ r, (vault_id r, user_id r)) <$> l) →
  NoDup ((λ r, (vault_id r, user_id r)) <$> l').
Proof. intros Hsub Hnd. eapply sublist_NoDup; [exact Hnd|]. by apply fmap_sublist. Qed.

Lemma sql_step_members_key e s : members_key s → members_key (st (step e s)).
Proof.
  unfold members_key. intros Hs. destruct e as [tx ws|tx ws m now uuid|ws now]; cbn [step].
  - by rewrite st_ws_send.
  - unfold on_message. destruct (mtype m).
    + destruct (sql_identify_st tx ws m now s) as (ids & -> & _).
      unfold addUserIfNotExists, updateUserLastSeen. done.
    + rewrite sql_join_st. unfold addVaultIfNotExists, addMemberToVault. cbn.
      destruct (_ && _); [done|]. cbn.
      case_bool_decide as Hex; [done|].
      rewrite fmap_app. apply NoDup_app. split_and!; [done| |apply NoDup_singleton].
      intros k Hk Hk'. apply list_elem_of_singleton in Hk'. subst k.
      apply list_elem_of_fmap in Hk as (r & [= H1 H2] & Hr).
      apply Hex, Exists_exists. exists r. auto.
    + unfold on_leave_vault, removeMemberFromVault. rewrite bind_modify, st_ws_send. cbn.
      eapply members_key_sublist; [|exact Hs]. apply sublist_filter.
    + destruct (sql_send_st tx ws m uuid s) as [-> | (_ & [-> | ->])]; done.
    + rewrite sql_nuke_st. cbn.
      eapply members_key_sublist; [|exact Hs]. apply sublist_filter.
    + by rewrite st_ws_send.
    + done.
  - destruct (sql_close_st ws now s) as (_ & -> & _). done.
Qed.

(** X13: the better-sqlite3 relay keeps the primary key of its membership
    table. From a state without two rows for the same vault and user (the
    empty start is one), every sequence of connections, messages and closes
    leads to such a state, so [getVaultMembers] lists nobody twice and the
    member count of a vault counts users. *)
Theorem sql_member_rows_unique evs s0 :
  members_key s0 →
  members_key (run evs s0) ∧
  ∀ vId, NoDup (getVaultMembers vId (run evs s0)).
Proof.
  intros H0.
  assert (members_key (run evs s0)) as Hinv.
  { revert s0 H0. induction evs as [|e evs IH]; intros s0 H0; [done|].
    cbn. apply IH. by apply sql_step_members_key. }
  split; [done|]. intros vId. unfold getVaultMembers.
  unfold members_key in Hinv.
  assert (NoDup ((λ r, (vault_id r, user_id r)) <$>
                   filter (λ r, vault_id r = vId) (vault_members (run evs s0)))) as Hf.
  { eapply members_key_sublist; [|exact Hinv]. apply sublist_filter. }
  revert Hf. generalize (vault_members (run evs s0)). intros l.
  induction l as [|r l IH]; [constructor|].
  rewrite filter_cons. destruct (decide (vault_id r = vId)) as [Hr|]; [|exact IH].
  rewrite !fmap_cons, !NoDup_cons. intros [Hnin Hnd]. split; [|by apply IH].
  intros Hin. apply Hnin. apply list_elem_of_fmap in Hin as (r' & Hu & Hr').
  apply list_elem_of_fmap. exists r'. split; [|done].
  apply list_elem_of_filter in Hr' as [Hv' _]. by rewrite Hr, Hv', Hu.
Qed.

Lemma sql_member_rows_unique_witness :
  NoDup (getVaultMembers "V1"
           (run (Scenario.Sql.private_pair ++ [Scenario.Sql.C_joins_as_public;
                                               Scenario.Sql.C_joins_as_public]) init)).
Proof.
  apply (sql_member_rows_unique _ init). unfold members_key. cbn. constructor.
Defined.

(** *** vault rows *)

Lemma sql_step_vaults e s vId row :
  vaults s !! vId = Some row → vaults (st (step e s)) !! vId = Some row.
Proof.
  intros Hv. destruct e as [tx ws|tx ws m now uuid|ws now]; cbn [step].
  - by rewrite st_ws_send.
  - unfold on_message. destruct (mtype m).
    + destruct (sql_identify_st tx ws m now s) as (ids & -> & _).
      unfold addUserIfNotExists, updateUserLastSeen. done.
    + rewrite sql_join_st. unfold addVaultIfNotExists, addMemberToVault. cbn.
      assert (match vaults s !! vaultId m with
              | Some _ => vaults s
              | None => <[vaultId m := VaultRow (if isPrivate m then private else public) now]>
                          (vaults s)
              end !! vId = Some row) as H.
      { destruct (vaults s !! vaultId m) eqn:Hm; [done|].
        rewrite lookup_insert_ne; [done|]. intros Heq. rewrite Heq in Hm. congruence. }
      by destruct (_ && _).
    + unfold on_leave_vault, removeMemberFromVault. by rewrite bind_modify, st_ws_send.
    + destruct (sql_send_st tx ws m uuid s) as [-> | (_ & [-> | ->])]; done.
    + by rewrite sql_nuke_st.
    + by rewrite st_ws_send.
    + done.
  - destruct (sql_close_st ws now s) as (-> & _). done.
Qed.

(** X14: in the better-sqlite3 relay a vault row is written once. Whatever
    happens after the join that created it, the row keeps its type and
    creation time: a join that declares another type does not alter it, and
    neither a leave of the last member nor a nuke deletes it. So
    [vaultExists] stays true and [getVaultType] keeps returning the type
    the first join declared. *)
Theorem sql_vault_rows_never_change evs s vId row :
  vaults s !! vId = Some row →
  vaults (run evs s) !! vId = Some row ∧
  vaultExists vId (run evs s) = true ∧
  getVaultType vId (run evs s) = Some (v_type row).
Proof.
  intros Hv.
  assert (vaults (run evs s) !! vId = Some row) as Hrow.
  { revert s Hv. induction evs as [|e evs IH]; intros s Hv; [done|].
    cbn. apply IH. by apply sql_step_vaults. }
  split; [done|]. unfold vaultExists, getVaultType. rewrite Hrow. split; [|done].
  by apply bool_decide_eq_true_2.
Qed.

Lemma sql_vault_rows_never_change_witness :
  let s := run Scenario.Sql.private_pair init in
  getVaultType "V1" (run [Scenario.Sql.C_joins_as_public;
                          Message Scenario.healthy 1 Scenario.Sql.B_wipes 3 EmptyString] s)
  = Some private.
Proof.
  intros s.
  destruct (sql_vault_rows_never_change
              [Scenario.Sql.C_joins_as_public;
               Message Scenario.healthy 1 Scenario.Sql.B_wipes 3 EmptyString]
              s "V1" (VaultRow private 0)) as (_ & _ & H); [reflexivity|].
  exact H.
Defined.

(** *** message rows *)

Lemma same_message_refl r : same_message r r.
Proof. by unfold same_message. Qed.

Lemma same_message_trans r1 r2 r3 :
  same_message r1 r2 → same_message r2 r3 → same_message r1 r3.
Proof. unfold same_message. intros (?&?&?&?&?&?) (?&?&?&?&?&?). split_and!; try congruence. auto. Qed.

Lemma keeps_messages_refl s s' : messages s' = messages s → keeps_messages s s'.
Proof. intros Hm r Hr. exists r. rewrite Hm. split; [done | apply same_message_refl]. Qed.

Lemma keeps_messages_trans s1 s2 s3 :
  keeps_messages s1 s2 → keeps_messages s2 s3 → keeps_messages s1 s3.
Proof.
  intros H12 H23 r Hr. destruct (H12 r Hr) as (r2 & Hr2 & Hs2).
  destruct (H23 r2 Hr2) as (r3 & Hr3 & Hs3). exists r3. split; [done|].
  by eapply same_message_trans.
Qed.

(** Setting [delivered] columns keeps every row. *)
Lemma keeps_messages_set (f : message_row → bool) s s' :
  messages s' = (λ r, if f r then MessageRow (id r) (m_vault_id r) (sender_id r) (ts r)
                                             (json r) true
                      else r) <$> messages s →
  keeps_messages s s'.
Proof.
  intros Hm r Hr. eexists. split.
  - rewrite Hm. apply list_elem_of_fmap. exists r. split; [reflexivity | done].
  - destruct (f r); [|apply same_message_refl]. by unfold same_message.
Qed.

Lemma keeps_messages_marks ids s s' :
  messages s' = foldl (λ acc i, mark i acc) (messages s) ids → keeps_messages s s'.
Proof.
  revert s. induction ids as [|i ids IH]; intros s Hm; [by apply keeps_messages_refl|].
  cbn in Hm. apply (keeps_messages_trans s (set_messages (mark i) s)).
  - by apply (keeps_messages_set (λ r, bool_decide (id r = i))).
  - by apply IH.
Qed.

Lemma keeps_messages_app rows s s' :
  messages s' = messages s ++ rows → keeps_messages s s'.
Proof.
  intros Hm r Hr. exists r. rewrite Hm. split; [|apply same_message_refl].
  apply elem_of_app. by left.
Qed.

Lemma sql_step_keeps_messages e s : keeps_messages s (st (step e s)).
Proof.
  destruct e as [tx ws|tx ws m now uuid|ws now]; cbn [step].
  - rewrite st_ws_send. by apply keeps_messages_refl.
  - unfold on_message. destruct (mtype m).
    + destruct (sql_identify_st tx ws m now s) as (ids & -> & _).
      by apply (keeps_messages_marks ids).
    + rewrite sql_join_st. unfold addVaultIfNotExists, addMemberToVault. cbn.
      apply keeps_messages_refl. by destruct (_ && _).
    + unfold on_leave_vault, removeMemberFromVault. rewrite bind_modify, st_ws_send.
      by apply keeps_messages_refl.
    + destruct (sql_send_st tx ws m uuid s) as [-> | (_ & [-> | ->])].
      * by apply keeps_messages_refl.
      * by eapply keeps_messages_app.
      * apply (keeps_messages_trans s
                 (set_messages (λ rows, rows ++ [MessageRow uuid (vaultId m) (from m) (msg_ts m)
                                                            (blob m) false]) s)).
        -- by eapply keeps_messages_app.
        -- by apply (keeps_messages_set (λ r, bool_decide (id r = uuid))).
    + rewrite sql_nuke_st. by apply keeps_messages_refl.
    + rewrite st_ws_send. by apply keeps_messages_refl.
    + by apply keeps_messages_refl.
  - destruct (sql_close_st ws now s) as (_ & _ & Hm). by apply keeps_messages_refl.
Qed.

(** X15: the better-sqlite3 relay never deletes a message row. A row that
    is stored stays stored through every sequence of events, with its id,
    vault, sender, timestamp and blob; a nuke changes no message row, and
    a [delivered] column that is set stays set. *)
Theorem sql_message_rows_never_deleted evs s r :
  r ∈ messages s →
  ∃ r', r' ∈ messages (run evs s) ∧
        id r' = id r ∧ m_vault_id r' = m_vault_id r ∧ sender_id r' = sender_id r ∧
        ts r' = ts r ∧ json r' = json r ∧ (delivered r = true → delivered r' = true).
Proof.
  assert (keeps_messages s (run evs s)) as H.
  { revert s. induction evs as [|e evs IH]; intros s; [by apply keeps_messages_refl|].
    cbn. eapply keeps_messages_trans; [apply sql_step_keeps_messages | apply IH]. }
  intros Hr. destruct (H r Hr) as (r' & Hr' & Hsame). by exists r'.
Qed.

Lemma sql_message_rows_never_deleted_witness :
  let s := st (step Scenario.Sql.A_sends_to_pair (run Scenario.Sql.private_pair init)) in
  let wipe u := Message Scenario.healthy 1 (Msg nuke u EmptyString false EmptyString EmptyString 0)
                  3 EmptyString in
  ∃ r', r' ∈ messages (run [wipe "A"; wipe "B"] s) ∧ id r' = "m-2" ∧ json r' = "ct1".
Proof.
  intros s wipe.
  destruct (sql_message_rows_never_deleted [wipe "A"; wipe "B"] s
              (MessageRow "m-2" "V1" "A" 2 "ct1" true)) as (r' & Hr' & Hid & _ & _ & _ & Hj & _).
  - vm_compute. apply list_elem_of_here.
  - exists r'. auto.
Defined.

(** *** join and leave *)

(** X16: in the better-sqlite3 relay a join-vault followed by the
    leave-vault of the same user and vault puts the membership table back
    as it was, whether the join was accepted or refused, provided the user
    had no row for the vault. Neither message needs an identify, and the
    leave is always answered with leave-ack. *)
Theorem sql_join_then_leave tx ws j now uuid tx' ws' l now' uuid' s :
  mtype j = join_vault → mtype l = leave_vault →
  vaultId l = vaultId j → userHash l = userHash j →
  ¬ Exists (λ r, vault_id r = vaultId j ∧ user_id r = userHash j) (vault_members s) →
  let s1 := st (on_message tx ws j now uuid s) in
  let r := on_message tx' ws' l now' uuid' s1 in
  vault_members (st r) = vault_members s ∧
  (∀ row, row ∈ vault_members (st r) →
          ¬ (vault_id row = vaultId j ∧ user_id row = userHash j)) ∧
  out r = if sendOk tx' ws' (LeaveAck (vaultId j)) then [(ws', LeaveAck (vaultId j))] else [].
Proof.
  intros Hj Hl Hv Hu Hnew s1 r.
  assert (vault_members s1 = vault_members s ∨
          vault_members s1 = vault_members s ++ [MemberRow (vaultId j) (userHash j) now])
    as Hs1.
  { subst s1. unfold on_message. rewrite Hj, sql_join_st.
    unfold addVaultIfNotExists, addMemberToVault. cbn.
    destruct (_ && _); [by left|]. cbn. case_bool_decide; [by left | by right]. }
  assert (vault_members (st r) = vault_members s) as Hback.
  { subst r. unfold on_message. rewrite Hl. unfold on_leave_vault, removeMemberFromVault.
    rewrite bind_modify, st_ws_send, Hv, Hu. cbn.
    assert (filter (λ r, ¬ (vault_id r = vaultId j ∧ user_id r = userHash j)) (vault_members s)
            = vault_members s) as Hkeep.
    { apply filter_all. apply Forall_forall. intros row Hrow Hkey.
      apply Hnew, Exists_exists. by exists row. }
    destruct Hs1 as [-> | ->]; [done|].
    rewrite filter_app, Hkeep, filter_cons, decide_False by (cbn; tauto).
    by rewrite filter_nil, app_nil_r. }
  split; [done|]. split.
  - rewrite Hback. intros row Hrow Hkey. apply Hnew, Exists_exists. by exists row.
  - subst r. unfold on_message. rewrite Hl. unfold on_leave_vault, removeMemberFromVault.
    rewrite bind_modify, Hv. unfold ws_send. by destruct (sendOk _ _ _).
Qed.

Lemma sql_join_then_leave_witness :
  let s := run Scenario.Sql.private_pair init in
  let leave := Msg leave_vault "C" "V1" false EmptyString EmptyString 0 in
  vault_members (st (on_message Scenario.healthy 3 leave 2 EmptyString
                       (st (step Scenario.Sql.C_joins_as_public s))))
  = vault_members s.
Proof.
  intros s leave.
  destruct (sql_join_then_leave Scenario.healthy 3 (Scenario.Sql.join "V1" "C" false) 1 EmptyString
              Scenario.healthy 3 leave 2 EmptyString s) as [H _];
    [reflexivity | reflexivity | reflexivity | reflexivity | | exact H].
  apply (bool_decide_eq_false_1 _). vm_compute. reflexivity.
Defined.

(** X17: the better-sqlite3 relay never refuses a join-vault that does not
    declare the vault private. It is answered with join-ack and the user
    is a member afterwards, also when the vault is stored as private and
    has two members or more; the stored vault row is not changed. *)
Theorem sql_public_join_never_refused tx ws m now uuid s :
  mtype m = join_vault → isPrivate m = false →
  let r := on_message tx ws m now uuid s in
  out r = (if sendOk tx ws (JoinAck (vaultId m)) then [(ws, JoinAck (vaultId m))] else []) ∧
  userHash m ∈ getVaultMembers (vaultId m) (st r) ∧
  (∀ row, vaults s !! vaultId m = Some row → vaults (st r) !! vaultId m = Some row).
Proof.
  intros Hk Hp r. subst r. split_and!.
  - unfold on_message. rewrite Hk. unfold on_join_vault, addVaultIfNotExists, addMemberToVault.
    rewrite Hp. rewrite bind_modify, bind_eq.
    rewrite (bool_decide_eq_false_2 (public = private)) by done.
    cbn [ret st out val app]. rewrite bind_modify.
    unfold ws_send. by destruct (sendOk _ _ _).
  - unfold on_message. rewrite Hk, sql_join_st, Hp. cbn [andb].
    unfold addVaultIfNotExists, addMemberToVault, getVaultMembers. cbn.
    apply list_elem_of_fmap.
    case_bool_decide as Hex.
    + apply Exists_exists in Hex as (row & Hrow & Hv & Hu). exists row. split; [done|].
      by apply list_elem_of_filter.
    + exists (MemberRow (vaultId m) (userHash m) now). split; [done|].
      apply list_elem_of_filter. split; [done|]. apply elem_of_app. right. apply list_elem_of_here.
  - intros row Hrow.
    apply (sql_step_vaults (Message tx ws m now uuid) s (vaultId m) row Hrow).
Qed.

Lemma sql_public_join_never_refused_witness :
  let s := run Scenario.Sql.private_pair init in
  out (step Scenario.Sql.C_joins_as_public s) = [(3, JoinAck "V1")] ∧
  vaults (st (step Scenario.Sql.C_joins_as_public s)) !! "V1" = Some (VaultRow private 0).
Proof.
  intros s.
  destruct (sql_public_join_never_refused Scenario.healthy 3 (Scenario.Sql.join "V1" "C" false)
              1 EmptyString s) as (Ho & _ & Hv); [reflexivity | reflexivity |].
  split; [exact Ho | by apply Hv].
Defined.

(** *** identify twice *)

Lemma marks_elem ids : ∀ rows r,
  r ∈ foldl (λ acc i, mark i acc) rows ids →
  ∃ r0, r0 ∈ rows ∧ id r = id r0 ∧ m_vault_id r = m_vault_id r0 ∧
        (delivered r = false → delivered r0 = false ∧ id r0 ∉ ids).
Proof.
  induction ids as [|i ids IH]; intros rows r Hr.
  { exists r. split_and!; [done..|]. intros Hd. split; [done|]. apply not_elem_of_nil. }
  cbn in Hr. apply IH in Hr as (r1 & Hr1 & Hid & Hv & Hd).
  unfold mark in Hr1. apply list_elem_of_fmap in Hr1 as (r0 & -> & Hr0).
  exists r0. split; [done|]. case_bool_decide as Hi; cbn in *.
  - split_and!; [done..|]. intros Hf. by destruct (Hd Hf).
  - split_and!; [done..|]. intros Hf. destruct (Hd Hf) as [? Hnin]. split; [done|].
    rewrite not_elem_of_cons. split; [done|]. done.
Qed.

Lemma join_rows_elem u s r v :
  r ∈ messages s → v ∈ vault_members s →
  m_vault_id r = vault_id v → user_id v = u → delivered r = false →
  r ∈ join_rows u s.
Proof.
  intros Hr Hv Hm Hu Hd. unfold join_rows.
  apply list_elem_of_bind. exists r. split; [|done].
  apply list_elem_of_bind. exists v. split; [|done].
  rewrite (bool_decide_eq_true_2 _ Hm), (bool_decide_eq_true_2 _ Hu), Hd. cbn.
  apply list_elem_of_here.
Qed.

(** X18: in the better-sqlite3 relay an identify on a socket that takes
    every frame leaves nothing to deliver to that user. Every row the drain
    query returned has its [delivered] column set, the query returns
    nothing for the user in the state reached, and an identify of the same
    user that comes next is answered with the identify-ack alone. *)
Theorem sql_identify_drains_once tx ws m now uuid s :
  mtype m = identify → (∀ p, sendOk tx ws p = true) →
  let u := userHash m in
  let s1 := st (on_message tx ws m now uuid s) in
  (∀ r, r ∈ getUndeliveredMessagesForUser u s →
        ∀ r', r' ∈ messages s1 → id r' = id r → delivered r' = true) ∧
  getUndeliveredMessagesForUser u s1 = [] ∧
  (∀ tx' ws' m' now' uuid',
     mtype m' = identify → userHash m' = u →
     out (on_message tx' ws' m' now' uuid' s1) =
     if sendOk tx' ws' (IdentifyAck u) then [(ws', IdentifyAck u)] else []).
Proof.
  intros Hk Hok u s1.
  set (rows := getUndeliveredMessagesForUser u s).
  assert (messages s1 = foldl (λ acc i, mark i acc) (messages s) (id <$> rows) ∧
          vault_members s1 = vault_members s) as [Hm Hvm].
  { subst s1. unfold on_message. rewrite Hk.
    destruct (sql_identify_st tx ws m now s) as (ids & -> & ->). fold u rows.
    rewrite accepted_all by (apply forallb_forall; auto).
    rewrite length_fmap, firstn_all.
    unfold addUserIfNotExists, updateUserLastSeen. done. }
  assert (∀ r', r' ∈ messages s1 → delivered r' = false → id r' ∉ id <$> rows) as Hleft.
  { intros r' Hr' Hd. rewrite Hm in Hr'.
    apply marks_elem in Hr' as (r0 & _ & -> & _ & H). by destruct (H Hd). }
  assert (getUndeliveredMessagesForUser u s1 = []) as Hnone.
  { apply elem_of_nil_inv. intros r Hr.
    apply undelivered_elem in Hr as (Hr & Hd & v & Hv & Hvr & Hvu).
    rewrite Hm in Hr. apply marks_elem in Hr as (r0 & Hr0 & Hid & Hvid & H).
    destruct (H Hd) as [Hd0 Hnin]. apply Hnin.
    apply list_elem_of_fmap. exists r0. split; [done|].
    subst rows. rewrite undelivered_perm. rewrite Hvm in Hv.
    apply (join_rows_elem u s r0 v); [done..|congruence|done|done]. }
  split_and!.
  - intros r Hr r' Hr' Hid. destruct (delivered r') eqn:Hd; [done|].
    exfalso. apply (Hleft r' Hr' Hd). rewrite Hid. apply list_elem_of_fmap. by exists r.
  - done.
  - intros tx' ws' m' now' uuid' Hk' Hu'. unfold on_message. rewrite Hk'.
    rewrite sql_on_identify_out, Hu'. fold u. rewrite Hnone. cbn.
    by destruct (sendOk _ _ _).
Qed.

Lemma sql_identify_drains_once_witness :
  let s := st (step Scenario.Sql.A_sends
                 (run (Scenario.Sql.group_of_three ++ [Close 2 1]) init)) in
  let s1 := st (on_message Scenario.healthy 9 (Scenario.Sql.hello "B") 7 EmptyString s) in
  out (on_message Scenario.healthy 9 (Scenario.Sql.hello "B") 7 EmptyString s)
    = [(9, MessageFrame "G" "ct1" "A" "m-1" 5); (9, IdentifyAck "B")] ∧
  out (on_message Scenario.healthy 9 (Scenario.Sql.hello "B") 8 EmptyString s1)
    = [(9, IdentifyAck "B")].
Proof.
  intros s s1. split; [vm_compute; reflexivity|].
  destruct (sql_identify_drains_once Scenario.healthy 9 (Scenario.Sql.hello "B") 7 EmptyString s)
    as (_ & _ & H); [reflexivity | reflexivity |].
  exact (H Scenario.healthy 9 (Scenario.Sql.hello "B") 8%Z EmptyString eq_refl eq_refl).
Defined.

End SqlRelayMore.

(** ********************************************************************* *)
(** ** More on the sqlite3 relay (src/unnamed/part_001)                   *)
(** ********************************************************************* *)
Section AsyncSqlRelayMore.
Import AsyncSqlRelay.
Implicit Types (s : server) (tx : transport frame) (m : msg) (ws : conn).

Lemma async_identify_messages tx ws m s :
  messages (st (on_identify tx ws m s)) = messages s.
Proof.
  unfold on_identify. rewrite !bind_modify.
  match goal with |- context [set_clients ?f (set_userId ?g s)] =>
    change (messages s) with (messages (set_clients f (set_userId g s)));
    generalize (set_clients f (set_userId g s)) end.
  intros s1.
  apply (st_bind_inv (λ s', messages s' = messages s1)).
  { apply (forEach_st_inv (λ s', messages s' = messages s1)); [|done].
    intros v s' Hs'. unfold addToLiveVault, insertVaultMember. by rewrite bind_modify. }
  intros _ s2 Hs2.
  apply (st_bind_inv (λ s', messages s' = messages s1)).
  { unfold deliverOfflineMessages. rewrite bind_gets.
    apply (forEach_st_inv (λ s', messages s' = messages s1)); [|done].
    intros row s' Hs'. apply (st_bind_inv (λ s', messages s' = messages s1)); [|done].
    by rewrite st_sendToUser. }
  intros _ s3 Hs3. apply (st_bind_inv (λ s', messages s' = messages s1)); [|done].
  by rewrite st_sendToUser.
Qed.

(** X19: the sqlite3 relay keeps what it delivers. An identify does not
    change the stored messages, so on open sockets that do not throw, an
    identify that is repeated with the same vault list (by the same user or
    by anyone else) is sent the same message frames again, in the same
    order, before its identify-ack. *)
Theorem async_identify_redelivers tx ws m now uuid s :
  mtype m = identify → readyOpen tx ws = true → (∀ p, sendOk tx ws p = true) →
  let rows := stored_for (msg_vaults m) s in
  let s1 := st (on_message tx ws m now uuid s) in
  messages s1 = messages s ∧
  out (on_message tx ws m now uuid s)
    = ((λ row, (ws, row_frame row)) <$> rows) ++ [(ws, IdentifyAck)] ∧
  ∀ tx' ws' m' now' uuid',
    mtype m' = identify → msg_vaults m' = msg_vaults m →
    readyOpen tx' ws' = true → (∀ p, sendOk tx' ws' p = true) →
    out (on_message tx' ws' m' now' uuid' s1)
    = ((λ row, (ws', row_frame row)) <$> rows) ++ [(ws', IdentifyAck)].
Proof.
  intros Hk Hopen Hok rows s1.
  assert (messages s1 = messages s) as Hm.
  { subst s1. unfold on_message. rewrite bind_gets, Hk. apply async_identify_messages. }
  split; [done|]. split.
  - by apply (async_drain_sorted tx ws m now uuid s Hk Hopen).
  - intros tx' ws' m' now' uuid' Hk' Hvs Hopen' Hok'.
    destruct (async_drain_sorted tx' ws' m' now' uuid' s1 Hk' Hopen') as (_ & _ & H).
    rewrite H by done. unfold rows, stored_for. by rewrite Hvs, Hm.
Qed.

Lemma async_identify_redelivers_witness :
  let s := AsyncSqlRelay.run Scenario.Async.B_nukes init in
  let s1 := st (step Scenario.Async.B_identifies_again s) in
  out (step Scenario.Async.B_identifies_again s1)
  = [(2, MessageFrame "V" "A" "ct1" 7); (2, IdentifyAck)].
Proof.
  intros s s1.
  destruct (async_identify_redelivers Scenario.healthy 2 (Scenario.Async.hello "B" ["V"])
              9 EmptyString s) as (_ & _ & H); [reflexivity..|].
  etrans; [exact (H Scenario.healthy 2 (Scenario.Async.hello "B" ["V"]) 9%Z EmptyString
                    eq_refl eq_refl eq_refl (λ _, eq_refl)) |].
  vm_compute. reflexivity.
Defined.

(** *** send *)

Lemma sendToUser_eq tx (u : string) (p : frame) s :
  (∀ c q, sendOk tx c q = true) →
  sendToUser tx (Some u) p s =
  match clients s !! u with
  | Some sock => if readyOpen tx sock then Result s [(sock, p)] (Some true)
                 else Result s [] (Some false)
  | None => Result s [] (Some false)
  end.
Proof.
  intros Hok. unfold sendToUser. rewrite bind_gets. cbn [mbind option_bind].
  destruct (clients s !! u) as [sock|]; [|done].
  destruct (readyOpen tx sock); [|done]. by rewrite bind_ws_send, Hok.
Qed.

Lemma broadcast_loop tx (p : frame) (except : string) (l : list string) s :
  (∀ c q, sendOk tx c q = true) →
  forEach l (λ uid, if bool_decide (uid = except) then ret tt
                    else sendToUser tx (Some uid) p;; ret tt) s =
  Result s (omap (λ uid, if bool_decide (uid = except) then None
                         else match clients s !! uid with
                              | Some sock => if readyOpen tx sock then Some (sock, p) else None
                              | None => None
                              end) l) (Some tt).
Proof.
  intros Hok. induction l as [|uid l IH]; [done|].
  cbn [forEach omap list_omap]. rewrite bind_eq.
  case_bool_decide; cbn [ret st out val].
  - by rewrite IH.
  - rewrite bind_eq, sendToUser_eq by done.
    destruct (clients s !! uid) as [sock|]; cbn [ret st out val].
    + destruct (readyOpen tx sock); cbn [ret st out val]; by rewrite IH.
    + by rewrite IH.
Qed.

(** X20: a send in the sqlite3 relay, on sockets that do not throw and with
    a fresh row id. The message is stored with the sender name the message
    gives and the server's clock; the frame carrying the timestamp of the
    message goes to the users of the live set of the vault other than that
    sender name whose registered socket is open; and the send-ack, with the
    id the client chose, goes to the socket registered for that sender
    name, which need not be the socket the send came from, and to nobody
    when no open socket is registered for it. *)
Theorem async_send_routing tx ws m now uuid s u :
  mtype m = send → userId s !! ws = Some u → truthy u = true →
  ¬ Exists (λ r, id r = uuid) (messages s) →
  (∀ c p, sendOk tx c p = true) →
  let r := on_message tx ws m now uuid s in
  let packet := MessageFrame (vaultId m) (from m) (blob m) (msg_ts m) in
  messages (st r) = messages s ++ [MessageRow uuid (vaultId m) (from m) (blob m) now] ∧
  out r =
    omap (λ uid, if bool_decide (uid = from m) then None
                 else match clients s !! uid with
                      | Some sock => if readyOpen tx sock then Some (sock, packet) else None
                      | None => None
                      end) (default [] (liveVaultMap s !! vaultId m))
    ++ match clients s !! from m with
       | Some sock => if readyOpen tx sock then [(sock, SendAck (msg_id m))] else []
       | None => []
       end.
Proof.
  intros Hk Hu Ht Hfresh Hok r packet. subst r.
  unfold on_message. rewrite bind_gets, Hk, Hu. unfold on_send. cbn [falsy]. rewrite Ht.
  cbn [negb]. fold packet. unfold storeMessage.
  rewrite bind_eq, bind_gets, (bool_decide_eq_false_2 _ Hfresh). cbn [modify st out val app].
  set (s1 := set_messages _ s).
  assert (∃ o, broadcastToVault tx (vaultId m) packet (from m) s1 = Result s1 o (Some tt) ∧
               o = omap (λ uid, if bool_decide (uid = from m) then None
                                else match clients s !! uid with
                                     | Some sock =>
                                       if readyOpen tx sock then Some (sock, packet) else None
                                     | None => None
                                     end) (default [] (liveVaultMap s !! vaultId m)))
    as (o & Hb & ->).
  { unfold broadcastToVault. rewrite bind_gets. cbn [liveVaultMap set_messages s1].
    destruct (liveVaultMap s !! vaultId m) as [members|]; [|by eexists].
    eexists. split; [by apply broadcast_loop | done]. }
  rewrite bind_eq, Hb. cbn [st out val].
  rewrite bind_eq, sendToUser_eq by done. cbn [clients set_messages s1].
  destruct (clients s !! from m) as [sock|]; cbn [ret st out val].
  - destruct (readyOpen tx sock); cbn [ret st out val]; by rewrite ?app_nil_r.
  - by rewrite ?app_nil_r.
Qed.

Lemma async_send_routing_witness :
  let s := AsyncSqlRelay.run [ Message Scenario.healthy 1 (Scenario.Async.hello "A" ["V"]) 0 EmptyString;
                 Message Scenario.healthy 2 (Scenario.Async.hello "B" ["V"]) 0 EmptyString;
                 Message Scenario.healthy 3 (Scenario.Async.hello "C" ["V"]) 0 EmptyString ] init in
  out (on_message Scenario.healthy 3 (Scenario.Async.say "V" "A" "ct1") 7 "m-1" s)
  = [(2, MessageFrame "V" "A" "ct1" 0); (3, MessageFrame "V" "A" "ct1" 0); (1, SendAck "c-1")].
Proof.
  intros s.
  destruct (async_send_routing Scenario.healthy 3 (Scenario.Async.say "V" "A" "ct1") 7 "m-1" s "C")
    as [_ H]; [reflexivity | reflexivity | reflexivity | | reflexivity |].
  - apply (bool_decide_eq_false_1 _). vm_compute. reflexivity.
  - rewrite H. vm_compute. reflexivity.
Defined.

(** X21: what the sqlite3 relay stored for a vault is delivered to whoever
    identifies with that vault in the list. After a send with a fresh row
    id, an identify on an open socket that does not throw, by any user who
    names the vault of the send (the sender included, a user with no
    membership row included), is sent a frame with the stored blob and
    sender and the server's clock at the time of the send. *)
Theorem async_stored_message_reaches_identify tx ws m now uuid s u :
  mtype m = send → userId s !! ws = Some u → truthy u = true →
  ¬ Exists (λ r, id r = uuid) (messages s) →
  let s1 := st (on_message tx ws m now uuid s) in
  ∀ tx' ws' i now' uuid',
    mtype i = identify → vaultId m ∈ msg_vaults i →
    readyOpen tx' ws' = true → (∀ p, sendOk tx' ws' p = true) →
    (ws', MessageFrame (vaultId m) (from m) (blob m) now)
      ∈ out (on_message tx' ws' i now' uuid' s1).
Proof.
  intros Hk Hu Ht Hfresh s1 tx' ws' i now' uuid' Hi Hv Hopen Hok.
  assert (MessageRow uuid (vaultId m) (from m) (blob m) now ∈ messages s1) as Hrow.
  { subst s1. unfold on_message. rewrite bind_gets, Hk, Hu. unfold on_send. cbn [falsy].
    rewrite Ht. cbn [negb]. unfold storeMessage.
    rewrite bind_eq, bind_gets, (bool_decide_eq_false_2 _ Hfresh). cbn [modify st out val].
    match goal with |- context [set_messages ?f s] => set (s0 := set_messages f s) end.
    assert (MessageRow uuid (vaultId m) (from m) (blob m) now ∈ messages s0) as H0.
    { subst s0. cbn. apply elem_of_app. right. apply list_elem_of_here. }
    revert H0. generalize s0. intros s0' H0.
    apply (st_bind_inv (λ s', _ ∈ messages s')).
    - unfold broadcastToVault. rewrite bind_gets.
      destruct (liveVaultMap s0' !! vaultId m) as [members|]; [|done].
      apply (forEach_st_inv (λ s', _ ∈ messages s')); [|done].
      intros uid s' Hs'. case_bool_decide; [done|].
      apply (st_bind_inv (λ s', _ ∈ messages s')); [|done]. by rewrite st_sendToUser.
    - intros _ s' Hs'. apply (st_bind_inv (λ s', _ ∈ messages s')); [|done].
      by rewrite st_sendToUser. }
  destruct (async_drain_sorted tx' ws' i now' uuid' s1 Hi Hopen) as (_ & _ & H).
  rewrite H by done. apply elem_of_app. left.
  apply list_elem_of_fmap.
  exists (MessageRow uuid (vaultId m) (from m) (blob m) now). split; [done|].
  unfold stored_for. rewrite merge_sort_Permutation.
  apply list_elem_of_filter. split; [done|exact Hrow].
Qed.

Lemma async_stored_message_reaches_identify_witness :
  let s := st (step (Message Scenario.healthy 1 (Scenario.Async.hello "A" ["V"]) 0 EmptyString)
                 init) in
  let s1 := st (on_message Scenario.healthy 1 (Scenario.Async.say "V" "A" "ct1") 7 "m-1" s) in
  (1, MessageFrame "V" "A" "ct1" 7)
    ∈ out (on_message Scenario.healthy 1 (Scenario.Async.hello "A" ["V"]) 9 EmptyString s1).
Proof.
  intros s s1.
  apply (async_stored_message_reaches_identify Scenario.healthy 1
           (Scenario.Async.say "V" "A" "ct1") 7 "m-1" s "A");
    [reflexivity | reflexivity | reflexivity | | reflexivity | | reflexivity | reflexivity].
  - apply (bool_decide_eq_false_1 _). vm_compute. reflexivity.
  - apply list_elem_of_here.
Defined.

End AsyncSqlRelayMore.

(** ********************************************************************* *)
(** ** More on the in-memory relay (src/unnamed/part_001)                 *)
(** ********************************************************************* *)
Section MemRelayMore.
Import MemRelay.
Implicit Types (s : server) (tx : transport frame) (m : msg) (ws : conn).

(** *** stored queues and member sets *)

Lemma tidy_addVaultMember vId u s : tidy s → tidy (st (addVaultMember vId u s)).
Proof.
  intros [Hq Hv]. split; [done|]. cbn. apply map_Forall_insert_2; [|done].
  split; [apply set_add_nonempty|]. apply set_add_NoDup.
  destruct (vaultMembers s !! vId) as [l|] eqn:Hl; [|constructor].
  by destruct (map_Forall_lookup_1 _ _ _ _ Hv Hl).
Qed.

Lemma tidy_removeVaultMember vId u s : tidy s → tidy (st (removeVaultMember vId u s)).
Proof.
  intros [Hq Hv]. split; [done|]. cbn.
  destruct (vaultMembers s !! vId) as [l|] eqn:Hl; [|done].
  case_bool_decide as Hlen.
  - by apply map_Forall_delete.
  - apply map_Forall_insert_2; [|done]. split.
    + intros Hnil. by rewrite Hnil in Hlen.
    + apply set_delete_NoDup. by destruct (map_Forall_lookup_1 _ _ _ _ Hv Hl).
Qed.

Lemma tidy_addToQueue u d s : tidy s → tidy (st (addToQueue u d s)).
Proof.
  intros [Hq Hv]. split; [|done]. cbn. apply map_Forall_insert_2; [|done].
  by destruct (default [] _).
Qed.

Lemma tidy_relay tx me d members : ∀ delivered s,
  tidy s → tidy (st (relay tx me d members delivered s)).
Proof.
  induction members as [|y l IH]; intros delivered s Hs; [done|].
  cbn [relay]. case_bool_decide; [by apply IH|]. rewrite bind_gets.
  destruct (connections s !! y) as [w|].
  - destruct (readyOpen tx w).
    + rewrite bind_ws_send. destruct (sendOk _ _ _); cbn [st]; [by apply IH | done].
    + rewrite bind_eq. cbn [addToQueue modify st out val]. apply IH.
      by apply (tidy_addToQueue y d s).
  - rewrite bind_eq. cbn [addToQueue modify st out val]. apply IH.
    by apply (tidy_addToQueue y d s).
Qed.

Lemma mem_step_tidy e s : tidy s → tidy (st (step e s)).
Proof.
  intros Hs. destruct e as [tx ws|tx ws m now msgId|ws|now]; cbn [step].
  - by rewrite st_ws_send.
  - unfold on_message. destruct (mtype m).
    + unfold on_identify. rewrite !bind_modify.
      match goal with |- context [set_connections ?f (set_sessions ?g s)] =>
        assert (tidy (set_connections f (set_sessions g s))) as Hs1 by exact Hs;
        generalize dependent (set_connections f (set_sessions g s)) end.
      intros s1 Hs1. apply (st_bind_inv tidy).
      { destruct (msg_vaults m) as [vs|]; [|done].
        apply (forEach_st_inv tidy); [|done]. intros vId s' Hs'. rewrite bind_modify.
        by apply tidy_addVaultMember. }
      intros _ s2 Hs2. apply (st_bind_inv tidy).
      { unfold getAndClearQueue. rewrite bind_gets, bind_modify. cbn.
        destruct Hs2 as [Hq Hv]. split; [|done]. by apply map_Forall_delete. }
      intros q s3 Hs3. apply (st_bind_inv tidy).
      { apply (forEach_st_inv tidy); [|done]. intros d s' Hs'. by rewrite st_ws_send. }
      intros _ s4 Hs4. by rewrite st_ws_send.
    + unfold on_join_vault. rewrite bind_gets. destruct (falsy _); [done|].
      rewrite bind_modify. apply (st_bind_inv tidy); [by apply tidy_addVaultMember|].
      intros _ s' Hs'. by rewrite st_ws_send.
    + unfold on_send. rewrite bind_gets. destruct (falsy _); [done|].
      rewrite bind_gets. apply (st_bind_inv tidy); [by apply tidy_relay|].
      intros b s' Hs'. by rewrite st_ws_send.
    + unfold on_nuke. rewrite bind_gets. destruct (falsy _); [done|].
      rewrite bind_modify. apply (st_bind_inv tidy).
      { apply (forEach_st_inv tidy).
        - intros vId s' Hs'. by apply tidy_removeVaultMember.
        - destruct Hs as [Hq Hv]. split; [|done]. by apply map_Forall_delete. }
      intros _ s' Hs'. rewrite bind_modify. apply (st_bind_inv tidy); [|done].
      by rewrite st_ws_send.
    + unfold on_leave_vault. rewrite bind_gets. destruct (falsy _); [done|].
      rewrite bind_modify. apply (st_bind_inv tidy); [by apply tidy_removeVaultMember|].
      intros _ s' Hs'. by rewrite st_ws_send.
    + by rewrite st_ws_send.
    + done.
  - unfold on_close. rewrite bind_gets. by destruct (falsy _).
  - destruct Hs as [Hq Hv]. split; [|done]. cbn.
    intros u q Hu. apply map_lookup_filter_Some in Hu as [_ Hne]. exact Hne.
Qed.

(** X22: the in-memory relay stores no empty queue and no empty member set,
    and no member set lists a user twice. From a state where this holds
    (the empty start is one) every sequence of connections, messages,
    closes and sweeps leads to such a state: [getAndClearQueue] and the
    sweep delete a queue instead of leaving it empty, and
    [removeVaultMember] deletes the set of a vault with its last member. *)
Theorem mem_stored_maps_stay_tidy evs s0 :
  tidy s0 →
  let s := run evs s0 in
  (∀ u q, messageQueue s !! u = Some q → q ≠ []) ∧
  (∀ v l, vaultMembers s !! v = Some l → l ≠ [] ∧ NoDup l).
Proof.
  intros H0 s.
  assert (tidy s) as [Hq Hv].
  { subst s. revert s0 H0. induction evs as [|e evs IH]; intros s0 H0; [done|].
    cbn. apply IH. by apply mem_step_tidy. }
  split.
  - intros u q Hu. by apply (Hq u q).
  - intros v l Hl. by apply (Hv v l).
Qed.

Lemma mem_stored_maps_stay_tidy_witness :
  let s := run (Scenario.Mem.out_of_order ++ [Scenario.Mem.B_returns]) init in
  ["A"; "B"; "C"] ≠ [] ∧ NoDup ["A"; "B"; "C"].
Proof.
  intros s.
  destruct (mem_stored_maps_stay_tidy
              (Scenario.Mem.out_of_order ++ [Scenario.Mem.B_returns]) init) as [_ H].
  - split; cbn; apply map_Forall_empty.
  - apply (H "V1"). reflexivity.
Defined.

(** *** the sweep *)

(** X23: the hourly sweep of the in-memory relay at time [now] keeps, in
    every queue and in their order, the envelopes that are less than seven
    days old, and deletes the queues that become empty. An identify that
    follows on a socket that does not throw writes exactly the envelopes of
    the user's queue that the sweep kept, and then the identify-ack. *)
Theorem mem_sweep_then_identify now s :
  let young := filter (λ d, (now - q_ts d < MESSAGE_RETENTION)%Z) in
  let s1 := st (sweep now s) in
  (∀ u, default [] (messageQueue s1 !! u) = young (default [] (messageQueue s !! u))) ∧
  (∀ u q, messageQueue s1 !! u = Some q → q ≠ []) ∧
  vaultMembers s1 = vaultMembers s ∧ connections s1 = connections s ∧
  ∀ tx ws i now' msgId,
    mtype i = identify → (∀ p, sendOk tx ws p = true) →
    out (on_message tx ws i now' msgId s1)
    = ((λ d, (ws, MessageFrame d)) <$> young (default [] (messageQueue s !! userHash i)))
      ++ [(ws, IdentifyAck (userHash i))].
Proof.
  intros young s1.
  assert (∀ u, default [] (messageQueue s1 !! u) = young (default [] (messageQueue s !! u)))
    as Hq.
  { intros u. subst s1. cbn.
    destruct (messageQueue s !! u) as [q|] eqn:Hu; cbn.
    - destruct (young q) as [|d q'] eqn:Hy.
      + rewrite (proj2 (map_lookup_filter_None _ _ _)); [done|].
        right. intros q0 Hq0. rewrite lookup_fmap, Hu in Hq0. injection Hq0 as <-.
        cbn. fold young. rewrite Hy. tauto.
      + rewrite (map_lookup_filter_Some_2 _ _ _ (d :: q')); [done| |done].
        rewrite lookup_fmap, Hu. cbn. fold young. by rewrite Hy.
    - rewrite (proj2 (map_lookup_filter_None _ _ _)); [done|].
      left. by rewrite lookup_fmap, Hu. }
  split_and!; [done| |done|done|].
  - intros u q Hu. subst s1. cbn in Hu. by apply map_lookup_filter_Some in Hu as [_ Hne].
  - intros tx ws i now' msgId Hi Hok.
    destruct (mem_identify_drain tx ws i now' msgId s1 Hi) as (_ & _ & H).
    rewrite H by done. by rewrite Hq.
Qed.

Lemma mem_sweep_then_identify_witness :
  let s := run Scenario.Mem.out_of_order init in
  let week := (7 * 24 * 60 * 60 * 1000)%Z in
  out (on_message Scenario.healthy 4 (Scenario.Mem.hello "B") (week + 16) EmptyString
         (st (sweep (week + 15) s)))
  = [(4, MessageFrame (MessageData "V1" "late" "A" "id-1" 20)); (4, IdentifyAck "B")].
Proof.
  intros s week.
  destruct (mem_sweep_then_identify (week + 15) s) as (_ & _ & _ & _ & H).
  etrans; [exact (H Scenario.healthy 4 (Scenario.Mem.hello "B") (week + 16)%Z EmptyString
                    eq_refl (λ _, eq_refl)) |].
  vm_compute. reflexivity.
Defined.

(** *** nuke *)

Lemma remove_loop u (l : list string) : ∀ s v,
  getVaultMembers v (foldl (λ s vId, st (removeVaultMember vId u s)) s l) =
  if bool_decide (v ∈ l) then set_delete u (getVaultMembers v s) else getVaultMembers v s.
Proof.
  induction l as [|y l IH]; intros s v; [done|].
  cbn [foldl]. rewrite IH.
  assert (∀ v', getVaultMembers v' (st (removeVaultMember y u s)) =
                if bool_decide (v' = y) then set_delete u (getVaultMembers v' s)
                else getVaultMembers v' s) as Hone.
  { intros v'. unfold getVaultMembers. cbn.
    case_bool_decide as Hv; [subst v'|].
    - destruct (vaultMembers s !! y) as [ms|] eqn:Hy; [|by rewrite Hy].
      case_bool_decide as Hlen.
      + rewrite lookup_delete_eq. cbn. symmetry. by apply nil_length_inv.
      + by rewrite lookup_insert_eq.
    - destruct (vaultMembers s !! y) as [ms|] eqn:Hy; [|done].
      case_bool_decide; [by rewrite lookup_delete_ne | by rewrite lookup_insert_ne]. }
  rewrite Hone. destruct (decide (v = y)) as [->|Hne].
  - rewrite (bool_decide_eq_true_2 (y = y)) by done.
    rewrite (bool_decide_eq_true_2 (y ∈ y :: l)) by apply list_elem_of_here.
    case_bool_decide; [apply set_delete_idemp | done].
  - rewrite (bool_decide_eq_false_2 (v = y)) by done.
    apply (f_equal (λ b : bool, if b then _ else _)). apply bool_decide_ext.
    rewrite elem_of_cons. tauto.
Qed.

(** X24: what a nuke removes in the in-memory relay. The queue of the user
    and the registry entry are deleted, and the user is taken out of the
    vaults recorded on this connection (by identify or join-vault on it);
    the other members of those vaults stay. A vault that is not recorded on
    this connection keeps its member set as it is, the user included. *)
Theorem mem_nuke_scope tx ws m now msgId s u :
  mtype m = nuke →
  currentUserId (session_of ws s) = Some u → truthy u = true →
  let s1 := st (on_message tx ws m now msgId s) in
  messageQueue s1 !! u = None ∧ connections s1 !! u = None ∧
  (∀ v, getVaultMembers v s1 =
        if bool_decide (v ∈ userVaults (session_of ws s))
        then set_delete u (getVaultMembers v s) else getVaultMembers v s) ∧
  (∀ v, v ∈ userVaults (session_of ws s) → u ∉ getVaultMembers v s1).
Proof.
  intros Hk Hu Ht s1.
  assert (messageQueue s1 = delete u (messageQueue s) ∧
          connections s1 = delete u (connections s) ∧
          ∀ v, getVaultMembers v s1 =
               getVaultMembers v (foldl (λ s vId, st (removeVaultMember vId u s)) s
                                        (userVaults (session_of ws s)))) as (Hq & Hc & Hv).
  { subst s1. unfold on_message. rewrite Hk. unfold on_nuke.
    rewrite bind_gets, Hu. cbn [falsy]. rewrite Ht. cbn [negb default from_option id].
    rewrite bind_modify, bind_eq.
    rewrite (forEach_silent _ _ (λ vId s, st (removeVaultMember vId u s))) by done.
    cbn [st out val]. rewrite bind_modify, bind_ws_send.
    match goal with |- context [foldl ?f ?a ?l] => set (s2 := foldl f a l) end.
    assert (messageQueue s2 = delete u (messageQueue s) ∧ connections s2 = connections s ∧
            ∀ v, getVaultMembers v s2 =
                 getVaultMembers v (foldl (λ s vId, st (removeVaultMember vId u s)) s
                                          (userVaults (session_of ws s)))) as (H1 & H2 & H3).
    { subst s2. generalize (userVaults (session_of ws s)). intros l.
      assert (∀ a b, messageQueue a = delete u (messageQueue b) →
                     connections a = connections b → vaultMembers a = vaultMembers b →
                messageQueue (foldl (λ s vId, st (removeVaultMember vId u s)) a l)
                  = delete u (messageQueue b) ∧
                connections (foldl (λ s vId, st (removeVaultMember vId u s)) a l)
                  = connections b ∧
                vaultMembers (foldl (λ s vId, st (removeVaultMember vId u s)) a l)
                  = vaultMembers (foldl (λ s vId, st (removeVaultMember vId u s)) b l)) as Hgen.
      { induction l as [|y l IH]; intros a b Ha Hb Hab; [done|].
        cbn [foldl]. destruct (IH (st (removeVaultMember y u a)) (st (removeVaultMember y u b)))
          as (G1 & G2 & G3); cbn; [done|done|by rewrite Hab|].
        cbn in G1, G2. done. }
      destruct (Hgen (set_messageQueue (delete u) s) s) as (G1 & G2 & G3); [done..|].
      split_and!; [done..|]. intros v. unfold getVaultMembers. by rewrite G3. }
    destruct (sendOk _ _ _); cbn; rewrite ?H1, ?H2; done. }
  split_and!.
  - rewrite Hq. apply lookup_delete_eq.
  - rewrite Hc. apply lookup_delete_eq.
  - intros v. rewrite Hv. apply remove_loop.
  - intros v Hin. rewrite Hv, remove_loop, (bool_decide_eq_true_2 _ Hin).
    apply set_delete_excludes.
Qed.

Lemma mem_nuke_scope_witness :
  let s := run (Scenario.Mem.two_joined ++ [Scenario.Mem.third_join; Close 2;
                                             Message Scenario.healthy 4 (Scenario.Mem.hello "B")
                                                     1 EmptyString]) init in
  let wipe := Msg nuke EmptyString None EmptyString false EmptyString None None in
  getVaultMembers "V1" (st (on_message Scenario.healthy 4 wipe 2 EmptyString s))
  = ["A"; "B"; "C"].
Proof.
  intros s wipe.
  destruct (mem_nuke_scope Scenario.healthy 4 wipe 2 EmptyString s "B") as (_ & _ & H & _);
    [reflexivity..|].
  rewrite (H "V1"). vm_compute. reflexivity.
Defined.

(** *** send while a member is away *)

(** The queues after the loop of a send, on sockets that do not throw and a
    member set without repetition. *)
Lemma relay_queue tx me d members :
  (∀ c p, sendOk tx c p = true) → NoDup members →
  ∀ delivered s x,
  let off y := match connections s !! y with
               | Some w => negb (readyOpen tx w)
               | None => true
               end in
  messageQueue (st (relay tx me d members delivered s)) !! x =
  if bool_decide (x ∈ members ∧ x ≠ me ∧ off x = true)
  then Some (default [] (messageQueue s !! x) ++ [d])
  else messageQueue s !! x.
Proof.
  intros Hok. induction members as [|y l IH]; intros Hnd delivered s x; cbv zeta.
  { cbn. rewrite bool_decide_eq_false_2; [done|]. intros [Hx _]. by apply elem_of_nil in Hx. }
  apply NoDup_cons in Hnd as [Hy Hnd]. specialize (IH Hnd). cbv zeta in IH.
  cbn [relay].
  assert (∀ b s', connections s' = connections s →
            (∀ z, messageQueue s' !! z =
                  if bool_decide (z = y ∧ z ≠ me ∧
                                  match connections s !! z with
                                  | Some w => negb (readyOpen tx w)
                                  | None => true
                                  end = true)
                  then Some (default [] (messageQueue s !! z) ++ [d])
                  else messageQueue s !! z) →
            messageQueue (st (relay tx me d l b s')) !! x =
            if bool_decide (x ∈ y :: l ∧ x ≠ me ∧
                            match connections s !! x with
                            | Some w => negb (readyOpen tx w)
                            | None => true
                            end = true)
            then Some (default [] (messageQueue s !! x) ++ [d])
            else messageQueue s !! x) as Hrest.
  { intros b s' Hc Hq. rewrite IH, Hc, !Hq.
    destruct (decide (x = y)) as [->|Hxy].
    - rewrite (bool_decide_eq_false_2 (y ∈ l ∧ _)) by tauto.
      apply (f_equal (λ b : bool, if b then _ else _)).
      apply bool_decide_ext. split; intros (? & ? & ?); split_and!; auto.
      apply list_elem_of_here.
    - rewrite (bool_decide_eq_false_2 (x = y ∧ _)) by tauto.
      apply (f_equal (λ b : bool, if b then _ else _)).
      apply bool_decide_ext. rewrite elem_of_cons. tauto. }
  assert (∀ z, z ≠ y ∨ z = me ∨ match connections s !! z with
                                | Some w => negb (readyOpen tx w)
                                | None => true
                                end = false →
            messageQueue s !! z =
            if bool_decide (z = y ∧ z ≠ me ∧
                            match connections s !! z with
                            | Some w => negb (readyOpen tx w)
                            | None => true
                            end = true)
            then Some (default [] (messageQueue s !! z) ++ [d])
            else messageQueue s !! z) as Hskip.
  { intros z Hz. rewrite bool_decide_eq_false_2; [done|].
    intros (? & ? & Hoff). destruct Hz as [?|[?|Hon]]; [done..|]. congruence. }
  destruct (decide (y = me)) as [Hyme|Hyme].
  { rewrite (bool_decide_eq_true_2 _ Hyme). apply Hrest; [done|].
    intros z. apply Hskip. destruct (decide (z = y)) as [->|]; [by right; left | by left]. }
  rewrite (bool_decide_eq_false_2 _ Hyme), bind_gets.
  assert (match connections s !! y with
          | Some w => negb (readyOpen tx w)
          | None => true
          end = true →
          messageQueue (st (relay tx me d l delivered (st (addToQueue y d s)))) !! x =
          if bool_decide (x ∈ y :: l ∧ x ≠ me ∧
                          match connections s !! x with
                          | Some w => negb (readyOpen tx w)
                          | None => true
                          end = true)
          then Some (default [] (messageQueue s !! x) ++ [d])
          else messageQueue s !! x) as Hpush.
  { intros Hoff. apply Hrest; [done|]. intros z. cbn.
    destruct (decide (z = y)) as [->|Hzy].
    - rewrite lookup_insert_eq. by rewrite bool_decide_eq_true_2.
    - rewrite lookup_insert_ne by done. apply Hskip. by left. }
  destruct (connections s !! y) as [w|] eqn:Hw.
  - destruct (readyOpen tx w) eqn:Hopen.
    + rewrite bind_ws_send, Hok. cbn [st]. apply Hrest; [done|].
      intros z. apply Hskip. destruct (decide (z = y)) as [->|]; [|by left].
      right. right. by rewrite Hw, Hopen.
    + rewrite bind_eq. cbn [addToQueue modify st out val]. apply Hpush. done.
  - rewrite bind_eq. cbn [addToQueue modify st out val]. by apply Hpush.
Qed.

(** X25: in the in-memory relay an envelope reaches a member who is away
    once. On sockets that do not throw, a send by an identified user puts
    the envelope at the end of the queue of every member of the vault other
    than that user for whom no open socket is registered. The next identify
    of such a member on a socket that does not throw writes the queue as it
    was, then this envelope, then the identify-ack, and deletes the
    queue. *)
Theorem mem_offline_round_trip tx ws m now msgId s u x :
  mtype m = send →
  currentUserId (session_of ws s) = Some u → truthy u = true →
  (∀ c p, sendOk tx c p = true) →
  NoDup (getVaultMembers (vaultId m) s) →
  x ∈ getVaultMembers (vaultId m) s → x ≠ u →
  match connections s !! x with Some w => negb (readyOpen tx w) | None => true end = true →
  let d := MessageData (vaultId m) (blob m) (or_else (from m) u) msgId
             (ts_or_now (msg_ts m) now) in
  let q := default [] (messageQueue s !! x) ++ [d] in
  let s1 := st (on_message tx ws m now msgId s) in
  messageQueue s1 !! x = Some q ∧
  ∀ tx' ws' i now' msgId',
    mtype i = identify → userHash i = x → (∀ p, sendOk tx' ws' p = true) →
    out (on_message tx' ws' i now' msgId' s1)
      = ((λ e, (ws', MessageFrame e)) <$> q) ++ [(ws', IdentifyAck x)] ∧
    messageQueue (st (on_message tx' ws' i now' msgId' s1)) !! x = None.
Proof.
  intros Hk Hu Ht Hok Hnd Hx Hne Hoff d q s1.
  assert (messageQueue s1 !! x = Some q) as Hq.
  { subst s1. unfold on_message. rewrite Hk. unfold on_send.
    rewrite bind_gets, Hu. cbn [falsy]. rewrite Ht. cbn [negb default from_option id].
    rewrite bind_gets. fold d.
    rewrite (st_then_send_val tx _ ws (λ delivered, SendAck msgId delivered)).
    rewrite (relay_queue tx u d _ Hok Hnd false s x).
    by rewrite bool_decide_eq_true_2. }
  split; [done|]. intros tx' ws' i now' msgId' Hi Hxi Hok'.
  destruct (mem_identify_drain tx' ws' i now' msgId' s1 Hi) as (Hgone & _ & Hout).
  rewrite Hxi in *. rewrite Hq in Hout. split; [by apply Hout | done].
Qed.

Lemma mem_offline_round_trip_witness :
  let s := run (Scenario.Mem.two_joined ++ [Close 2]) init in
  let s1 := st (on_message Scenario.healthy 1 (Scenario.Mem.say "V1" "ct1" 20) 100 "id-1" s) in
  out (on_message Scenario.healthy 4 (Scenario.Mem.hello "B") 200 EmptyString s1)
  = [(4, MessageFrame (MessageData "V1" "ct1" "A" "id-1" 20)); (4, IdentifyAck "B")].
Proof.
  intros s s1.
  destruct (mem_offline_round_trip Scenario.healthy 1 (Scenario.Mem.say "V1" "ct1" 20) 100
              "id-1" s "A" "B") as [_ H];
    [reflexivity | reflexivity | reflexivity | reflexivity | | | | reflexivity |].
  - vm_compute. apply NoDup_cons. split; [|apply NoDup_singleton].
    intros H. apply list_elem_of_singleton in H. discriminate.
  - vm_compute. apply list_elem_of_further, list_elem_of_here.
  - discriminate.
  - destruct (H Scenario.healthy 4 (Scenario.Mem.hello "B") 200%Z EmptyString) as [Ho _];
      [reflexivity | reflexivity | reflexivity |].
    exact Ho.
Defined.

End MemRelayMore.

(** ********************************************************************* *)
(** ** More on the express relay (src/unnamed/part_002)                   *)
(** ********************************************************************* *)
Section ExpressRelayMore.
Import ExpressRelay.
Implicit Types (s : server) (tx : transport frame) (m : msg) (ws : conn).

(** *** the fan-out of a send *)

(** One guarded write of the fan-out: the frame is written, or the envelope
    is queued. *)
Lemma guarded_send_eq tx sock member (e : envelope) (delivered : bool) s :
  try_catch (ws_send tx sock (Forward e);; ret true)
            (queueMessage member e;; ret delivered) s =
  if sendOk tx sock (Forward e)
  then Result s [(sock, Forward e)] (Some true)
  else Result (st (queueMessage member e s)) [] (Some delivered).
Proof.
  unfold try_catch. rewrite bind_ws_send. destruct (sendOk _ _ _); [done|].
  cbn [st out val]. unfold queueMessage. by rewrite bind_modify.
Qed.

Lemma fan_out_spec tx m f (members : list string) :
  ∀ delivered s,
  let r := fan_out tx m f members delivered s in
  (∃ b, val r = Some b) ∧ connections (st r) = connections s ∧ vaults (st r) = vaults s ∧
  (∀ x e, e ∈ default [] (queues s !! x) → e ∈ default [] (queues (st r) !! x)) ∧
  (∀ x, x ∉ members ∨ x = f → queues (st r) !! x = queues s !! x) ∧
  (∀ x, x ∈ members → x ≠ f →
     (∃ sock, connections s !! x = Some sock ∧ (sock, Forward (Envelope m (Some x))) ∈ out r)
     ∨ Envelope m (Some x) ∈ default [] (queues (st r) !! x)).
Proof.
  induction members as [|y l IH]; intros delivered s; cbv zeta.
  { cbn. split_and!; eauto. intros x Hx. by apply elem_of_nil in Hx. }
  cbn [fan_out].
  assert (∀ x e, e ∈ default [] (queues s !! x) →
                 e ∈ default [] (queues (st (queueMessage y (Envelope m (Some y)) s)) !! x))
    as Hmono.
  { intros x e He. cbn. destruct (decide (x = y)) as [->|Hne].
    - rewrite lookup_insert_eq. cbn. apply elem_of_app. by left.
    - by rewrite lookup_insert_ne. }
  assert (Envelope m (Some y)
            ∈ default [] (queues (st (queueMessage y (Envelope m (Some y)) s)) !! y)) as Hin.
  { cbn. rewrite lookup_insert_eq. cbn. apply elem_of_app. right. apply list_elem_of_here. }
  assert (∀ x, x ≠ y →
            queues (st (queueMessage y (Envelope m (Some y)) s)) !! x = queues s !! x) as Hoth.
  { intros x Hne. cbn. by rewrite lookup_insert_ne. }
  case_bool_decide as Hyf.
  { destruct (IH delivered s) as (Hv & Hc & Hvs & Hq & Ho & Hx). split_and!; [done..| |].
    - intros x [Hx'|Hx']; apply Ho; [|by right]. left. rewrite not_elem_of_cons in Hx'. tauto.
    - intros x Hin' Hne. apply elem_of_cons in Hin' as [->|Hin']; [done|]. by apply Hx. }
  rewrite bind_gets.
  (* what the round for [y] leaves *)
  assert (∀ b s1 o1,
    connections s1 = connections s → vaults s1 = vaults s →
    (∀ x e, e ∈ default [] (queues s !! x) → e ∈ default [] (queues s1 !! x)) →
    (∀ x, x ≠ y → queues s1 !! x = queues s !! x) →
    ((∃ sock, connections s !! y = Some sock ∧ (sock, Forward (Envelope m (Some y))) ∈ o1)
     ∨ Envelope m (Some y) ∈ default [] (queues s1 !! y)) →
    let r := fan_out tx m f l b s1 in
    (∃ b', val r = Some b') ∧ connections (st r) = connections s ∧ vaults (st r) = vaults s ∧
    (∀ x e, e ∈ default [] (queues s !! x) → e ∈ default [] (queues (st r) !! x)) ∧
    (∀ x, x ∉ y :: l ∨ x = f → queues (st r) !! x = queues s !! x) ∧
    (∀ x, x ∈ y :: l → x ≠ f →
       (∃ sock, connections s !! x = Some sock ∧
                (sock, Forward (Envelope m (Some x))) ∈ o1 ++ out r)
       ∨ Envelope m (Some x) ∈ default [] (queues (st r) !! x))) as Hrest.
  { intros b s1 o1 Hc1 Hv1 Hq1 Ho1 Hy1. cbv zeta.
    destruct (IH b s1) as (Hv & Hc & Hvs & Hq & Ho & Hx). split_and!; [done|congruence|congruence| | |].
    - intros x e He. by apply Hq, Hq1.
    - intros x Hx'. rewrite Ho.
      + apply Ho1. destruct Hx' as [Hx'| ->]; [|done]. rewrite not_elem_of_cons in Hx'. tauto.
      + destruct Hx' as [Hx'|Hx']; [|by right]. left. rewrite not_elem_of_cons in Hx'. tauto.
    - intros x Hin' Hne. apply elem_of_cons in Hin' as [->|Hin'].
      + destruct Hy1 as [(sock & Hs & Hin1)|Hin1].
        * left. exists sock. split; [done|]. apply elem_of_app. by left.
        * right. by apply Hq.
      + destruct (Hx x Hin' Hne) as [(sock & Hs & Hin1)|Hin1].
        * left. exists sock. split; [congruence|]. apply elem_of_app. by right.
        * by right. }
  destruct (connections s !! y) as [sock|] eqn:Hsock.
  - rewrite bind_eq, guarded_send_eq.
    destruct (sendOk tx sock (Forward (Envelope m (Some y)))); cbn [st out val].
    + apply Hrest; [done..| |]; [done|]. left. exists sock. split; [done|]. apply list_elem_of_here.
    + specialize (Hrest delivered (st (queueMessage y (Envelope m (Some y)) s)) []).
      cbn [app] in Hrest. apply Hrest; [done|done|exact Hmono|exact Hoth|by right].
  - rewrite bind_eq. unfold queueMessage at 1 2 3. cbn [modify st out val].
    specialize (Hrest delivered (st (queueMessage y (Envelope m (Some y)) s)) []).
    cbn [app] in Hrest. apply Hrest; [done|done|exact Hmono|exact Hoth|by right].
Qed.

(** X26: the express relay loses no envelope of a send to a vault that
    exists, whatever the sockets do. For every member other than the sender
    name, the envelope addressed to that member was written to the socket
    registered for the member, or it is in the member's queue after the
    send: a write that throws puts the envelope in the queue. The queues
    only grow, and the queues of non-members and of the sender name are
    not touched. This is said of a plain state, where every member of a
    vault has an own name. *)
Theorem express_send_never_loses tx ws m now s vId f v :
  plain s → own_name vId = true →
  mtype m = send →
  vaultId m = Some vId → from m = Some f → truthy vId = true → truthy f = true →
  vaults s !! vId = Some v →
  let r := on_message tx ws m now s in
  (∀ x, x ∈ members v → x ≠ f →
     (∃ sock, connections s !! x = Some sock ∧ (sock, Forward (Envelope m (Some x))) ∈ out r)
     ∨ Envelope m (Some x) ∈ default [] (queues (st r) !! x)) ∧
  (∀ x e, e ∈ default [] (queues s !! x) → e ∈ default [] (queues (st r) !! x)) ∧
  (∀ x, x ∉ members v ∨ x = f → queues (st r) !! x = queues s !! x).
Proof.
  intros _ _ Hk Hv Hf Htv Htf Hvault r. subst r.
  unfold on_message. rewrite Hk. unfold on_send. rewrite Hv, Hf, Htv, Htf. cbn [andb].
  rewrite bind_gets, Hvault.
  destruct (fan_out_spec tx m f (members v) false s) as ([b Hb] & Hc & Hvs & Hq & Ho & Hx).
  rewrite bind_eq, Hb. cbn [st out val]. rewrite st_ws_send.
  split_and!; [|done|done].
  intros x Hin Hne. destruct (Hx x Hin Hne) as [(sock & Hs & Hin1)|Hin1]; [|by right].
  left. exists sock. split; [done|]. apply elem_of_app. by left.
Qed.

Lemma express_send_never_loses_witness :
  let s := run [ Message Scenario.healthy 1 (Scenario.Express.hello "A" ["V"]) 0;
                 Message Scenario.healthy 2 (Scenario.Express.hello "B" ["V"]) 0 ] init in
  let m := Scenario.Express.say "V" "A" "ct2" 2 in
  Envelope m (Some "B")
    ∈ default [] (queues (st (on_message Scenario.Express.breaks_on_second 1 m 2 s)) !! "B").
Proof.
  intros s m.
  destruct (express_send_never_loses Scenario.Express.breaks_on_second 1 m 2 s "V" "A"
              (Vault "A" ["A"; "B"] 0)) as (H & _ & _);
    [apply express_plain_run; vm_compute; reflexivity | reflexivity..|].
  destruct (H "B") as [(sock & Hs & Hin)|Hq]; [| |exfalso|exact Hq].
  - apply list_elem_of_further, list_elem_of_here.
  - discriminate.
  - vm_compute in Hin. apply list_elem_of_singleton in Hin. discriminate.
Defined.

(** *** direct messages *)

(** X27: an x3dh-init, x3dh-response, file-chunk or file-complete message is
    relayed to the user it names in [to], from any socket, identified or
    not. When nothing is registered for that user the message is put at the
    end of the user's queue, and the next identify of the user on a socket
    that does not throw writes the queue as it was, then this message, then
    the identify-ack, and leaves the queue empty. When a socket is
    registered, the message is written to it; a write that throws leaves
    the message neither written nor queued. This is said of a plain state
    and of own names. *)
Theorem express_direct_round_trip tx ws m now s t :
  plain s → own_name t = true →
  mtype m ∈ [x3dh_init; x3dh_response; file_chunk; file_complete] →
  to m = Some t → truthy t = true →
  let r := on_message tx ws m now s in
  let e := Envelope m None in
  (connections s !! t = None →
     out r = [] ∧ queues (st r) !! t = Some (default [] (queues s !! t) ++ [e]) ∧
     ∀ tx' ws' i now',
       own_names i = true →
       mtype i = identify → userId i = Some t → (∀ p, sendOk tx' ws' p = true) →
       out (on_message tx' ws' i now' (st r))
         = ((λ e, (ws', Forward e)) <$> default [] (queues s !! t) ++ [e])
           ++ [(ws', IdentifyAck t)] ∧
       queues (st (on_message tx' ws' i now' (st r))) !! t = Some []) ∧
  (∀ sock, connections s !! t = Some sock →
     st r = s ∧ out r = if sendOk tx sock (Forward e) then [(sock, Forward e)] else []).
Proof.
  intros _ _ Hk Hto Ht r e.
  assert (r = on_direct tx ws m s) as ->.
  { subst r. unfold on_message. set_unfold in Hk.
    destruct Hk as [-> | [-> | [-> | [-> | []]]]]; done. }
  unfold on_direct. rewrite Hto, Ht, bind_gets. split.
  - intros Hc. rewrite Hc. fold e. cbn [queueMessage modify st out].
    split; [done|]. split; [apply lookup_insert_eq|].
    intros tx' ws' i now' _ Hi Hu Hok.
    match goal with |- context [set_queues ?g s] => set (s1 := set_queues g s) end.
    destruct (express_identify_drain tx' ws' i now' s1 t Hi Hu Ht) as [Hq Hout].
    split; [|done]. rewrite Hout, Hok.
    assert (queues s1 !! t = Some (default [] (queues s !! t) ++ [e])) as ->
      by apply lookup_insert_eq.
    cbn [default from_option id]. f_equal. f_equal.
    apply filter_all, Forall_forall. auto.
  - intros sock Hc. rewrite Hc. fold e. rewrite st_ws_send. split; [done|].
    unfold ws_send. by destruct (sendOk _ _ _).
Qed.

Lemma express_direct_round_trip_witness :
  let m := Msg x3dh_init None None None (Some "A") (Some "B") "hs" None in
  let s1 := st (on_message Scenario.healthy 1 m 1 init) in
  out (on_message Scenario.healthy 2 (Scenario.Express.hello "B" []) 2 s1)
  = [(2, Forward (Envelope m None)); (2, IdentifyAck "B")].
Proof.
  intros m s1.
  destruct (express_direct_round_trip Scenario.healthy 1 m 1 init "B") as [H _];
    [apply (express_plain_run []); reflexivity | reflexivity
    | apply list_elem_of_here | reflexivity | reflexivity |].
  destruct (H eq_refl) as (_ & _ & H').
  destruct (H' Scenario.healthy 2 (Scenario.Express.hello "B" []) 2%Z) as [Ho _];
    [reflexivity | reflexivity | reflexivity | reflexivity |].
  exact Ho.
Defined.

(** *** vaults *)

Lemma ensure_and_add_entry vId u now s v0 w :
  vaults s !! v0 = Some w →
  ∃ w', vaults (st (ensure_and_add vId u now s)) !! v0 = Some w' ∧
        creator w' = creator w ∧ createdAt w' = createdAt w.
Proof.
  intros Hw. cbn. destruct (decide (v0 = vId)) as [->|Hne].
  - rewrite lookup_insert_eq, Hw. cbn. eauto.
  - rewrite lookup_insert_ne by done. eauto.
Qed.

Lemma express_step_vault e s v0 w :
  vaults s !! v0 = Some w →
  ∃ w', vaults (st (step e s)) !! v0 = Some w' ∧
        creator w' = creator w ∧ createdAt w' = createdAt w.
Proof.
  intros Hw.
  set (I := λ s', ∃ w', vaults s' !! v0 = Some w' ∧
                        creator w' = creator w ∧ createdAt w' = createdAt w).
  assert (I s) as Hs by (exists w; done).
  assert (∀ vId u now s', I s' → I (st (ensure_and_add vId u now s'))) as Hens.
  { intros vId u now s' (w1 & Hw1 & Hc1 & Ht1).
    destruct (ensure_and_add_entry vId u now s' v0 w1 Hw1) as (w2 & Hw2 & Hc2 & Ht2).
    exists w2. split_and!; congruence. }
  change (I (st (step e s))).
  destruct e as [tx ws now|tx ws m now|ws|now]; cbn [step].
  - by rewrite st_ws_send.
  - unfold on_message. destruct (mtype m).
    + unfold on_identify. destruct (userId m) as [u|]; [|done]. destruct (truthy u); [|done].
      rewrite !bind_modify. apply (st_bind_inv I).
      { destruct (msg_vaults m) as [vs|]; [|done].
        apply (forEach_st_inv I); [|done]. intros vId s' Hs'. by apply Hens. }
      intros _ s1 Hs1. apply (st_bind_inv I).
      { unfold deliverQueued. rewrite bind_gets. destruct (connections s1 !! u) as [c|]; [|done].
        rewrite bind_gets. apply (st_bind_inv I); [|done].
        apply (forEach_st_inv I); [|done]. intros e s' Hs'. by rewrite st_try_catch_ret, st_ws_send. }
      intros _ s2 Hs2. by rewrite st_ws_send.
    + unfold on_join_vault. destruct (vaultId m) as [vId|]; [|done].
      destruct (userId m) as [u|]; [|done]. destruct (truthy vId && truthy u); [|done].
      apply (st_bind_inv I); [by apply Hens|]. intros _ s1 Hs1.
      rewrite bind_gets, bind_gets. apply (st_bind_inv I).
      { destruct (truthy (creator _)); [|done].
        destruct (connections s1 !! _); [by rewrite st_ws_send | done]. }
      intros _ s2 Hs2. by rewrite st_ws_send.
    + unfold on_leave_vault. destruct (vaultId m) as [vId|]; [|done].
      destruct (userId m) as [u|]; [|done]. destruct (truthy vId && truthy u); [|done].
      rewrite bind_modify, st_ws_send. subst I. cbn.
      destruct (vaults s !! vId) as [v|] eqn:Hv; [|by exists w].
      destruct (decide (v0 = vId)) as [->|Hne].
      * rewrite lookup_insert_eq. rewrite Hw in Hv. injection Hv as <-. by eexists.
      * rewrite lookup_insert_ne by done. by exists w.
    + unfold on_send. destruct (vaultId m) as [vId|]; [|done].
      destruct (from m) as [f|]; [|done]. destruct (truthy vId && truthy f); [|done].
      rewrite bind_gets. destruct (vaults s !! vId) as [v|]; [|by rewrite st_ws_send].
      rewrite (st_then_send_val tx _ ws (λ delivered, SendAckOk delivered)).
      destruct (fan_out_spec tx m f (members v) false s) as (_ & _ & Hvs & _).
      subst I. exists w. cbn. by rewrite Hvs.
    + unfold on_direct. destruct (to m) as [t|]; [|done]. destruct (truthy t); [|done].
      rewrite bind_gets. destruct (connections s !! t); [by rewrite st_ws_send | done].
    + unfold on_direct. destruct (to m) as [t|]; [|done]. destruct (truthy t); [|done].
      rewrite bind_gets. destruct (connections s !! t); [by rewrite st_ws_send | done].
    + unfold on_direct. destruct (to m) as [t|]; [|done]. destruct (truthy t); [|done].
      rewrite bind_gets. destruct (connections s !! t); [by rewrite st_ws_send | done].
    + unfold on_direct. destruct (to m) as [t|]; [|done]. destruct (truthy t); [|done].
      rewrite bind_gets. destruct (connections s !! t); [by rewrite st_ws_send | done].
    + unfold on_nuke. destruct (userId m) as [u|]; [|done]. destruct (truthy u); [|done].
      rewrite !bind_modify, st_ws_send. subst I. cbn. rewrite lookup_fmap, Hw. cbn. by eexists.
    + by rewrite st_ws_send.
    + done.
  - unfold on_close. rewrite bind_gets. by destruct (falsy _).
  - done.
Qed.

(** X28: in the express relay a vault, once created, is never deleted, and
    its creator and creation time never change: the first identify or
    join-vault that names the vault fixes them, and every later event
    (joins, leaves, sends, nukes, the creator's own nuke included) leaves
    them as they are. *)
Theorem express_vault_creator_fixed evs s v0 w :
  vaults s !! v0 = Some w →
  ∃ w', vaults (run evs s) !! v0 = Some w' ∧
        creator w' = creator w ∧ createdAt w' = createdAt w.
Proof.
  revert s w. induction evs as [|e evs IH]; intros s w Hw; [by exists w|].
  cbn. destruct (express_step_vault e s v0 w Hw) as (w1 & Hw1 & Hc1 & Ht1).
  destruct (IH _ w1 Hw1) as (w2 & Hw2 & Hc2 & Ht2).
  exists w2. split_and!; [exact Hw2 | congruence | congruence].
Qed.

Lemma express_vault_creator_fixed_witness :
  let s := run [ Message Scenario.healthy 1 (Scenario.Express.hello "A" ["V"]) 5 ] init in
  let wipe := Msg nuke (Some "A") None None None None EmptyString None in
  ∃ w', vaults (run [ Message Scenario.healthy 2 (Scenario.Express.hello "B" ["V"]) 6;
                      Message Scenario.healthy 2 wipe 7 ] s) !! "V" = Some w' ∧
        creator w' = "A" ∧ createdAt w' = 5%Z.
Proof.
  intros s wipe.
  apply (express_vault_creator_fixed _ s "V" (Vault "A" ["A"] 5)). reflexivity.
Defined.

(** *** nuke *)

(** X29: a nuke in the express relay names the user in the message and
    needs no identify: from any socket it deletes the queue of that user
    and takes the user out of every vault, and leaves the registry of
    sockets as it is. No send to a vault that comes next queues anything
    for the user. *)
Theorem express_nuke_of_anyone tx ws m now s u :
  mtype m = nuke → userId m = Some u → truthy u = true →
  let s1 := st (on_message tx ws m now s) in
  queues s1 !! u = None ∧
  (∀ vId v, vaults s1 !! vId = Some v → u ∉ members v) ∧
  connections s1 = connections s ∧
  ∀ tx' ws' m' now',
    mtype m' = send → queues (st (on_message tx' ws' m' now' s1)) !! u = None.
Proof.
  intros Hk Hu Ht s1.
  assert (s1 = set_vaults (fmap (λ v, Vault (creator v) (set_delete u (members v)) (createdAt v)))
                 (set_queues (delete u) s)) as Hs1.
  { subst s1. unfold on_message. rewrite Hk. unfold on_nuke. rewrite Hu, Ht.
    by rewrite !bind_modify, st_ws_send. }
  assert (queues s1 !! u = None) as Hq by (rewrite Hs1; apply lookup_delete_eq).
  assert (∀ vId v, vaults s1 !! vId = Some v → u ∉ members v) as Hout.
  { intros vId v. rewrite Hs1. cbn. rewrite lookup_fmap.
    destruct (vaults s !! vId) as [v'|]; [|done]. cbn. intros [= <-]. cbn.
    apply set_delete_excludes. }
  split_and!; [done|done|by rewrite Hs1|].
  intros tx' ws' m' now' Hk'. unfold on_message. rewrite Hk'. unfold on_send.
  destruct (vaultId m') as [vId|]; [|done]. destruct (from m') as [f|]; [|done].
  destruct (truthy vId && truthy f); [|done].
  rewrite bind_gets. destruct (vaults s1 !! vId) as [v|] eqn:Hv; [|by rewrite st_ws_send].
  rewrite (st_then_send_val tx' _ ws' (λ delivered, SendAckOk delivered)).
  destruct (fan_out_spec tx' m' f (members v) false s1) as (_ & _ & _ & _ & Ho & _).
  rewrite Ho; [done|]. left. by apply (Hout vId v).
Qed.

Lemma express_nuke_of_anyone_witness :
  let s := run Scenario.Express.two_queued init in
  let wipe := Msg nuke (Some "B") None None None None EmptyString None in
  let s1 := st (on_message Scenario.healthy 9 wipe 3 s) in
  queues s1 !! "B" = None ∧
  queues (st (on_message Scenario.healthy 1 (Scenario.Express.say "V" "A" "ct3" 4) 4 s1)) !! "B"
  = None.
Proof.
  intros s wipe s1.
  destruct (express_nuke_of_anyone Scenario.healthy 9 wipe 3 s "B") as (H1 & _ & _ & H2);
    [reflexivity..|].
  split; [exact H1 | by apply H2].
Defined.

(** *** the sweep *)

(** X30: the hourly sweep of the express relay at time [now] keeps, in
    every queue and in their order, the envelopes that carry no timestamp
    (or the timestamp 0) and those less than seven days old, and drops the
    rest; a queue that becomes empty stays as an empty queue. An identify
    that follows on a socket that does not throw writes exactly the
    envelopes the sweep kept, and then the identify-ack. This is said of a
    plain state and an identify with own names. *)
Theorem express_sweep_then_identify now s :
  plain s →
  let s1 := st (sweep now s) in
  (∀ u, queues s1 !! u = filter (λ e, kept now e = true) <$> queues s !! u) ∧
  (∀ u e, e ∈ default [] (queues s1 !! u) ↔
          e ∈ default [] (queues s !! u) ∧
          (msg_ts (e_msg e) = None ∨ msg_ts (e_msg e) = Some 0%Z ∨
           ∃ t, msg_ts (e_msg e) = Some t ∧ (now - t < messagesRetentionMs)%Z)) ∧
  ∀ tx ws i now' u,
    own_names i = true →
    mtype i = identify → userId i = Some u → truthy u = true →
    (∀ p, sendOk tx ws p = true) →
    out (on_message tx ws i now' s1)
    = ((λ e, (ws, Forward e)) <$> filter (λ e, kept now e = true) (default [] (queues s !! u)))
      ++ [(ws, IdentifyAck u)].
Proof.
  intros _ s1.
  assert (∀ u, queues s1 !! u = filter (λ e, kept now e = true) <$> queues s !! u) as Hq.
  { intros u. subst s1. cbn. by rewrite lookup_fmap. }
  split; [done|]. split.
  - intros u e. rewrite Hq. destruct (queues s !! u) as [q|]; cbn.
    + rewrite list_elem_of_filter. unfold kept.
      destruct (msg_ts (e_msg e)) as [t|].
      * rewrite orb_true_iff, !bool_decide_eq_true. split.
        -- intros [[->|Hy] Hin]; split; eauto 6.
        -- intros [Hin [?|[[= ->]|(t' & [= <-] & Hy)]]]; [done|tauto|tauto].
      * tauto.
    + split; [intros H; by apply elem_of_nil in H | intros [H _]; by apply elem_of_nil in H].
  - intros tx ws i now' u _ Hi Hu Ht Hok.
    destruct (express_identify_drain tx ws i now' s1 u Hi Hu Ht) as [_ ->].
    rewrite Hok, Hq. f_equal. f_equal.
    destruct (queues s !! u) as [q|]; cbn; [|done].
    apply filter_all, Forall_forall. auto.
Qed.

Lemma express_sweep_then_identify_witness :
  let s := run Scenario.Express.two_queued init in
  let week := (7 * 24 * 60 * 60 * 1000)%Z in
  out (on_message Scenario.healthy 3 (Scenario.Express.hello "B" ["V"]) (week + 2)
         (st (sweep (week + 1) s)))
  = [(3, Forward (Envelope (Scenario.Express.say "V" "A" "ct2" 2) (Some "B")));
     (3, IdentifyAck "B")].
Proof.
  intros s week.
  destruct (express_sweep_then_identify (week + 1) s) as (_ & _ & H);
    [apply express_plain_run; vm_compute; reflexivity|].
  etrans; [exact (H Scenario.healthy 3 (Scenario.Express.hello "B" ["V"]) (week + 2)%Z "B"
                    eq_refl eq_refl eq_refl eq_refl (λ _, eq_refl)) |].
  vm_compute. reflexivity.
Defined.

(** *** plain states *)

(** In a plain state every name is an own name. *)
Lemma express_names_own_queue r (q : list envelope) s :
  names_own s → own_name r = true → names_own (set_queues <[r := q]> s).
Proof.
  intros (Hu & Hq & Hv) Hr. split_and!; [done| |done].
  intros u. cbn. destruct (decide (u = r)) as [->|Hne]; [done|].
  rewrite lookup_insert_ne by done. apply Hq.
Qed.

Lemma express_names_own_ensure vId u now s :
  names_own s → own_name vId = true → own_name u = true →
  names_own (st (ensure_and_add vId u now s)).
Proof.
  intros (Hu & Hq & Hv) Hvid Huo. split_and!; [done|done|].
  intros v0 w. cbn. destruct (decide (v0 = vId)) as [->|Hne].
  - rewrite lookup_insert_eq. intros [= <-]. split; [done|]. cbn.
    assert (Forall (λ x, own_name x = true)
              (members (default (Vault u [] now) (vaults s !! vId)))) as Hall.
    { destruct (vaults s !! vId) as [w0|] eqn:Hw0; cbn; [|done]. by apply (Hv _ _ Hw0). }
    unfold set_add. case_bool_decide; [done|]. apply Forall_app. split; [done|].
    by apply Forall_singleton.
  - rewrite lookup_insert_ne by done. apply Hv.
Qed.

Lemma express_names_own_fan_out tx m f (members : list string) :
  Forall (λ x, own_name x = true) members →
  ∀ delivered s, names_own s → names_own (st (fan_out tx m f members delivered s)).
Proof.
  induction 1 as [|y l Hy Hl IH]; intros delivered s Hs; [done|].
  cbn [fan_out]. case_bool_decide; [by apply IH|]. rewrite bind_gets.
  destruct (connections s !! y) as [sock|].
  - rewrite bind_eq, guarded_send_eq.
    destruct (sendOk tx sock (Forward (Envelope m (Some y)))); cbn [st out val].
    + by apply IH.
    + apply IH. by apply express_names_own_queue.
  - rewrite bind_eq. unfold queueMessage at 1 2 3. cbn [modify st out val].
    apply IH. by apply express_names_own_queue.
Qed.

Lemma express_step_names e s :
  names_own s → plain_event e = true → names_own (st (step e s)).
Proof.
  intros Hs He. pose proof Hs as (Hu & Hq & Hv).
  destruct e as [tx ws now|tx ws m now|ws|now]; cbn [step].
  - by rewrite st_ws_send.
  - cbn in He. apply andb_true_iff in He as [He Hto]. apply andb_true_iff in He as [He Hvid].
    apply andb_true_iff in He as [Huid Hvs].
    unfold on_message. destruct (mtype m).
    + (* identify *)
      unfold on_identify. destruct (userId m) as [u|]; [|done]. destruct (truthy u); [|done].
      cbn in Huid. rewrite !bind_modify. apply (st_bind_inv names_own).
      { assert (names_own (set_users <[u := now]>
                  (set_connections <[u := ws]> (set_session <[ws := u]> s)))) as H1.
        { split_and!; [|done|done]. intros u'. cbn.
          destruct (decide (u' = u)) as [->|Hne]; [done|].
          rewrite lookup_insert_ne by done. apply Hu. }
        destruct (msg_vaults m) as [vs|]; [|done]. cbn in Hvs.
        apply (forEach_st_inv_elem names_own); [|done].
        intros vId s' Hin Hs'. apply express_names_own_ensure; [done| |done].
        by apply (proj1 (forallb_forall _ _) Hvs), list_elem_of_In. }
      intros _ s1 Hs1. apply (st_bind_inv names_own).
      { unfold deliverQueued. rewrite bind_gets. destruct (connections s1 !! u) as [c|]; [|done].
        rewrite bind_gets. apply (st_bind_inv names_own).
        - apply (forEach_st_inv names_own); [|done].
          intros e s' Hs'. by rewrite st_try_catch_ret, st_ws_send.
        - intros _ s2 Hs2. by apply express_names_own_queue. }
      intros _ s2 Hs2. by rewrite st_ws_send.
    + (* join-vault *)
      unfold on_join_vault. destruct (vaultId m) as [vId|]; [|done].
      destruct (userId m) as [u|]; [|done]. destruct (truthy vId && truthy u); [|done].
      cbn in Huid, Hvid.
      apply (st_bind_inv names_own); [by apply express_names_own_ensure|]. intros _ s1 Hs1.
      rewrite bind_gets, bind_gets. apply (st_bind_inv names_own).
      { destruct (truthy (creator _)); [|done].
        destruct (connections s1 !! _); [by rewrite st_ws_send | done]. }
      intros _ s2 Hs2. by rewrite st_ws_send.
    + (* leave-vault *)
      unfold on_leave_vault. destruct (vaultId m) as [vId|]; [|done].
      destruct (userId m) as [u|]; [|done]. destruct (truthy vId && truthy u); [|done].
      rewrite bind_modify, st_ws_send. split_and!; [done|done|]. intros v0 w. cbn.
      destruct (vaults s !! vId) as [v|] eqn:Hv0; [|apply Hv].
      destruct (decide (v0 = vId)) as [->|Hne].
      * rewrite lookup_insert_eq. intros [= <-]. destruct (Hv _ _ Hv0) as [Hk Hall].
        split; [done|]. cbn. apply Forall_forall. intros x Hx.
        apply list_elem_of_filter in Hx as [_ Hx]. by apply (proj1 (Forall_forall _ _) Hall).
      * rewrite lookup_insert_ne by done. apply Hv.
    + (* send *)
      unfold on_send. destruct (vaultId m) as [vId|]; [|done].
      destruct (from m) as [f|]; [|done]. destruct (truthy vId && truthy f); [|done].
      rewrite bind_gets. destruct (vaults s !! vId) as [v|] eqn:Hv0; [|by rewrite st_ws_send].
      rewrite (st_then_send_val tx _ ws (λ delivered, SendAckOk delivered)).
      apply express_names_own_fan_out; [|done]. by apply (Hv _ _ Hv0).
    + unfold on_direct. destruct (to m) as [t|]; [|done]. destruct (truthy t); [|done].
      rewrite bind_gets. destruct (connections s !! t); [by rewrite st_ws_send |].
      by apply express_names_own_queue.
    + unfold on_direct. destruct (to m) as [t|]; [|done]. destruct (truthy t); [|done].
      rewrite bind_gets. destruct (connections s !! t); [by rewrite st_ws_send |].
      by apply express_names_own_queue.
    + unfold on_direct. destruct (to m) as [t|]; [|done]. destruct (truthy t); [|done].
      rewrite bind_gets. destruct (connections s !! t); [by rewrite st_ws_send |].
      by apply express_names_own_queue.
    + unfold on_direct. destruct (to m) as [t|]; [|done]. destruct (truthy t); [|done].
      rewrite bind_gets. destruct (connections s !! t); [by rewrite st_ws_send |].
      by apply express_names_own_queue.
    + (* nuke *)
      unfold on_nuke. destruct (userId m) as [u|]; [|done]. destruct (truthy u); [|done].
      rewrite !bind_modify, st_ws_send. split_and!; [done| |].
      * intros u'. cbn. destruct (decide (u' = u)) as [->|Hne].
        -- rewrite lookup_delete_eq. by intros [? ?].
        -- rewrite lookup_delete_ne by done. apply Hq.
      * intros v0 w. cbn. rewrite lookup_fmap.
        destruct (vaults s !! v0) as [w0|] eqn:Hw0; [|done]. cbn. intros [= <-].
        destruct (Hv _ _ Hw0) as [Hk Hall]. split; [done|]. cbn.
        apply Forall_forall. intros x Hx. apply list_elem_of_filter in Hx as [_ Hx].
        by apply (proj1 (Forall_forall _ _) Hall).
    + by rewrite st_ws_send.
    + done.
  - unfold on_close. rewrite bind_gets. by destruct (falsy _).
  - split_and!; [done| |done]. intros u. cbn. rewrite lookup_fmap, fmap_is_Some. apply Hq.
Qed.

Lemma express_run_names evs s :
  names_own s → forallb plain_event evs = true → names_own (run evs s).
Proof.
  revert s. induction evs as [|e evs IH]; intros s Hs Hev; [done|].
  cbn in Hev. apply andb_true_iff in Hev as [He Hev].
  cbn. apply IH; [|done]. by apply express_step_names.
Qed.

Lemma express_plain_names s : plain s → names_own s.
Proof.
  intros (evs & Hev & ->). apply express_run_names; [|done].
  split_and!; cbn; try (intros ? [? H]; by rewrite lookup_empty in H).
  intros ? ?. by rewrite lookup_empty.
Qed.

End ExpressRelayMore.
